(** * QuickA11y audit: the detection core of [src/content/content.js]

    A shallow embedding of the colour parser, the WCAG contrast
    computation and the rule detectors of the content script, and the
    properties of the specification that are stated about them.

    Conventions of the embedding.

    - A JavaScript string is a [string]: a sequence of code units in
      0..255.  The character classes of the source ([\s], [\d],
      [String.prototype.trim], [toLowerCase]) are written out for that
      range.
    - The integers produced by [parseInt] are exact ([Z]); the decimals
      produced by [parseFloat] are exact rationals ([Q]); luminance and
      contrast, which need a real power, are real numbers ([R]).  [NaN] is
      kept wherever the source can produce it; rounding to binary64 and
      overflow to [Infinity] by rounding are not represented.  The numbers
      of the source are binary64: its [parseInt] is the integer written
      as long as that integer is at most 2^53 and a rounded number, or
      [Infinity], beyond; its [parseFloat] is the binary64 number nearest
      to the decimal written.  A statement that gives the value of a
      number read from text is therefore made for digit runs whose value
      is at most 2^53, and a comparison of a decimal with 1 for decimals
      that rounding leaves on the same side of 1.
    - A detector reads the document through element views: one record per
      element returned by the detector's [querySelectorAll], holding what
      the detector reads of that element when it visits it ([Dom],
      [Detectors]).
    - The marks, badges and style elements that the detectors write, and
      their clearing, are modelled on a document tree whose elements carry
      an identity ([Live]); there the detectors take their decisions with
      the functions of [Detectors], on the views of the tree as it is
      when they read it. *)

From Stdlib Require Import ZArith QArith Qpower Reals Lra Lia.
From Stdlib Require Import List Bool Ascii String DecimalString.
Import ListNotations.

Local Open Scope string_scope.
Local Open Scope Z_scope.
Local Open Scope list_scope.

(** ** Characters and strings *)

Module JsString.

(** [\s] of a regular expression, and the white space and line terminators
    removed by [trim] and skipped by [parseInt]/[parseFloat]: TAB, LF, VT,
    FF, CR, SPACE and NO-BREAK SPACE. *)
Definition isWhiteSpace (c : ascii) : bool :=
  let n := N_of_ascii c in
  (((9 <=? n) && (n <=? 13)) || (n =? 32) || (n =? 160))%N.

(** [\d]: the ten ASCII digits. *)
Definition isDecimalDigit (c : ascii) : bool :=
  let n := N_of_ascii c in ((48 <=? n) && (n <=? 57))%N.

(** Value of a character read as a digit of [parseInt]: [0-9], then
    [a-z]/[A-Z] for 10..35. *)
Definition digitValue (c : ascii) : option Z :=
  let n := Z.of_N (N_of_ascii c) in
  if (48 <=? n) && (n <=? 57) then Some (n - 48)
  else if (97 <=? n) && (n <=? 122) then Some (n - 87)
  else if (65 <=? n) && (n <=? 90) then Some (n - 55)
  else None.

Definition isRadixDigit (radix : Z) (c : ascii) : bool :=
  match digitValue c with
  | Some v => v <? radix
  | None => false
  end.

(** [[0-9a-f]] under the [i] flag. *)
Definition isHexDigit (c : ascii) : bool := isRadixDigit 16 c.

Fixpoint takeWhile (p : ascii -> bool) (s : string) : string :=
  match s with
  | String c t => if p c then String c (takeWhile p t) else EmptyString
  | EmptyString => EmptyString
  end.

Fixpoint dropWhile (p : ascii -> bool) (s : string) : string :=
  match s with
  | String c t => if p c then dropWhile p t else s
  | EmptyString => EmptyString
  end.

Fixpoint forallb (p : ascii -> bool) (s : string) : bool :=
  match s with
  | String c t => p c && forallb p t
  | EmptyString => true
  end.

Definition isEmpty (s : string) : bool :=
  match s with EmptyString => true | _ => false end.

Definition trimStart (s : string) : string := dropWhile isWhiteSpace s.

Fixpoint trimEnd (s : string) : string :=
  match s with
  | String c t =>
      let t' := trimEnd t in
      if isWhiteSpace c && isEmpty t' then EmptyString else String c t'
  | EmptyString => EmptyString
  end.

(** [String.prototype.trim]. *)
Definition trim (s : string) : string := trimEnd (trimStart s).

(** [String.prototype.toLowerCase] on code units 0..255: [A-Z] and the
    Latin-1 capitals U+00C0..U+00DE (U+00D7 is the multiplication sign). *)
Definition lowerChar (c : ascii) : ascii :=
  let n := N_of_ascii c in
  if ((65 <=? n) && (n <=? 90))%N then ascii_of_N (n + 32)
  else if ((192 <=? n) && (n <=? 222) && negb (n =? 215))%N
       then ascii_of_N (n + 32)
  else c.

Fixpoint toLowerCase (s : string) : string :=
  match s with
  | String c t => String (lowerChar c) (toLowerCase t)
  | EmptyString => EmptyString
  end.

(** Value of a run of digits of the given radix, most significant first. *)
Fixpoint digitsValue (radix acc : Z) (s : string) : Z :=
  match s with
  | String c t =>
      match digitValue c with
      | Some v => digitsValue radix (acc * radix + v) t
      | None => acc
      end
  | EmptyString => acc
  end.

(** [parseInt(string, radix)] (ECMA-262 19.2.5); [None] is [NaN].  An
    absent radix is [radix = None].  The result is the mathematical
    integer of the digits: it is the number of the source when its
    magnitude is at most 2^53, beyond which the source has the nearest
    binary64 number (and [Infinity] from about 309 decimal digits). *)
Definition parseInt (s : string) (radix : option Z) : option Z :=
  let s1 := trimStart s in
  let '(sign, s2) :=
    match s1 with
    | String "-" t => (-1, t)
    | String "+" t => (1, t)
    | _ => (1, s1)
    end in
  let R := match radix with Some r => r | None => 0 end in
  if negb (R =? 0) && ((R <? 2) || (36 <? R)) then None
  else
    let stripPrefix := (R =? 0) || (R =? 16) in
    let R10 := if R =? 0 then 10 else R in
    let '(R', s3) :=
      match s2 with
      | String "0" (String x t) =>
          if stripPrefix && (Ascii.eqb x "x" || Ascii.eqb x "X")
          then (16, t) else (R10, s2)
      | _ => (R10, s2)
      end in
    let digits := takeWhile (isRadixDigit R') s3 in
    if isEmpty digits then None
    else Some (sign * digitsValue R' 0 digits).

(** A JavaScript number obtained from decimal text. *)
Inductive jsfloat : Type :=
| FNaN
| FInf (negative : bool)
| FFin (q : Q).

Definition startsWith (p s : string) : bool := String.prefix p s.

(** The exponent part [e[+-]digits] at the head of [s], when there is one:
    its value. *)
Definition exponentPart (s : string) : option Z :=
  match s with
  | String c t =>
      if Ascii.eqb c "e" || Ascii.eqb c "E" then
        let '(sg, t') :=
          match t with
          | String "-" u => (-1, u)
          | String "+" u => (1, u)
          | _ => (1, t)
          end in
        let ds := takeWhile isDecimalDigit t' in
        if isEmpty ds then None else Some (sg * digitsValue 10 0 ds)
      else None
  | EmptyString => None
  end.

(** The longest prefix of [s] that is a decimal literal
    ([digits], [digits.], [digits.digits] or [.digits], then an optional
    exponent part), as a number; [NaN] when there is none. *)
Definition decimalLiteral (s : string) : jsfloat :=
  let ip := takeWhile isDecimalDigit s in
  let r1 := dropWhile isDecimalDigit s in
  let '(fp, r2) :=
    match r1 with
    | String "." t =>
        let f := takeWhile isDecimalDigit t in
        (* a lone "." with no digit on either side is not consumed *)
        if isEmpty ip && isEmpty f then (EmptyString, r1)
        else (f, dropWhile isDecimalDigit t)
    | _ => (EmptyString, r1)
    end in
  if isEmpty ip && isEmpty fp then FNaN
  else
    let e := match exponentPart r2 with Some e => e | None => 0 end in
    let m := digitsValue 10 0 (ip ++ fp)%string in
    FFin (inject_Z m * Qpower (10 # 1) (e - Z.of_nat (String.length fp)))%Q.

(** [StrUnsignedDecimalLiteral]: [Infinity] or a decimal literal. *)
Definition unsignedDecimal (s : string) : jsfloat :=
  if startsWith "Infinity" s then FInf false else decimalLiteral s.

Definition negate (x : jsfloat) : jsfloat :=
  match x with
  | FNaN => FNaN
  | FInf n => FInf (negb n)
  | FFin q => FFin (Qopp q)
  end.

(** [parseFloat(string)] (ECMA-262 19.2.4): the longest prefix of the
    left-trimmed text that is a [StrDecimalLiteral].  The result is the
    mathematical value of that literal, which the source rounds to the
    nearest binary64 number. *)
Definition parseFloat (s : string) : jsfloat :=
  match trimStart s with
  | String "-" t => negate (unsignedDecimal t)
  | String "+" t => unsignedDecimal t
  | s1 => unsignedDecimal s1
  end.

(** [x < y] and [x >= y] on [jsfloat]: false as soon as one side is [NaN]. *)
Definition float_lt (x y : jsfloat) : bool :=
  match x, y with
  | FNaN, _ | _, FNaN => false
  | FInf true, FInf true => false
  | FInf true, _ => true
  | _, FInf true => false
  | FInf false, _ => false
  | _, FInf false => true
  | FFin p, FFin q => match Qcompare p q with Lt => true | _ => false end
  end.

Definition float_ge (x y : jsfloat) : bool :=
  match x, y with
  | FNaN, _ | _, FNaN => false
  | _, _ => negb (float_lt x y)
  end.

End JsString.

Import JsString.

(** ** The CSS colour parser ([parseColor]) *)

Module Color.

Definition HEX_SHORT_LENGTH : nat := 3.
Definition HEX_BLUE_START_INDEX : nat := 4.
Definition HEX_COMPONENT_LENGTH : nat := 2.
Definition HEX_RADIX : Z := 16.

(** The capture groups 1..4 of the functional-notation pattern; group 4 is
    [undefined] when the optional alpha part did not take part. *)
Record rgbMatch : Type := {
  group1 : string;
  group2 : string;
  group3 : string;
  group4 : option string
}.

Definition bind {A B : Type} (o : option A) (k : A -> option B) : option B :=
  match o with Some x => k x | None => None end.

Notation "x <- e ;; k" := (bind e (fun x => k))
  (at level 61, e at next level, right associativity).
Notation "' p <- e ;; k" := (bind e (fun x => match x with p => k end))
  (at level 61, p pattern, e at next level, right associativity).

Definition expect (c : ascii) (s : string) : option string :=
  match s with
  | String d t => if Ascii.eqb c d then Some t else None
  | EmptyString => None
  end.

(** [\s*] *)
Definition skipSpaces (s : string) : string := dropWhile isWhiteSpace s.

(** [(\d+)]: the run and what follows it. *)
Definition digitRun (s : string) : option (string * string) :=
  let d := takeWhile isDecimalDigit s in
  if isEmpty d then None else Some (d, dropWhile isDecimalDigit s).

Definition isAlphaChar (c : ascii) : bool :=
  isDecimalDigit c || Ascii.eqb c ".".

(** [([\d.]+)] *)
Definition alphaRun (s : string) : option (string * string) :=
  let d := takeWhile isAlphaChar s in
  if isEmpty d then None else Some (d, dropWhile isAlphaChar s).

(** One attempt, at the head of [s], of the pattern (written here with
    blanks between its parts)
    [rgba? \( \s* (\d+) \s* , \s* (\d+) \s* , \s* (\d+) \s*
     (?: , \s* ([\d.]+) \s* )? \)].
    Every quantifier of the pattern is followed by a character that the
    quantified class excludes, so the greedy choice is the only one that
    can succeed and no backtracking is needed. *)
Definition matchRgbAt (s : string) : option rgbMatch :=
  s <- expect "r" s ;;
  s <- expect "g" s ;;
  s <- expect "b" s ;;
  let s := match s with String "a" u => u | _ => s end in
  s <- expect "(" s ;;
  '(c1, s) <- digitRun (skipSpaces s) ;;
  s <- expect "," (skipSpaces s) ;;
  '(c2, s) <- digitRun (skipSpaces s) ;;
  s <- expect "," (skipSpaces s) ;;
  '(c3, s) <- digitRun (skipSpaces s) ;;
  let s := skipSpaces s in
  match s with
  | String "," u =>
      '(c4, u) <- alphaRun (skipSpaces u) ;;
      _ <- expect ")" (skipSpaces u) ;;
      Some {| group1 := c1; group2 := c2; group3 := c3; group4 := Some c4 |}
  | _ =>
      _ <- expect ")" s ;;
      Some {| group1 := c1; group2 := c2; group3 := c3; group4 := None |}
  end.

(** [color.match(...)] with that pattern: the pattern is not anchored,
    the first start index that matches wins. *)
Fixpoint matchRgb (s : string) : option rgbMatch :=
  match matchRgbAt s with
  | Some m => Some m
  | None =>
      match s with
      | String _ t => matchRgb t
      | EmptyString => None
      end
  end.

(** [color.match(/^#([0-9a-f]{3}|[0-9a-f]{6})$/i)]: group 1. *)
Definition matchHex (s : string) : option string :=
  match s with
  | String "#" h =>
      if JsString.forallb isHexDigit h
         && (Nat.eqb (String.length h) 3 || Nat.eqb (String.length h) 6)
      then Some h else None
  | _ => None
  end.

(** Each character of the short form is written twice. *)
Fixpoint doubleChars (s : string) : string :=
  match s with
  | String c t => String c (String c (doubleChars t))
  | EmptyString => EmptyString
  end.

(** The object literal [{r, g, b, a}].  [r], [g], [b] are results of
    [parseInt] ([None] is [NaN]). *)
Record RGBAColor : Type := {
  r : option Z;
  g : option Z;
  b : option Z;
  a : jsfloat
}.

(** What [colorMap[key]] finds on [Object.prototype] when [key] is not an
    own property of the literal. *)
Inductive inheritedValue : Type :=
| ObjectConstructor   (** [colorMap["constructor"]]: the function [Object] *)
| ObjectPrototype.    (** [colorMap["__proto__"]]: [Object.prototype] *)

(** The values [parseColor] can return. *)
Inductive parsed : Type :=
| Null
| Rgba (c : RGBAColor)
| Inherited (v : inheritedValue).

Definition one : jsfloat := FFin 1.

Definition mkColor (r g b : Z) : parsed :=
  Rgba {| r := Some r; g := Some g; b := Some b; a := one |}.

(** [colorMap[key]]; [None] is [undefined].  The five own properties of
    the literal, then the properties with an all-lower-case name that an
    object literal inherits from [Object.prototype]. *)
Definition colorMap (key : string) : option parsed :=
  if String.eqb key "white" then Some (mkColor 255 255 255)
  else if String.eqb key "black" then Some (mkColor 0 0 0)
  else if String.eqb key "red" then Some (mkColor 255 0 0)
  else if String.eqb key "green" then Some (mkColor 0 128 0)
  else if String.eqb key "blue" then Some (mkColor 0 0 255)
  else if String.eqb key "constructor" then Some (Inherited ObjectConstructor)
  else if String.eqb key "__proto__" then Some (Inherited ObjectPrototype)
  else None.

Definition parseColor (color : string) : parsed :=
  if isEmpty color || String.eqb color "transparent" then Null
  else
    match matchRgb color with
    | Some rgbMatch =>
        Rgba {| r := parseInt (group1 rgbMatch) None;
                g := parseInt (group2 rgbMatch) None;
                b := parseInt (group3 rgbMatch) None;
                a := match group4 rgbMatch with
                     | Some t => if isEmpty t then one else parseFloat t
                     | None => one
                     end |}
    | None =>
        match matchHex color with
        | Some hex =>
            let hex :=
              if Nat.eqb (String.length hex) HEX_SHORT_LENGTH
              then doubleChars hex else hex in
            Rgba {| r := parseInt (substring 0 HEX_COMPONENT_LENGTH hex)
                                  (Some HEX_RADIX);
                    g := parseInt (substring HEX_COMPONENT_LENGTH
                                             HEX_COMPONENT_LENGTH hex)
                                  (Some HEX_RADIX);
                    b := parseInt (substring HEX_BLUE_START_INDEX
                                             HEX_COMPONENT_LENGTH hex)
                                  (Some HEX_RADIX);
                    a := one |}
        | None =>
            match colorMap (toLowerCase color) with
            | Some v => v
            | None => Null
            end
        end
    end.

End Color.

Import Color.

(** ** Relative luminance and contrast ratio *)

Module Contrast.

(** The numbers of the luminance computation: a real, or [NaN]. *)
Inductive number : Type :=
| NaN
| Num (x : R).

Definition RGB_MAX_VALUE : R := 255.
Definition SRGB_THRESHOLD : R := 0.03928.
Definition SRGB_LINEAR_DIVISOR : R := 12.92.
Definition SRGB_OFFSET : R := 0.055.
Definition SRGB_GAMMA_DIVISOR : R := 1.055.
Definition SRGB_GAMMA_EXPONENT : R := 2.4.
Definition LUMINANCE_RED_COEFFICIENT : R := 0.2126.
Definition LUMINANCE_GREEN_COEFFICIENT : R := 0.7152.
Definition LUMINANCE_BLUE_COEFFICIENT : R := 0.0722.
Definition CONTRAST_OFFSET : R := 0.05.
Definition CONTRAST_RATIO_NORMAL_TEXT : R := 4.5.
Definition CONTRAST_RATIO_LARGE_TEXT : R := 3.

Definition lift2 (f : R -> R -> R) (x y : number) : number :=
  match x, y with
  | Num u, Num v => Num (f u v)
  | _, _ => NaN
  end.

Definition add : number -> number -> number := lift2 Rplus.
Definition mul : number -> number -> number := lift2 Rmult.
Definition div : number -> number -> number := lift2 Rdiv.
(** [Math.max], [Math.min]: [NaN] as soon as one argument is. *)
Definition max : number -> number -> number := lift2 Rmax.
Definition min : number -> number -> number := lift2 Rmin.

(** [x < y], false when a side is [NaN]. *)
Definition lt (x y : number) : bool :=
  match x, y with
  | Num u, Num v => if Rlt_dec u v then true else false
  | _, _ => false
  end.

(** [Math.pow(x, y)] is [Rpower x y] for a positive base, the only case in
    which [getRGBLuminance] reaches it: there [val > 0.03928]. *)
Definition getRGBLuminance (colorValue : number) : number :=
  match colorValue with
  | NaN => NaN
  | Num c =>
      let val := (c / RGB_MAX_VALUE)%R in
      Num (if Rle_dec val SRGB_THRESHOLD
           then (val / SRGB_LINEAR_DIVISOR)%R
           else Rpower ((val + SRGB_OFFSET) / SRGB_GAMMA_DIVISOR)
                       SRGB_GAMMA_EXPONENT)
  end.

Definition getRelativeLuminance (r g b : number) : number :=
  let rLum := getRGBLuminance r in
  let gLum := getRGBLuminance g in
  let bLum := getRGBLuminance b in
  add (add (mul (Num LUMINANCE_RED_COEFFICIENT) rLum)
           (mul (Num LUMINANCE_GREEN_COEFFICIENT) gLum))
      (mul (Num LUMINANCE_BLUE_COEFFICIENT) bLum).

Definition ofInt (v : option Z) : number :=
  match v with
  | Some z => Num (IZR z)
  | None => NaN
  end.

(** Reading [.r], [.g] or [.b] of a value returned by [parseColor] and
    using it in arithmetic: an inherited value has no such property
    ([undefined], hence [NaN]).  [Null] is never read: the caller returns
    before. *)
Definition channel (f : RGBAColor -> option Z) (p : parsed) : number :=
  match p with
  | Rgba c => ofInt (f c)
  | Inherited _ => NaN
  | Null => NaN
  end.

(** [!v] for a value returned by [parseColor]: only [null] is falsy. *)
Definition falsy (p : parsed) : bool :=
  match p with Null => true | _ => false end.

Definition calculateContrastRatio (fgColor bgColor : string) : number :=
  let fg := parseColor fgColor in
  let bg := parseColor bgColor in
  if falsy fg || falsy bg then Num 0
  else
    let fgLum := getRelativeLuminance (channel r fg) (channel g fg) (channel b fg) in
    let bgLum := getRelativeLuminance (channel r bg) (channel g bg) (channel b bg) in
    let lighter := max fgLum bgLum in
    let darker := min fgLum bgLum in
    div (add lighter (Num CONTRAST_OFFSET)) (add darker (Num CONTRAST_OFFSET)).

Definition LARGE_TEXT_MIN_SIZE : jsfloat := FFin (24 # 1).
Definition LARGE_TEXT_MIN_SIZE_BOLD : jsfloat := FFin (1866 # 100).
Definition BOLD_FONT_WEIGHT_THRESHOLD : Z := 700.

Definition isLargeText (fontSize : jsfloat) (fontWeight : string) : bool :=
  let isBold :=
    String.eqb fontWeight "bold"
    || match parseInt fontWeight None with
       | Some w => BOLD_FONT_WEIGHT_THRESHOLD <=? w
       | None => false
       end in
  float_ge fontSize LARGE_TEXT_MIN_SIZE
  || (float_ge fontSize LARGE_TEXT_MIN_SIZE_BOLD && isBold).

End Contrast.

Import Contrast.

(** ** Issues, category results and the audit report *)

Module Report.

(** The three values of [severity]: the source writes them in French,
    "elevee" (high), "moyenne" (medium), "faible" (low), with accents. *)
Inductive Severity : Type := elevee | moyenne | faible.

(** The [element] label of an issue. *)
Inductive ElementLabel : Type :=
| Structure                            (** ["Structure"] *)
| HTML                                 (** ["HTML"] *)
| Bare (tagName : string)              (** the tag name alone *)
| Numbered (prefix : string) (n : Z).  (** prefix, a blank, a number *)

(** The [issue] message of an issue: one constructor per message template
    of the source, with the values the template interpolates. *)
Inductive IssueText : Type :=
| Texte_alternatif_manquant
| SVG_inline_sans_description
| Lien_sans_texte_descriptif
| Texte_de_lien_non_descriptif
| Aucun_titre_H1_trouve
| Plusieurs_titres_H1 (h1Count : Z)
| Saut_de_niveau_de_titre (previousLevel level : option Z)
| Titre_vide
| Champ_de_formulaire_sans_etiquette
| Contraste_insuffisant (ratio : number) (minimumRatio : R)
| Attribut_lang_manquant
| Aucun_element_main
| Aucun_element_nav
| Bouton_sans_texte_descriptif.

(** The category-specific properties of an issue. *)
Inductive Details : Type :=
| NoDetails
| Src (src : string)
| Href (href : string)
| Text (text : string)
| InputType (type : string)
| ContrastDetails (ratio : number) (required : R)
                  (fgColor bgColor : string) (fontSize : jsfloat).

(** An issue.  [navId] is the number at the end of the navigation
    identifier ([imageId], [svgId], [linkId], [headingId], [formId],
    [buttonId], [contrastId]); the page-level issues have neither
    identifier nor snippet.  The [explanation] text is fixed by the
    message and is left out. *)
Record Issue : Type := {
  element : ElementLabel;
  issue : IssueText;
  severity : Severity;
  details : Details;
  navId : option Z;
  htmlSnippet : option string
}.

(** The result of a detector.  The [disclaimer] text that [checkContrast]
    adds to its result is constant and is left out. *)
Record CategoryResult : Type := {
  total : Z;
  issues : list Issue;
  passed : Z
}.

Definition len {A : Type} (l : list A) : Z := Z.of_nat (List.length l).

(** The object literal every detector returns:
    [{ total: n, issues: issues, passed: n - issues.length }]. *)
Definition result (n : Z) (issues : list Issue) : CategoryResult :=
  {| total := n; issues := issues; passed := n - len issues |}.

Record AuditReport : Type := {
  images : CategoryResult;
  svg : CategoryResult;
  links : CategoryResult;
  headings : CategoryResult;
  forms : CategoryResult;
  contrast : CategoryResult;
  colorblind : CategoryResult;
  lang : CategoryResult;
  landmarks : CategoryResult;
  buttons : CategoryResult
}.

(** The category results of a report, in the order of the literal. *)
Definition categories (rep : AuditReport) : list CategoryResult :=
  [images rep; svg rep; links rep; headings rep; forms rep; contrast rep;
   colorblind rep; lang rep; landmarks rep; buttons rep].

Inductive JsError : Type := TypeError.

(** The outcome of a call: a value, or an exception that leaves it. *)
Inductive completion (A : Type) : Type :=
| Normal (v : A)
| Throw (e : JsError).

Arguments Normal {A} v.
Arguments Throw {A} e.

End Report.

Import Report.

(** ** The document as the detectors read it *)

Module Dom.

(** The result of [getAttribute]: [None] is [null]. *)
Definition attribute : Type := option string.

(** Truthiness of a string or [null]: [null] and the empty string are
    falsy. *)
Definition truthy (v : attribute) : bool :=
  match v with
  | Some t => negb (isEmpty t)
  | None => false
  end.

(** An [img]: the [alt] and [src] IDL attributes (the empty string when
    the content attribute is absent). *)
Record Img : Type := {
  img_alt : string;
  img_src : string;
  img_snippet : string
}.

(** An [svg]: [title] tells whether [svg.querySelector("title")] finds an
    element. *)
Record Svg : Type := {
  svg_role : attribute;
  svg_aria_label : attribute;
  svg_title : bool;
  svg_aria_hidden : attribute;
  svg_snippet : string
}.

#[local] Set Warnings "-register-all".

(** A node below a link, as the tree walker of [extractLinkText] sees
    it. *)
Inductive Node : Type :=
| TextNode (textContent : string)
| ElementNode (tagName localName : string) (classList : list string)
              (childNodes : list Node).

(** An [a]: [link_closest_svg] and [link_closest_img] tell whether
    [link.closest("svg")], [link.closest("img")] find an element;
    [link_image_with_alt] whether the query of the link for an [img] with
    a non-empty [alt] attribute does; [link_svg] is the first [svg] below
    the link, if any. *)
Record Link : Type := {
  link_aria_label : attribute;
  link_classList : list string;
  link_closest_svg : bool;
  link_closest_img : bool;
  link_childNodes : list Node;
  link_image_with_alt : bool;
  link_svg : option Svg;
  link_href : string;
  link_snippet : string
}.

(** The tag of an element matched by ["h1, h2, h3, h4, h5, h6"]. *)
Inductive HeadingTag : Type := H1 | H2 | H3 | H4 | H5 | H6.

Record Heading : Type := {
  heading_tag : HeadingTag;
  heading_textContent : string;
  heading_snippet : string
}.

(** A form control: [input_label_for] tells whether
    [document.querySelector] finds an element for the selector of the
    label, into which the detector writes the control's [id] between
    quotation marks, without escaping it; [input_closest_label] whether
    the control is inside a [label].  For an [id] without quotation mark,
    backslash or line break the selector finds the first [label] whose
    [for] attribute is the [id]; an [id] that holds one of these
    characters can select other elements or make the call throw a
    [SyntaxError], which the views do not represent. *)
Record Input : Type := {
  input_id : string;
  input_label_for : bool;
  input_closest_label : bool;
  input_aria_label : attribute;
  input_aria_labelledby : attribute;
  input_tagName : string;
  input_type : string;
  input_snippet : string
}.

Record Button : Type := {
  button_textContent : string;
  button_aria_label : attribute;
  button_snippet : string
}.

(** A direct child node, for [hasDirectTextContent]: its [nodeType] and
    [textContent]. *)
Record ChildNode : Type := {
  nodeType : Z;
  child_textContent : string
}.

(** An element matched by the selector of [checkContrast], with the
    properties of its computed style that the detector reads. *)
Record TextElement : Type := {
  el_tagName : string;
  el_textContent : string;
  el_childNodes : list ChildNode;
  display : string;
  visibility : string;
  opacity : string;
  color : string;
  backgroundColor : string;
  fontSize : string;
  fontWeight : string;
  el_snippet : string
}.

(** The root element found by [document.querySelector("html")]:
    the [lang] content attribute. *)
Record Html : Type := {
  html_lang : attribute
}.

(** The document: for each detector, the elements its query returns, in
    document order.  [query_main] tells whether the document has a [main]
    element or an element of role main, [query_nav] whether it has a [nav]
    element or an element of role navigation. *)
Record Document : Type := {
  query_img : list Img;
  query_svg : list Svg;
  query_a : list Link;
  query_headings : list Heading;
  query_inputs : list Input;
  query_text : list TextElement;
  query_html : option Html;
  query_main : bool;
  query_nav : bool;
  query_button : list Button
}.

End Dom.

Import Dom.

(** ** The rule detectors *)

Module Detectors.

Definition TEXT_NODE_TYPE : Z := 3.
Definition MAX_CONTRAST_ELEMENTS : nat := 500.

(** *** Images *)

(** The condition under which an image is flagged. *)
Definition missingAlt (img : Img) : bool :=
  isEmpty (img_alt img) || isEmpty (trim (img_alt img)).

(** The issue pushed for a flagged image. *)
Definition imageIssue (img : Img) (index : Z) : Issue :=
  {| element := Numbered "Image" (index + 1);
     issue := Texte_alternatif_manquant;
     severity := elevee;
     details := Src (img_src img);
     navId := Some index;
     htmlSnippet := Some (img_snippet img) |}.

Fixpoint checkImages_forEach (images : list Img) (index : Z) : list Issue :=
  match images with
  | [] => []
  | img :: rest =>
      (if missingAlt img then [imageIssue img index] else [])
      ++ checkImages_forEach rest (index + 1)
  end.

Definition checkImages (document : Document) : CategoryResult :=
  let images := query_img document in
  let issues := checkImages_forEach images 0 in
  result (len images) issues.

(** *** Inline graphics *)

Definition attributeIs (v : attribute) (expected : string) : bool :=
  match v with
  | Some t => String.eqb t expected
  | None => false
  end.

(** The attribute is present and its trimmed value is not empty. *)
Definition nonBlank (v : attribute) : bool :=
  match v with
  | Some t => negb (isEmpty (trim t))
  | None => false
  end.

Definition isSVGAccessible (svg : Svg) : bool :=
  let hasRole := attributeIs (svg_role svg) "img" in
  let hasAriaLabel := nonBlank (svg_aria_label svg) in
  let hasTitle := svg_title svg in
  let isHidden := attributeIs (svg_aria_hidden svg) "true" in
  hasRole || hasAriaLabel || hasTitle || isHidden.

Definition createSVGIssue (svg : Svg) (index : Z) : Issue :=
  {| element := Numbered "SVG" (index + 1);
     issue := SVG_inline_sans_description;
     severity := elevee;
     details := NoDetails;
     navId := Some index;
     htmlSnippet := Some (svg_snippet svg) |}.

Fixpoint checkSVG_forEach (svgs : list Svg) (index : Z) : list Issue :=
  match svgs with
  | [] => []
  | svg :: rest =>
      (if negb (isSVGAccessible svg) then [createSVGIssue svg index] else [])
      ++ checkSVG_forEach rest (index + 1)
  end.

Definition checkSVG (document : Document) : CategoryResult :=
  let svgs := query_svg document in
  let issues := checkSVG_forEach svgs 0 in
  result (len svgs) issues.

(** *** Links *)

Definition contains (l : list string) (x : string) : bool :=
  existsb (String.eqb x) l.

(** The filter of the tree walker, for a text node whose parent element
    has the given tag name and class list; [closest] tells whether
    [parent.closest("svg")] or [parent.closest("img")] finds an element. *)
Definition rejectsText (tagName : string) (closest : bool)
           (classList : list string) : bool :=
  String.eqb tagName "SVG"
  || String.eqb tagName "IMG"
  || closest
  || contains classList "accessibility-badge"
  || contains classList "accessibility-badge-link"
  || contains classList "accessibility-badge-svg".

(** The text nodes below [n] that the walker accepts, concatenated in
    document order.  [closest] and [reject] describe the parent of [n]. *)
Fixpoint acceptedText (closest reject : bool) (n : Node) : string :=
  match n with
  | TextNode t => if reject then EmptyString else t
  | ElementNode tagName localName classList childNodes =>
      let closest' :=
        closest || String.eqb localName "svg" || String.eqb localName "img" in
      let reject' := rejectsText tagName closest' classList in
      String.concat EmptyString (map (acceptedText closest' reject') childNodes)
  end.

Definition extractLinkText (link : Link) : string :=
  let closest := link_closest_svg link || link_closest_img link in
  let reject := rejectsText "A" closest (link_classList link) in
  trim (String.concat EmptyString
          (map (acceptedText closest reject) (link_childNodes link))).

Definition checkLinkHasAccessibleSVG (link : Link) : bool :=
  match link_svg link with
  | None => false
  | Some svgInLink =>
      let hasRole := attributeIs (svg_role svgInLink) "img" in
      let hasSvgAriaLabel := nonBlank (svg_aria_label svgInLink) in
      let hasTitle := svg_title svgInLink in
      hasRole || hasSvgAriaLabel || hasTitle
  end.

Definition checkLinkHasAccessibleDescription (link : Link) : bool :=
  let ariaLabel := link_aria_label link in
  let hasImageWithAlt := link_image_with_alt link in
  let hasSVGAccessible := checkLinkHasAccessibleSVG link in
  let text := extractLinkText link in
  negb (isEmpty text) || truthy ariaLabel || hasImageWithAlt || hasSVGAccessible.

Definition isNonDescriptiveText (text : string) : bool :=
  let nonDescriptiveTexts :=
    ["cliquez ici"; "en savoir plus"; "voir"; "lire la suite"] in
  contains nonDescriptiveTexts (toLowerCase text).

Definition createLinkIssue (link : Link) (index : Z) (issue : IssueText)
           (severity : Severity) (details : Details) : Issue :=
  {| element := Numbered "Lien" (index + 1);
     issue := issue;
     severity := severity;
     details := details;
     navId := Some index;
     htmlSnippet := Some (link_snippet link) |}.

Definition analyzeLinkAccessibility (link : Link) (index : Z) : option Issue :=
  let ariaLabel := link_aria_label link in
  let hasAccessibleDescription := checkLinkHasAccessibleDescription link in
  let text := extractLinkText link in
  if negb hasAccessibleDescription then
    Some (createLinkIssue link index Lien_sans_texte_descriptif elevee
                          (Href (link_href link)))
  else if isNonDescriptiveText text && negb (truthy ariaLabel) then
    Some (createLinkIssue link index Texte_de_lien_non_descriptif moyenne
                          (Text text))
  else None.

Fixpoint checkLinks_forEach (links : list Link) (index : Z) : list Issue :=
  match links with
  | [] => []
  | link :: rest =>
      match analyzeLinkAccessibility link index with
      | Some linkIssue => [linkIssue]
      | None => []
      end ++ checkLinks_forEach rest (index + 1)
  end.

Definition checkLinks (document : Document) : CategoryResult :=
  let links := query_a document in
  let issues := checkLinks_forEach links 0 in
  result (len links) issues.

(** *** Headings *)

Definition tagName (t : HeadingTag) : string :=
  match t with
  | H1 => "H1" | H2 => "H2" | H3 => "H3"
  | H4 => "H4" | H5 => "H5" | H6 => "H6"
  end.

(** [s.slice(1)] *)
Definition slice1 (s : string) : string :=
  match s with
  | String _ t => t
  | EmptyString => EmptyString
  end.

(** [previousLevel > 0 && level - previousLevel > 1], false when a level
    is [NaN]. *)
Definition isSkip (previousLevel level : option Z) : bool :=
  match previousLevel, level with
  | Some p, Some l => (0 <? p) && (1 <? l - p)
  | _, _ => false
  end.

Definition isH1 (heading : Heading) : bool :=
  match heading_tag heading with H1 => true | _ => false end.

(** The page-level part of [checkHeadings]. *)
Definition structureIssues (h1Count : Z) : list Issue :=
  if h1Count =? 0 then
    [ {| element := Structure;
         issue := Aucun_titre_H1_trouve;
         severity := elevee;
         details := NoDetails;
         navId := None;
         htmlSnippet := None |} ]
  else if 1 <? h1Count then
    [ {| element := Structure;
         issue := Plusieurs_titres_H1 h1Count;
         severity := moyenne;
         details := NoDetails;
         navId := None;
         htmlSnippet := None |} ]
  else [].

Definition skipIssue (heading : Heading) (previousLevel level : option Z)
           (issueIndex : Z) : Issue :=
  {| element := Bare (tagName (heading_tag heading));
     issue := Saut_de_niveau_de_titre previousLevel level;
     severity := moyenne;
     details := Text (trim (heading_textContent heading));
     navId := Some issueIndex;
     htmlSnippet := Some (heading_snippet heading) |}.

Definition emptyIssue (heading : Heading) (index issueIndex : Z) : Issue :=
  {| element := Numbered (tagName (heading_tag heading)) (index + 1);
     issue := Titre_vide;
     severity := elevee;
     details := NoDetails;
     navId := Some issueIndex;
     htmlSnippet := Some (heading_snippet heading) |}.

(** The loop over the headings, with its three variables. *)
Fixpoint checkHeadings_forEach (headings : list Heading) (index : Z)
         (previousLevel : option Z) (issueIndex : Z) : list Issue :=
  match headings with
  | [] => []
  | heading :: rest =>
      let level := parseInt (slice1 (tagName (heading_tag heading))) None in
      let skip := isSkip previousLevel level in
      let issueIndex1 := if skip then issueIndex + 1 else issueIndex in
      let empty := isEmpty (trim (heading_textContent heading)) in
      let issueIndex2 := if empty then issueIndex1 + 1 else issueIndex1 in
      (if skip then [skipIssue heading previousLevel level issueIndex] else [])
      ++ (if empty then [emptyIssue heading index issueIndex1] else [])
      ++ checkHeadings_forEach rest (index + 1) level issueIndex2
  end.

Definition checkHeadings (document : Document) : CategoryResult :=
  let headings := query_headings document in
  let h1Count := len (filter isH1 headings) in
  let issues :=
    structureIssues h1Count ++ checkHeadings_forEach headings 0 (Some 0) 0 in
  result (len headings) issues.

(** *** Form controls *)

(** The condition under which a form control is flagged. *)
Definition missingLabel (input : Input) : bool :=
  let id := input_id input in
  let label :=
    if negb (isEmpty id) then input_label_for input
    else input_closest_label input in
  let ariaLabel := input_aria_label input in
  let ariaLabelledby := input_aria_labelledby input in
  negb label && negb (truthy ariaLabel) && negb (truthy ariaLabelledby).

(** The issue pushed for a flagged form control. *)
Definition formIssue (input : Input) (index issueIndex : Z) : Issue :=
  {| element := Numbered (input_tagName input) (index + 1);
     issue := Champ_de_formulaire_sans_etiquette;
     severity := elevee;
     details := InputType (if isEmpty (input_type input) then "text"
                           else input_type input);
     navId := Some issueIndex;
     htmlSnippet := Some (input_snippet input) |}.

Fixpoint checkForms_forEach (inputs : list Input) (index issueIndex : Z)
  : list Issue :=
  match inputs with
  | [] => []
  | input :: rest =>
      if missingLabel input then
        formIssue input index issueIndex
        :: checkForms_forEach rest (index + 1) (issueIndex + 1)
      else checkForms_forEach rest (index + 1) issueIndex
  end.

Definition checkForms (document : Document) : CategoryResult :=
  let inputs := query_inputs document in
  let issues := checkForms_forEach inputs 0 0 in
  result (len inputs) issues.

(** *** Contrast *)

Definition hasDirectTextContent (element : TextElement) : bool :=
  existsb (fun node =>
             (nodeType node =? TEXT_NODE_TYPE)
             && negb (isEmpty (trim (child_textContent node))))
          (el_childNodes element).

Definition isInteractive (el : TextElement) : bool :=
  contains ["BUTTON"; "A"; "LABEL"] (el_tagName el).

Definition minimumRatio (largeText : bool) : R :=
  if largeText then CONTRAST_RATIO_LARGE_TEXT else CONTRAST_RATIO_NORMAL_TEXT.

(** The test of [processContrastElement] on the element's ratio. *)
Definition belowMinimum (ratio : number) (minimum : R) : bool :=
  lt (Num 0) ratio && lt ratio (Num minimum).

(** [bg && bg.a < 1]: an inherited value has no [a] ([undefined < 1] is
    false). *)
Definition semiTransparent (bg : parsed) : bool :=
  match bg with
  | Rgba c => float_lt (a c) Color.one
  | _ => false
  end.

Definition processContrastElement (el : TextElement) (issueIndex : Z)
  : option Issue :=
  let fgColor := color el in
  let bgColor := backgroundColor el in
  if isEmpty bgColor || String.eqb bgColor "transparent"
     || String.eqb bgColor "rgba(0, 0, 0, 0)" then None
  else
    let bg := parseColor bgColor in
    if semiTransparent bg then None
    else
      let ratio := calculateContrastRatio fgColor bgColor in
      let fontSize := parseFloat (fontSize el) in
      let fontWeight := fontWeight el in
      let largeText := isLargeText fontSize fontWeight in
      let minimumRatio := minimumRatio largeText in
      if belowMinimum ratio minimumRatio then
        Some {| element := Numbered (toLowerCase (el_tagName el)) (issueIndex + 1);
                issue := Contraste_insuffisant ratio minimumRatio;
                severity := elevee;
                details := ContrastDetails ratio minimumRatio fgColor bgColor
                                           fontSize;
                navId := Some issueIndex;
                htmlSnippet := Some (el_snippet el) |}
      else None.

(** The filter applied to the elements matched by the selector. *)
Definition isCandidate (el : TextElement) : bool :=
  if String.eqb (display el) "none"
     || String.eqb (visibility el) "hidden"
     || String.eqb (opacity el) "0" then false
  else if isInteractive el then negb (isEmpty (trim (el_textContent el)))
  else hasDirectTextContent el.

Fixpoint checkContrast_forEach (textElements : list TextElement)
         (issueIndex : Z) : list Issue :=
  match textElements with
  | [] => []
  | el :: rest =>
      match processContrastElement el issueIndex with
      | Some issue => issue :: checkContrast_forEach rest (issueIndex + 1)
      | None => checkContrast_forEach rest issueIndex
      end
  end.

(** The elements the detector evaluates: interactive ones first, at most
    [MAX_CONTRAST_ELEMENTS]. *)
Definition textElements (document : Document) : list TextElement :=
  let allElements := filter isCandidate (query_text document) in
  let interactiveElements := filter isInteractive allElements in
  let otherElements := filter (fun el => negb (isInteractive el)) allElements in
  firstn MAX_CONTRAST_ELEMENTS (interactiveElements ++ otherElements).

Definition checkContrast (document : Document) : CategoryResult :=
  let textElements := textElements document in
  let issues := checkContrast_forEach textElements 0 in
  result (len textElements) issues.

(** *** Language *)

(** [htmlElement.hasAttribute("lang")] on the result of
    [document.querySelector("html")]: a [TypeError] when that is [null]. *)
Definition checkLanguage (document : Document) : completion CategoryResult :=
  match query_html document with
  | None => Throw TypeError
  | Some htmlElement =>
      let hasLang :=
        match html_lang htmlElement with Some _ => true | None => false end in
      let issues :=
        if negb hasLang then
          [ {| element := HTML;
               issue := Attribut_lang_manquant;
               severity := elevee;
               details := NoDetails;
               navId := None;
               htmlSnippet := None |} ]
        else [] in
      Normal (result 1 issues)
  end.

(** *** Landmarks *)

Definition checkLandmarks (document : Document) : CategoryResult :=
  let hasMain := query_main document in
  let hasNav := query_nav document in
  let issues :=
    (if negb hasMain then
       [ {| element := Structure;
            issue := Aucun_element_main;
            severity := moyenne;
            details := NoDetails;
            navId := None;
            htmlSnippet := None |} ]
     else [])
    ++ (if negb hasNav then
          [ {| element := Structure;
               issue := Aucun_element_nav;
               severity := faible;
               details := NoDetails;
               navId := None;
               htmlSnippet := None |} ]
        else []) in
  result 2 issues.

(** *** Buttons *)

(** The condition under which a button is flagged. *)
Definition missingText (button : Button) : bool :=
  let text := trim (button_textContent button) in
  let ariaLabel := button_aria_label button in
  isEmpty text && negb (truthy ariaLabel).

(** The issue pushed for a flagged button. *)
Definition buttonIssue (button : Button) (index issueIndex : Z) : Issue :=
  {| element := Numbered "Bouton" (index + 1);
     issue := Bouton_sans_texte_descriptif;
     severity := elevee;
     details := NoDetails;
     navId := Some issueIndex;
     htmlSnippet := Some (button_snippet button) |}.

Fixpoint checkButtons_forEach (buttons : list Button) (index issueIndex : Z)
  : list Issue :=
  match buttons with
  | [] => []
  | button :: rest =>
      if missingText button then
        buttonIssue button index issueIndex
        :: checkButtons_forEach rest (index + 1) (issueIndex + 1)
      else checkButtons_forEach rest (index + 1) issueIndex
  end.

Definition checkButtons (document : Document) : CategoryResult :=
  let buttons := query_button document in
  let issues := checkButtons_forEach buttons 0 0 in
  result (len buttons) issues.

(** *** The audit *)

(** The properties of the literal are evaluated in order; the exception of
    [checkLanguage] leaves [auditAccessibility]. *)
Definition auditAccessibility (document : Document) : completion AuditReport :=
  let images := checkImages document in
  let svg := checkSVG document in
  let links := checkLinks document in
  let headings := checkHeadings document in
  let forms := checkForms document in
  let contrast := checkContrast document in
  let colorblind := {| total := 0; issues := []; passed := 0 |} in
  match checkLanguage document with
  | Throw e => Throw e
  | Normal lang =>
      let landmarks := checkLandmarks document in
      let buttons := checkButtons document in
      Normal {| images := images; svg := svg; links := links;
                headings := headings; forms := forms; contrast := contrast;
                colorblind := colorblind; lang := lang;
                landmarks := landmarks; buttons := buttons |}
  end.

End Detectors.

Import Detectors.

(** ** The live document: marking, badges and clearing *)

Module Live.

#[local] Set Warnings "-register-all".

(** The value of an attribute: text, or for [style] the declarations of
    the element's inline style, in order.  The inline style of an element
    is held as its declarations, each property under its own name, and
    is written out in the serialised form ([property: value;]); a
    [style] attribute given as text is not parsed, and the first write to
    the style of the element replaces it.  Shorthand properties are not
    expanded: clearing [border] clears the declaration of that name
    only. *)
Inductive AttrValue : Type :=
| Plain (value : string)
| Declarations (decls : list (string * string)).

(** The computed values the detectors read, as the style sheets and the
    page's own inline style give them.  The audit writes none of these
    properties but [position], whose inline declaration takes
    precedence over [sheet_position]. *)
Record Computed : Type := {
  sheet_display : string;
  sheet_visibility : string;
  sheet_opacity : string;
  sheet_color : string;
  sheet_backgroundColor : string;
  sheet_fontSize : string;
  sheet_fontWeight : string;
  sheet_position : string
}.

(** An element: [uid] is its identity (what a JavaScript reference to it
    holds on to), [attributes] its content attributes in order. *)
Record Element : Type := {
  uid : nat;
  svgNamespace : bool;
  localName : string;
  attributes : list (string * AttrValue);
  sheet : Computed
}.

Inductive Tree : Type :=
| Txt (data : string)
| El (e : Element) (children : list Tree).

(** The document: its child nodes, and the next unused identity. *)
Record Page : Type := {
  roots : list Tree;
  fresh : nat
}.

(** *** Reading the tree *)

Definition isElement (u : nat) (t : Tree) : bool :=
  match t with
  | El e _ => Nat.eqb (uid e) u
  | Txt _ => false
  end.

(** The element subtrees of [t], itself included, in document order. *)
Fixpoint elements (t : Tree) : list Tree :=
  match t with
  | Txt _ => []
  | El _ children => t :: flat_map elements children
  end.

Definition descendants (t : Tree) : list Tree :=
  match t with
  | Txt _ => []
  | El _ children => flat_map elements children
  end.

Definition allElements (p : Page) : list Tree := flat_map elements (roots p).

Definition lookup (u : nat) (p : Page) : option Tree :=
  List.find (isElement u) (allElements p).

(** [u] and its ancestors, nearest first; empty when [u] is not in [t]. *)
Fixpoint branch (u : nat) (t : Tree) : list Tree :=
  match t with
  | Txt _ => []
  | El e children =>
      if Nat.eqb (uid e) u then [t]
      else match flat_map (branch u) children with
           | [] => []
           | l => l ++ [t]
           end
  end.

Definition ancestorsOrSelf (u : nat) (p : Page) : list Tree :=
  flat_map (branch u) (roots p).

(** [node.textContent] *)
Fixpoint textContent (t : Tree) : string :=
  match t with
  | Txt data => data
  | El _ children => String.concat EmptyString (map textContent children)
  end.

Definition idOf (t : Tree) : nat :=
  match t with
  | El e _ => uid e
  | Txt _ => O
  end.

(** *** Attributes and inline style *)

Fixpoint assoc {A : Type} (name : string) (l : list (string * A)) : option A :=
  match l with
  | [] => None
  | (n, v) :: rest => if String.eqb n name then Some v else assoc name rest
  end.

(** Replace the value where the name is, or add the pair at the end. *)
Fixpoint assign {A : Type} (name : string) (v : A) (l : list (string * A))
  : list (string * A) :=
  match l with
  | [] => [(name, v)]
  | (n, w) :: rest =>
      if String.eqb n name then (n, v) :: rest
      else (n, w) :: assign name v rest
  end.

Definition unassign {A : Type} (name : string) (l : list (string * A))
  : list (string * A) :=
  filter (fun nv => negb (String.eqb (fst nv) name)) l.

(** The text of a declaration block. *)
Definition cssText (decls : list (string * string)) : string :=
  String.concat " " (map (fun d => fst d ++ ": " ++ snd d ++ ";")%string decls).

Definition attrText (v : AttrValue) : string :=
  match v with
  | Plain s => s
  | Declarations d => cssText d
  end.

Definition getAttribute (e : Element) (name : string) : attribute :=
  match assoc name (attributes e) with
  | Some v => Some (attrText v)
  | None => None
  end.

Definition withAttributes (e : Element) (l : list (string * AttrValue))
  : Element :=
  {| uid := uid e; svgNamespace := svgNamespace e; localName := localName e;
     attributes := l; sheet := sheet e |}.

Definition setAttributeOf (name value : string) (e : Element) : Element :=
  withAttributes e (assign name (Plain value) (attributes e)).

Definition removeAttributeOf (name : string) (e : Element) : Element :=
  withAttributes e (unassign name (attributes e)).

Definition inlineStyle (e : Element) : option (list (string * string)) :=
  match assoc "style" (attributes e) with
  | Some (Declarations d) => Some d
  | _ => None
  end.

(** [element.style[property] = value].  Setting the empty string removes
    the declaration; the [style] attribute is updated, and so stays, with
    an empty value, when its last declaration goes, but it is not created
    by the removal of a declaration that is not there. *)
Definition setStyleOf (property value : string) (e : Element) : Element :=
  match inlineStyle e with
  | Some d =>
      if isEmpty value then
        match assoc property d with
        | Some _ =>
            withAttributes e
              (assign "style" (Declarations (unassign property d))
                      (attributes e))
        | None => e
        end
      else
        withAttributes e
          (assign "style" (Declarations (assign property value d))
                  (attributes e))
  | None =>
      if isEmpty value then e
      else withAttributes e
             (assign "style" (Declarations [(property, value)]) (attributes e))
  end.

(** [getComputedStyle(element).position] *)
Definition computedPosition (e : Element) : string :=
  match inlineStyle e with
  | Some d =>
      match assoc "position" d with
      | Some v => v
      | None => sheet_position (sheet e)
      end
  | None => sheet_position (sheet e)
  end.

(** The tokens of a [class] attribute. *)
Fixpoint tokens (current : string) (s : string) : list string :=
  match s with
  | EmptyString => if isEmpty current then [] else [current]
  | String c rest =>
      if isWhiteSpace c then
        (if isEmpty current then [] else [current]) ++ tokens EmptyString rest
      else tokens (current ++ String c EmptyString)%string rest
  end.

Definition classList (e : Element) : list string :=
  match getAttribute e "class" with
  | Some v => tokens EmptyString v
  | None => []
  end.

Definition hasClass (name : string) (e : Element) : bool :=
  contains (classList e) name.

(** The selector that tests the [class] attribute for a substring. *)
Definition classHas (part : string) (e : Element) : bool :=
  match getAttribute e "class" with
  | Some v => match String.index 0 part v with Some _ => true | None => false end
  | None => false
  end.

Definition isTag (name : string) (e : Element) : bool :=
  String.eqb (localName e) name.

Definition attrIs (name value : string) (e : Element) : bool :=
  attributeIs (getAttribute e name) value.

Definition upperChar (c : ascii) : ascii :=
  let n := N_of_ascii c in
  if ((97 <=? n) && (n <=? 122))%N then ascii_of_N (n - 32) else c.

Fixpoint toUpperCase (s : string) : string :=
  match s with
  | String c t => String (upperChar c) (toUpperCase t)
  | EmptyString => EmptyString
  end.

(** [element.tagName]: upper case for an HTML element. *)
Definition tagNameOf (e : Element) : string :=
  if svgNamespace e then localName e else toUpperCase (localName e).

(** The first tree of the list whose element satisfies the selector. *)
Definition first (sel : Element -> bool) (l : list Tree) : option Tree :=
  List.find (fun t => match t with El e _ => sel e | Txt _ => false end) l.

Definition matching (sel : Element -> bool) (l : list Tree) : list Tree :=
  filter (fun t => match t with El e _ => sel e | Txt _ => false end) l.

(** *** Serialisation *)

Definition quote : string := String "034"%char EmptyString.

Fixpoint escape (inAttribute : bool) (s : string) : string :=
  match s with
  | EmptyString => EmptyString
  | String c rest =>
      let n := N_of_ascii c in
      (if (n =? 38)%N then "&amp;"
       else if (n =? 160)%N then "&nbsp;"
       else if inAttribute && (n =? 34)%N then "&quot;"
       else if negb inAttribute && (n =? 60)%N then "&lt;"
       else if negb inAttribute && (n =? 62)%N then "&gt;"
       else String c EmptyString)
      ++ escape inAttribute rest
  end%string.

Definition voidElements : list string :=
  ["area"; "base"; "br"; "col"; "embed"; "hr"; "img"; "input"; "link";
   "meta"; "source"; "track"; "wbr"].

Definition rawTextElements : list string :=
  ["style"; "script"; "xmp"; "iframe"; "noembed"; "noframes"; "plaintext"].

Definition serializeAttribute (nv : string * AttrValue) : string :=
  (" " ++ fst nv ++ "=" ++ quote ++ escape true (attrText (snd nv)) ++ quote)%string.

(** [element.outerHTML] *)
Fixpoint outerHTML (raw : bool) (t : Tree) : string :=
  match t with
  | Txt data => if raw then data else escape false data
  | El e children =>
      ("<" ++ localName e
           ++ String.concat EmptyString (map serializeAttribute (attributes e))
           ++ ">"
           ++ (if contains voidElements (localName e) then EmptyString
               else String.concat EmptyString
                      (map (outerHTML (contains rawTextElements (localName e)))
                           children)
                    ++ "</" ++ localName e ++ ">"))%string
  end.

(** *** The snippet of an element *)

Definition MAX_HTML_SNIPPET_LENGTH : nat := 500.

Definition isBadgeMarkup (t : Tree) : bool :=
  match t with
  | El e _ => classHas "accessibility-badge" e
  | Txt _ => false
  end.

(** The copy without the elements below it whose class names a badge. *)
Fixpoint withoutBadges (t : Tree) : Tree :=
  match t with
  | Txt _ => t
  | El e children =>
      El e (flat_map (fun c => if isBadgeMarkup c then []
                               else [withoutBadges c]) children)
  end.

Definition generateHTMLSnippet (element : Tree) : string :=
  match element with
  | Txt _ => EmptyString
  | El e children =>
      let clone :=
        removeAttributeOf "data-position-changed"
          (removeAttributeOf "data-accessibility-issue"
             (removeAttributeOf "data-accessibility-id" e)) in
      let clone :=
        setStyleOf "animation" EmptyString
          (setStyleOf "border" EmptyString
             (setStyleOf "box-shadow" EmptyString
                (setStyleOf "outline-offset" EmptyString
                   (setStyleOf "outline" EmptyString clone)))) in
      let html := outerHTML false (withoutBadges (El clone children)) in
      if Nat.ltb MAX_HTML_SNIPPET_LENGTH (String.length html)
      then (substring 0 MAX_HTML_SNIPPET_LENGTH html ++ "...")%string
      else html
  end.

(** *** What a detector reads of an element *)

Definition attr (t : Tree) (name : string) : attribute :=
  match t with
  | El e _ => getAttribute e name
  | Txt _ => None
  end.

(** An IDL attribute that reflects a content attribute: the empty string
    when the content attribute is absent. *)
Definition reflected (t : Tree) (name : string) : string :=
  match attr t name with
  | Some v => v
  | None => EmptyString
  end.

Definition exists_ (sel : Element -> bool) (l : list Tree) : bool :=
  match first sel l with Some _ => true | None => false end.

(** What [checkImages] reads of an image.  [img_src] is the text of the
    [src] attribute; the source records [img.src], the address that this
    text resolves to in the document. *)
Definition imgView (t : Tree) : Img :=
  {| img_alt := reflected t "alt";
     img_src := reflected t "src";
     img_snippet := generateHTMLSnippet t |}.

Definition svgView (t : Tree) : Svg :=
  {| svg_role := attr t "role";
     svg_aria_label := attr t "aria-label";
     svg_title := exists_ (isTag "title") (descendants t);
     svg_aria_hidden := attr t "aria-hidden";
     svg_snippet := generateHTMLSnippet t |}.

Fixpoint toNode (t : Tree) : Node :=
  match t with
  | Txt data => TextNode data
  | El e children =>
      ElementNode (tagNameOf e) (localName e) (classList e) (map toNode children)
  end.

Definition imageWithAlt (e : Element) : bool :=
  isTag "img" e && truthy (getAttribute e "alt").

(** What [checkLinks] reads of a link.  As for an image, [link_href] is
    the text of the [href] attribute, where the source records the
    address it resolves to. *)
Definition linkView (p : Page) (t : Tree) : Link :=
  let line := ancestorsOrSelf (idOf t) p in
  {| link_aria_label := attr t "aria-label";
     link_classList := match t with El e _ => classList e | Txt _ => [] end;
     link_closest_svg := exists_ (isTag "svg") line;
     link_closest_img := exists_ (isTag "img") line;
     link_childNodes := match t with
                        | El _ children => map toNode children
                        | Txt _ => []
                        end;
     link_image_with_alt := exists_ imageWithAlt (descendants t);
     link_svg := option_map svgView (first (isTag "svg") (descendants t));
     link_href := reflected t "href";
     link_snippet := generateHTMLSnippet t |}.

Definition headingTag (name : string) : option HeadingTag :=
  if String.eqb name "h1" then Some H1
  else if String.eqb name "h2" then Some H2
  else if String.eqb name "h3" then Some H3
  else if String.eqb name "h4" then Some H4
  else if String.eqb name "h5" then Some H5
  else if String.eqb name "h6" then Some H6
  else None.

Definition isHeading (e : Element) : bool :=
  match headingTag (localName e) with Some _ => true | None => false end.

Definition headingView (t : Tree) : Heading :=
  {| heading_tag := match t with
                    | El e _ => match headingTag (localName e) with
                                | Some tag => tag
                                | None => H1
                                end
                    | Txt _ => H1
                    end;
     heading_textContent := textContent t;
     heading_snippet := generateHTMLSnippet t |}.

(** The [type] IDL attribute of a form control. *)
Definition controlType (t : Tree) : string :=
  match t with
  | El e _ =>
      if isTag "select" e then
        match getAttribute e "multiple" with
        | Some _ => "select-multiple"
        | None => "select-one"
        end
      else if isTag "textarea" e then "textarea"
      else match getAttribute e "type" with
           | Some v => if isEmpty v then "text" else toLowerCase v
           | None => "text"
           end
  | Txt _ => EmptyString
  end.

(** What [checkForms] reads of a control.  The selector of the label is
    taken to select the [label] elements whose [for] attribute is the
    [id], which it does for an [id] that can be written as it is between
    quotation marks. *)
Definition inputView (p : Page) (t : Tree) : Input :=
  let id := reflected t "id" in
  {| input_id := id;
     input_label_for :=
       exists_ (fun e => isTag "label" e && attrIs "for" id e) (allElements p);
     input_closest_label := exists_ (isTag "label") (ancestorsOrSelf (idOf t) p);
     input_aria_label := attr t "aria-label";
     input_aria_labelledby := attr t "aria-labelledby";
     input_tagName := match t with El e _ => tagNameOf e | Txt _ => EmptyString end;
     input_type := controlType t;
     input_snippet := generateHTMLSnippet t |}.

Definition buttonView (t : Tree) : Button :=
  {| button_textContent := textContent t;
     button_aria_label := attr t "aria-label";
     button_snippet := generateHTMLSnippet t |}.

Definition childView (t : Tree) : ChildNode :=
  match t with
  | Txt data => {| nodeType := 3; child_textContent := data |}
  | El _ _ => {| nodeType := 1; child_textContent := textContent t |}
  end.

Definition textElementView (t : Tree) : TextElement :=
  match t with
  | El e children =>
      {| el_tagName := tagNameOf e;
         el_textContent := textContent t;
         el_childNodes := map childView children;
         display := sheet_display (sheet e);
         visibility := sheet_visibility (sheet e);
         opacity := sheet_opacity (sheet e);
         color := sheet_color (sheet e);
         backgroundColor := sheet_backgroundColor (sheet e);
         fontSize := sheet_fontSize (sheet e);
         fontWeight := sheet_fontWeight (sheet e);
         el_snippet := generateHTMLSnippet t |}
  | Txt data =>
      {| el_tagName := EmptyString; el_textContent := data;
         el_childNodes := []; display := EmptyString;
         visibility := EmptyString; opacity := EmptyString;
         color := EmptyString; backgroundColor := EmptyString;
         fontSize := EmptyString; fontWeight := EmptyString;
         el_snippet := EmptyString |}
  end.

Definition asciiLowerChar (c : ascii) : ascii :=
  let n := N_of_ascii c in
  if ((65 <=? n) && (n <=? 90))%N then ascii_of_N (n + 32) else c.

Fixpoint asciiLowerCase (s : string) : string :=
  match s with
  | String c t => String (asciiLowerChar c) (asciiLowerCase t)
  | EmptyString => EmptyString
  end.

(** The selector that tests the [type] attribute for a value: in an HTML
    document the value of [type] is compared without regard to the case
    of the ASCII letters. *)
Definition typeIs (value : string) (e : Element) : bool :=
  match getAttribute e "type" with
  | Some v => String.eqb (asciiLowerCase v) value
  | None => false
  end.

Definition formControl (e : Element) : bool :=
  (isTag "input" e
   && negb (typeIs "hidden" e)
   && negb (typeIs "submit" e)
   && negb (typeIs "button" e))
  || isTag "textarea" e
  || isTag "select" e.

Definition textSelector (e : Element) : bool :=
  contains ["p"; "h1"; "h2"; "h3"; "h4"; "h5"; "h6"; "a"; "button"; "span";
            "li"; "td"; "th"; "label"] (localName e).

Definition mainLandmark (e : Element) : bool :=
  isTag "main" e || attrIs "role" "main" e.

Definition navLandmark (e : Element) : bool :=
  isTag "nav" e || attrIs "role" "navigation" e.

(** The document as the detectors would read it now. *)
Definition snapshot (p : Page) : Document :=
  let all := allElements p in
  {| query_img := map imgView (matching (isTag "img") all);
     query_svg := map svgView (matching (isTag "svg") all);
     query_a := map (linkView p) (matching (isTag "a") all);
     query_headings := map headingView (matching isHeading all);
     query_inputs := map (inputView p) (matching formControl all);
     query_text := map textElementView (matching textSelector all);
     query_html :=
       option_map (fun t => {| html_lang := attr t "lang" |})
                  (first (isTag "html") all);
     query_main := exists_ mainLandmark all;
     query_nav := exists_ navLandmark all;
     query_button := map buttonView (matching (isTag "button") all) |}.

(** *** Calls that read and write the document *)

(** A call runs on the document and returns a value and the document it
    leaves, or throws. *)
Definition M (A : Type) : Type := Page -> completion (A * Page).

Definition ret {A : Type} (x : A) : M A := fun p => Normal (x, p).

Definition throw {A : Type} (e : JsError) : M A := fun _ => Throw e.

Definition bindM {A B : Type} (m : M A) (k : A -> M B) : M B :=
  fun p =>
    match m p with
    | Normal (x, p') => k x p'
    | Throw e => Throw e
    end.

Notation "'let*' x ':=' m 'in' k" := (bindM m (fun x => k))
  (at level 10, x name, m at level 100, k at level 200).
Notation "m >> k" := (bindM m (fun _ => k))
  (at level 65, right associativity).

Definition when (c : bool) (m : M unit) : M unit := if c then m else ret tt.

(** The element a reference stands for.  A reference to a node that left
    the document is only ever used to reach its parent, which is then
    [null]. *)
Definition resolve (u : nat) : M Tree :=
  fun p =>
    match lookup u p with
    | Some t => Normal (t, p)
    | None => Throw TypeError
    end.

(** [node.parentElement], used as the receiver of a call: a [TypeError]
    when it is [null]. *)
Definition parentElement (u : nat) : M nat :=
  fun p =>
    match ancestorsOrSelf u p with
    | _ :: El e _ :: _ => Normal (uid e, p)
    | _ => Throw TypeError
    end.

Fixpoint mapElement (u : nat) (f : Element -> Element) (t : Tree) : Tree :=
  match t with
  | Txt _ => t
  | El e children =>
      El (if Nat.eqb (uid e) u then f e else e) (map (mapElement u f) children)
  end.

Definition update (u : nat) (f : Element -> Element) : M unit :=
  fun p =>
    Normal (tt, {| roots := map (mapElement u f) (roots p); fresh := fresh p |}).

Definition setAttribute (u : nat) (name value : string) : M unit :=
  update u (setAttributeOf name value).

Definition removeAttribute (u : nat) (name : string) : M unit :=
  update u (removeAttributeOf name).

Definition setStyle (u : nat) (property value : string) : M unit :=
  update u (setStyleOf property value).

Fixpoint detach (u : nat) (t : Tree) : Tree :=
  match t with
  | Txt _ => t
  | El e children =>
      El e (flat_map (fun c => if isElement u c then [] else [detach u c])
                     children)
  end.

(** [node.remove()] *)
Definition remove (u : nat) : M unit :=
  fun p =>
    Normal (tt, {| roots := flat_map (fun c => if isElement u c then []
                                               else [detach u c]) (roots p);
                   fresh := fresh p |}).

Fixpoint appendTo (parent : nat) (child : Tree) (t : Tree) : Tree :=
  match t with
  | Txt _ => t
  | El e children =>
      El e (map (appendTo parent child) children
            ++ (if Nat.eqb (uid e) parent then [child] else []))
  end.

(** [parent.appendChild(child)] for an element just created: it gets the
    next identity. *)
Definition appendChild (parent : nat) (create : nat -> Tree) : M unit :=
  fun p =>
    Normal (tt, {| roots := map (appendTo parent (create (fresh p))) (roots p);
                   fresh := S (fresh p) |}).

Definition querySelectorAll (sel : Element -> bool) : M (list nat) :=
  fun p => Normal (map idOf (matching sel (allElements p)), p).

(** [element.querySelector(selector)]: the first match below it. *)
Definition querySelectorIn (u : nat) (sel : Element -> bool) : M (option nat) :=
  let* t := resolve u in
  ret (option_map idOf (first sel (descendants t))).

Definition getElementById (id : string) : M (option nat) :=
  fun p => Normal (option_map idOf (first (attrIs "id" id) (allElements p)), p).

(** [document.head], used as the receiver of a call. *)
Definition documentHead : M nat :=
  fun p =>
    match first (isTag "head") (allElements p) with
    | Some t => Normal (idOf t, p)
    | None => Throw TypeError
    end.

Definition getAttr (u : nat) (name : string) : M attribute :=
  let* t := resolve u in ret (attr t name).

(** The computed style of markup the audit injects; no detector reads
    it. *)
Definition injectedSheet (display position : string) : Computed :=
  {| sheet_display := display; sheet_visibility := "visible";
     sheet_opacity := "1"; sheet_color := "rgb(255, 255, 255)";
     sheet_backgroundColor := "rgba(0, 0, 0, 0)"; sheet_fontSize := "10px";
     sheet_fontWeight := "700"; sheet_position := position |}.

(** A [style] element with the given [id], appended to the head unless
    the document has an element with that [id].  The text of the rules is
    stood for by their names. *)
Definition injectStyle (id rules : string) : M unit :=
  let* existing := getElementById id in
  match existing with
  | Some _ => ret tt
  | None =>
      let* head := documentHead in
      appendChild head
        (fun u => El {| uid := u; svgNamespace := false; localName := "style";
                        attributes := [("id", Plain id)];
                        sheet := injectedSheet "none" "static" |}
                     [Txt rules])
  end.

(** The parent gets [position: relative] when its computed position is
    [static], and a mark that says so. *)
Definition ensurePositioned (parent : nat) : M unit :=
  let* t := resolve parent in
  match t with
  | El e _ =>
      when (String.eqb (computedPosition e) "static")
           (setStyle parent "position" "relative"
            >> setAttribute parent "data-position-changed" "true")
  | Txt _ => ret tt
  end.

Definition restorePosition (parent : nat) : M unit :=
  let* changed := getAttr parent "data-position-changed" in
  when (attributeIs changed "true")
       (setStyle parent "position" EmptyString
        >> removeAttribute parent "data-position-changed").

(** A badge: a [div] with a class, a text and the identifier of the
    element it is for, and for a link badge a background. *)
Definition badge (className text badgeFor : string)
           (background : option string) (u : nat) : Tree :=
  El {| uid := u; svgNamespace := false; localName := "div";
        attributes :=
          [("class", Plain className); ("data-badge-for", Plain badgeFor)]
          ++ match background with
             | Some c => [("style", Declarations [("background", c)])]
             | None => []
             end;
        sheet := injectedSheet "block" "absolute" |}
     [Txt text].

Definition badgeFor (className id : string) (e : Element) : bool :=
  hasClass className e && attrIs "data-badge-for" id e.

(** The badge is created, the parent positioned, the badge appended,
    unless the parent already holds a badge that [present] selects. *)
Definition addBadge (u : nat) (present : Element -> bool)
           (className text id : string) (background : option string)
  : M unit :=
  let* parent := parentElement u in
  let* found := querySelectorIn parent present in
  match found with
  | Some _ => ret tt
  | None =>
      ensurePositioned parent
      >> appendChild parent (badge className text id background)
  end.

(** The first badge of the class below the parent is removed. *)
Definition removeBadge (u : nat) (sel : Element -> bool) : M unit :=
  let* parent := parentElement u in
  let* found := querySelectorIn parent sel in
  match found with
  | Some b => remove b
  | None => ret tt
  end.

Fixpoint clearStyles (u : nat) (properties : list string) : M unit :=
  match properties with
  | [] => ret tt
  | property :: rest => setStyle u property EmptyString >> clearStyles u rest
  end.

Fixpoint forEach {S : Type} (f : nat -> Z -> S -> M S) (l : list nat)
         (index : Z) (s : S) : M S :=
  match l with
  | [] => ret s
  | u :: rest => let* s' := f u index s in forEach f rest (index + 1) s'
  end.

Definition decimal (n : Z) : string := NilZero.string_of_int (Z.to_int n).

(** *** The detectors, with their marks *)

(** In the texts of the badges the warning sign, its variation selector
    and the arrow are code units above 255; each is written as a question
    mark.  The registry [markedElements], which the audit empties and
    fills for a later toggle of the marks, is not read by the audit and
    is left out. *)

Definition animationRules : string :=
  "@keyframes pulse-red .accessibility-badge .accessibility-badge-link .accessibility-badge-svg".

Definition checkImages : M CategoryResult :=
  let* images := querySelectorAll (isTag "img") in
  let* issues :=
    forEach
      (fun img index issues =>
         let* t := resolve img in
         if missingAlt (imgView t) then
           let imageId := ("accessibility-img-" ++ decimal index)%string in
           setAttribute img "data-accessibility-id" imageId
           >> setStyle img "border" "5px solid #ef4444"
           >> setStyle img "outline" "5px solid #cc0808"
           >> setStyle img "outline-offset" "3px"
           >> setStyle img "box-shadow" "0 0 20px rgba(239, 68, 68, 0.6)"
           >> setStyle img "animation" "pulse-red 2s infinite"
           >> setAttribute img "data-accessibility-issue" "missing-alt"
           >> addBadge img (hasClass "accessibility-badge")
                       "accessibility-badge" "?? ALT MANQUANT" imageId None
           >> injectStyle "accessibility-animation-styles" animationRules
           >> let* t' := resolve img in
              ret (issues ++ [imageIssue (imgView t') index])
         else
           when (attributeIs (attr t "data-accessibility-issue") "missing-alt")
                (clearStyles img ["border"; "outline"; "outline-offset";
                                  "box-shadow"; "animation"]
                 >> removeAttribute img "data-accessibility-issue"
                 >> removeAttribute img "data-accessibility-id"
                 >> removeBadge img (hasClass "accessibility-badge")
                 >> let* parent := parentElement img in
                    restorePosition parent)
           >> ret issues)
      images 0 [] in
  ret (result (len images) issues).

Definition addVisualFeedbackToSVG (svg : nat) (index : Z) : M unit :=
  let svgId := ("accessibility-svg-" ++ decimal index)%string in
  setAttribute svg "data-accessibility-id" svgId
  >> setStyle svg "outline" "5px solid #a855f7"
  >> setStyle svg "outline-offset" "3px"
  >> setStyle svg "box-shadow" "0 0 20px rgba(168, 85, 247, 0.6)"
  >> setAttribute svg "data-accessibility-issue" "svg-no-desc"
  >> addBadge svg (badgeFor "accessibility-badge-svg" svgId)
              "accessibility-badge-svg" "?? SVG NON ACCESSIBLE" svgId None.

Definition removeVisualFeedbackFromSVG (svg : nat) : M unit :=
  let* issue := getAttr svg "data-accessibility-issue" in
  when (attributeIs issue "svg-no-desc")
       (clearStyles svg ["outline"; "outline-offset"; "box-shadow"]
        >> removeAttribute svg "data-accessibility-issue"
        >> removeAttribute svg "data-accessibility-id"
        >> removeBadge svg (hasClass "accessibility-badge-svg")
        >> let* parent := parentElement svg in
           restorePosition parent).

Definition checkSVG : M CategoryResult :=
  let* svgs := querySelectorAll (isTag "svg") in
  let* issues :=
    forEach
      (fun svg index issues =>
         let* t := resolve svg in
         if negb (isSVGAccessible (svgView t)) then
           addVisualFeedbackToSVG svg index
           >> let* t' := resolve svg in
              ret (issues ++ [createSVGIssue (svgView t') index])
         else removeVisualFeedbackFromSVG svg >> ret issues)
      svgs 0 [] in
  ret (result (len svgs) issues).

Definition addVisualFeedbackToLink (link : nat) (linkIssue : Issue) (index : Z)
  : M unit :=
  let linkId := ("accessibility-link-" ++ decimal index)%string in
  let isHighSeverity :=
    match severity linkIssue with elevee => true | _ => false end in
  let outlineColor := if isHighSeverity then "#f97316" else "#fbbf24" in
  let badgeText :=
    if isHighSeverity then "?? LIEN VIDE" else "?? ARIA-LABEL ?" in
  let badgeColor := if isHighSeverity then "#f97316" else "#f59e0b" in
  let issueType := if isHighSeverity then "missing-text" else "bad-text" in
  setAttribute link "data-accessibility-id" linkId
  >> setStyle link "outline" ("3px solid " ++ outlineColor)%string
  >> setStyle link "outline-offset" "2px"
  >> setAttribute link "data-accessibility-issue" issueType
  >> addBadge link (badgeFor "accessibility-badge-link" linkId)
              "accessibility-badge-link" badgeText linkId (Some badgeColor).

Definition removeVisualFeedbackFromLink (link : nat) : M unit :=
  let* issue := getAttr link "data-accessibility-issue" in
  when (truthy issue)
       (clearStyles link ["outline"; "outline-offset"]
        >> removeAttribute link "data-accessibility-issue"
        >> let* linkId := getAttr link "data-accessibility-id" in
           removeAttribute link "data-accessibility-id"
           >> match linkId with
              | Some id =>
                  when (negb (isEmpty id))
                       (removeBadge link (badgeFor "accessibility-badge-link" id))
              | None => ret tt
              end
           >> let* parent := parentElement link in
              restorePosition parent).

Definition checkLinks : M CategoryResult :=
  let* links := querySelectorAll (isTag "a") in
  let* issues :=
    forEach
      (fun link index issues =>
         let* t := resolve link in
         let* p := (fun p => Normal (p, p)) in
         match analyzeLinkAccessibility (linkView p t) index with
         | Some linkIssue =>
             addVisualFeedbackToLink link linkIssue index
             >> ret (issues ++ [linkIssue])
         | None => removeVisualFeedbackFromLink link >> ret issues
         end)
      links 0 [] in
  ret (result (len links) issues).

(** What the loop of [checkHeadings] carries from a heading to the
    next. *)
Record HeadingLoop : Type := {
  loop_issues : list Issue;
  loop_previousLevel : option Z;
  loop_issueIndex : Z
}.

Definition levelText (l : option Z) : string :=
  match l with
  | Some z => decimal z
  | None => "NaN"
  end.

Definition markHeading (heading : nat) (issueIndex : Z)
           (issueType badgeText : string) : M unit :=
  let headingId := ("accessibility-heading-" ++ decimal issueIndex)%string in
  setAttribute heading "data-accessibility-id" headingId
  >> setStyle heading "outline" "4px solid #3b82f6"
  >> setStyle heading "outline-offset" "2px"
  >> setAttribute heading "data-accessibility-issue" issueType
  >> addBadge heading (badgeFor "accessibility-badge-heading" headingId)
              "accessibility-badge-heading" badgeText headingId None.

Definition checkHeadings : M CategoryResult :=
  let* headings := querySelectorAll isHeading in
  injectStyle "accessibility-heading-styles" ".accessibility-badge-heading"
  >> let* h1s := querySelectorAll (isTag "h1") in
     let h1Count := len h1s in
     let* final :=
       forEach
         (fun heading index st =>
            let* t := resolve heading in
            let view := headingView t in
            let previousLevel := loop_previousLevel st in
            let level := parseInt (slice1 (tagName (heading_tag view))) None in
            let* st1 :=
              if isSkip previousLevel level then
                markHeading heading (loop_issueIndex st) "heading-skip"
                            ("?? SAUT H" ++ levelText previousLevel ++ "?H"
                                         ++ levelText level)%string
                >> let* t' := resolve heading in
                   ret {| loop_issues :=
                            loop_issues st
                            ++ [skipIssue (headingView t') previousLevel level
                                          (loop_issueIndex st)];
                          loop_previousLevel := previousLevel;
                          loop_issueIndex := loop_issueIndex st + 1 |}
              else ret st in
            let* t1 := resolve heading in
            let* st2 :=
              if isEmpty (trim (textContent t1)) then
                markHeading heading (loop_issueIndex st1) "heading-empty"
                            "?? TITRE VIDE"
                >> let* t' := resolve heading in
                   ret {| loop_issues :=
                            loop_issues st1
                            ++ [emptyIssue (headingView t') index
                                           (loop_issueIndex st1)];
                          loop_previousLevel := previousLevel;
                          loop_issueIndex := loop_issueIndex st1 + 1 |}
              else ret st1 in
            ret {| loop_issues := loop_issues st2;
                   loop_previousLevel := level;
                   loop_issueIndex := loop_issueIndex st2 |})
         headings 0
         {| loop_issues := structureIssues h1Count;
            loop_previousLevel := Some 0;
            loop_issueIndex := 0 |} in
     ret (result (len headings) (loop_issues final)).

Definition checkForms : M CategoryResult :=
  let* inputs := querySelectorAll formControl in
  injectStyle "accessibility-form-styles" ".accessibility-badge-form"
  >> let* final :=
       forEach
         (fun input index st =>
            let '(issues, issueIndex) := st in
            let* t := resolve input in
            let* p := (fun p => Normal (p, p)) in
            if missingLabel (inputView p t) then
              let formId := ("accessibility-form-" ++ decimal issueIndex)%string in
              setAttribute input "data-accessibility-id" formId
              >> setStyle input "outline" "3px solid #f59e0b"
              >> setStyle input "outline-offset" "2px"
              >> setAttribute input "data-accessibility-issue" "form-no-label"
              >> addBadge input (badgeFor "accessibility-badge-form" formId)
                          "accessibility-badge-form" "?? LABEL MANQUANT"
                          formId None
              >> let* t' := resolve input in
                 let* p' := (fun p => Normal (p, p)) in
                 ret (issues ++ [formIssue (inputView p' t') index issueIndex],
                      issueIndex + 1)
            else ret st)
         inputs 0 ([], 0) in
     ret (result (len inputs) (fst final)).

Definition withSnippet (i : Issue) (snippet : string) : Issue :=
  {| element := element i; issue := issue i; severity := severity i;
     details := details i; navId := navId i; htmlSnippet := Some snippet |}.

Definition ensureContrastStyles : M unit :=
  injectStyle "accessibility-animation-styles" "@keyframes pulse-red"
  >> injectStyle "accessibility-contrast-badge-style"
                 ".accessibility-badge-contrast".

(** [processContrastElement]: the decision is that of
    [Detectors.processContrastElement]; the element is marked before the
    snippet of the issue is taken. *)
Definition processContrastElement (el : nat) (issueIndex : Z)
  : M (option Issue) :=
  let* t := resolve el in
  match Detectors.processContrastElement (textElementView t) issueIndex with
  | Some found =>
      let contrastId := ("accessibility-contrast-" ++ decimal issueIndex)%string in
      setAttribute el "data-accessibility-id" contrastId
      >> setAttribute el "data-accessibility-issue" "low-contrast"
      >> setStyle el "outline" "3px solid #6b21a8"
      >> setStyle el "outline-offset" "2px"
      >> setStyle el "box-shadow" "0 0 15px rgba(107, 33, 168, 0.5)"
      >> addBadge el (badgeFor "accessibility-badge-contrast" contrastId)
                  "accessibility-badge-contrast" "?? CONTRASTE FAIBLE"
                  contrastId None
      >> ensureContrastStyles
      >> let* t' := resolve el in
         ret (Some (withSnippet found (generateHTMLSnippet t')))
  | None => ret None
  end.

Definition checkContrast : M CategoryResult :=
  let* selected := querySelectorAll textSelector in
  let* p := (fun p => Normal (p, p)) in
  let candidate (u : nat) : bool :=
    match lookup u p with
    | Some t => isCandidate (textElementView t)
    | None => false
    end in
  let interactive (u : nat) : bool :=
    match lookup u p with
    | Some t => isInteractive (textElementView t)
    | None => false
    end in
  let allElements := filter candidate selected in
  let interactiveElements := filter interactive allElements in
  let otherElements := filter (fun u => negb (interactive u)) allElements in
  let textElements :=
    firstn MAX_CONTRAST_ELEMENTS (interactiveElements ++ otherElements) in
  let* final :=
    forEach
      (fun el _ st =>
         let '(issues, issueIndex) := st in
         let* found := processContrastElement el issueIndex in
         match found with
         | Some i => ret (issues ++ [i], issueIndex + 1)
         | None => ret st
         end)
      textElements 0 ([], 0) in
  ret (result (len textElements) (fst final)).

Definition checkLanguage : M CategoryResult :=
  fun p =>
    match Detectors.checkLanguage (snapshot p) with
    | Normal res => Normal (res, p)
    | Throw e => Throw e
    end.

Definition checkLandmarks : M CategoryResult :=
  fun p => Normal (Detectors.checkLandmarks (snapshot p), p).

Definition checkButtons : M CategoryResult :=
  let* buttons := querySelectorAll (isTag "button") in
  injectStyle "accessibility-button-styles" ".accessibility-badge-button"
  >> let* final :=
       forEach
         (fun button index st =>
            let '(issues, issueIndex) := st in
            let* t := resolve button in
            if missingText (buttonView t) then
              let buttonId :=
                ("accessibility-button-" ++ decimal issueIndex)%string in
              setAttribute button "data-accessibility-id" buttonId
              >> setStyle button "outline" "4px solid #10b981"
              >> setStyle button "outline-offset" "2px"
              >> setAttribute button "data-accessibility-issue" "button-no-text"
              >> addBadge button (badgeFor "accessibility-badge-button" buttonId)
                          "accessibility-badge-button" "?? TEXTE MANQUANT"
                          buttonId None
              >> let* t' := resolve button in
                 ret (issues ++ [buttonIssue (buttonView t') index issueIndex],
                      issueIndex + 1)
            else ret st)
         buttons 0 ([], 0) in
     ret (result (len buttons) (fst final)).

(** *** Clearing *)

Definition marked (values : list string) (e : Element) : bool :=
  match getAttribute e "data-accessibility-issue" with
  | Some v => contains values v
  | None => false
  end.

(** One block of [clearVisualFeedback]: every element marked with one of
    the values loses the styles and the two marks, the first badge of the
    class below its parent is removed and the parent's position
    restored. *)
Definition clearMarked (values properties : list string) (badgeClass : string)
  : M unit :=
  let* elements := querySelectorAll (marked values) in
  forEach
    (fun el _ _ =>
       clearStyles el properties
       >> removeAttribute el "data-accessibility-issue"
       >> removeAttribute el "data-accessibility-id"
       >> removeBadge el (hasClass badgeClass)
       >> let* parent := parentElement el in
          restorePosition parent)
    elements 0 tt.

Definition removeAll (sel : Element -> bool) : M unit :=
  let* found := querySelectorAll sel in
  forEach (fun b _ _ => remove b) found 0 tt.

Definition removeById (id : string) : M unit :=
  let* found := getElementById id in
  match found with
  | Some u => remove u
  | None => ret tt
  end.

Definition clearVisualFeedback : M unit :=
  clearMarked ["missing-alt"]
              ["border"; "outline"; "outline-offset"; "box-shadow"; "animation"]
              "accessibility-badge"
  >> clearMarked ["missing-text"; "bad-text"] ["outline"; "outline-offset"]
                 "accessibility-badge-link"
  >> clearMarked ["svg-no-desc"] ["outline"; "outline-offset"; "box-shadow"]
                 "accessibility-badge-svg"
  >> clearMarked ["heading-skip"; "heading-empty"] ["outline"; "outline-offset"]
                 "accessibility-badge-heading"
  >> clearMarked ["form-no-label"] ["outline"; "outline-offset"]
                 "accessibility-badge-form"
  >> clearMarked ["button-no-text"] ["outline"; "outline-offset"]
                 "accessibility-badge-button"
  >> clearMarked ["low-contrast"] ["outline"; "outline-offset"; "box-shadow"]
                 "accessibility-badge-contrast"
  >> removeAll (hasClass "accessibility-badge")
  >> removeAll (hasClass "accessibility-badge-link")
  >> removeAll (hasClass "accessibility-badge-svg")
  >> removeAll (hasClass "accessibility-badge-heading")
  >> removeAll (hasClass "accessibility-badge-form")
  >> removeAll (hasClass "accessibility-badge-button")
  >> removeAll (hasClass "accessibility-badge-contrast")
  >> removeById "accessibility-animation-styles"
  >> removeById "accessibility-contrast-badge-style".

(** *** The audit *)

Definition auditAccessibility : M AuditReport :=
  clearVisualFeedback
  >> let* images := checkImages in
     let* svg := checkSVG in
     let* links := checkLinks in
     let* headings := checkHeadings in
     let* forms := checkForms in
     let* contrast := checkContrast in
     let colorblind := {| total := 0; issues := []; passed := 0 |} in
     let* lang := checkLanguage in
     let* landmarks := checkLandmarks in
     let* buttons := checkButtons in
     ret {| images := images; svg := svg; links := links;
            headings := headings; forms := forms; contrast := contrast;
            colorblind := colorblind; lang := lang; landmarks := landmarks;
            buttons := buttons |}.

End Live.

(** ** The vocabulary of the specification *)

Module Spec.

(** A channel of an [RGBAColor]: an integer of [0, 255]. *)
Definition channelInRange (v : option Z) : Prop :=
  exists z, v = Some z /\ 0 <= z <= 255.

(** The alpha of an [RGBAColor]: a number of [0, 1]. *)
Definition alphaInRange (x : jsfloat) : Prop :=
  exists q, x = FFin q /\ (0 <= q)%Q /\ (q <= 1)%Q.

(** The ranges the data model gives an [RGBAColor]. *)
Definition inRange (c : RGBAColor) : Prop :=
  channelInRange (r c) /\ channelInRange (g c) /\ channelInRange (b c)
  /\ alphaInRange (a c).

(** A value returned by [parseColor] is an [RGBAColor] within its
    ranges. *)
Definition validColor (p : parsed) : Prop :=
  match p with
  | Rgba c => inRange c
  | _ => False
  end.

(** A channel read as it is written: a non-negative integer. *)
Definition channelNonNegative (v : option Z) : Prop :=
  exists z, v = Some z /\ 0 <= z.

(** An alpha read as it is written: [NaN], a non-negative number or
    [+Infinity], never a negative number. *)
Definition alphaNonNegative (x : jsfloat) : Prop :=
  match x with
  | FNaN => True
  | FInf negative => negative = false
  | FFin q => (0 <= q)%Q
  end.

(** A run of decimal digits that [parseInt] reads exactly: its value is at
    most 2^53, the bound up to which every integer is a binary64
    number. *)
Definition exactInteger (d : string) : Prop := digitsValue 10 0 d <= 2 ^ 53.

(** The invariant of a category result. *)
Definition countsAgree (res : CategoryResult) : Prop :=
  passed res = total res - len (issues res).

Definition withinTotal (res : CategoryResult) : Prop :=
  len (issues res) <= total res.


(** The issues that report a skip of level, and the page-level ones. *)
Definition isSkipIssue (i : Issue) : bool :=
  match issue i with Saut_de_niveau_de_titre _ _ => true | _ => false end.

Definition isPageLevel (i : Issue) : bool :=
  match element i with Structure => true | _ => false end.

(** What a match of the functional notation captures. *)
Definition capturesOk (m : rgbMatch) : Prop :=
  (isEmpty (group1 m) = false
   /\ JsString.forallb isDecimalDigit (group1 m) = true)
  /\ (isEmpty (group2 m) = false
      /\ JsString.forallb isDecimalDigit (group2 m) = true)
  /\ (isEmpty (group3 m) = false
      /\ JsString.forallb isDecimalDigit (group3 m) = true)
  /\ (forall t, group4 m = Some t ->
                isEmpty t = false /\ JsString.forallb isAlphaChar t = true).

(** The own properties of the table, and the inherited ones that a
    lower-case key can reach. *)
Definition ownKeys : list string := ["white"; "black"; "red"; "green"; "blue"].
Definition inheritedKeys : list string := ["constructor"; "__proto__"].

(** The text parses to an [{r, g, b, a}] record. *)
Definition isRecord (p : parsed) : Prop := exists c, p = Rgba c.

(** The ratio of the element is a number strictly between 0 and the
    minimum that applies to its text size. *)
Definition ratioBelowMinimum (el : TextElement) : Prop :=
  exists ratio,
    calculateContrastRatio (color el) (backgroundColor el) = Num ratio
    /\ (0 < ratio)%R
    /\ (ratio < minimumRatio (isLargeText (parseFloat (fontSize el))
                                           (fontWeight el)))%R.

(** The level of a heading: the digit of its tag. *)
Definition level (t : HeadingTag) : Z :=
  match t with
  | H1 => 1 | H2 => 2 | H3 => 3 | H4 => 4 | H5 => 5 | H6 => 6
  end.

Definition levelOf (h : Heading) : Z := level (heading_tag h).

(** The message and the severity of an issue. *)
Definition summary (i : Issue) : IssueText * Severity :=
  (issue i, severity i).

(** The page-level rule in the words of the specification: no [h1] is one
    high issue, more than one [h1] is one medium issue. *)
Definition pageLevelSpec (h1Count : Z) : list (IssueText * Severity) :=
  if h1Count =? 0 then [(Aucun_titre_H1_trouve, elevee)]
  else if 1 <? h1Count then [(Plusieurs_titres_H1 h1Count, moyenne)]
  else [].

(** The per-heading rules in the words of the specification, heading by
    heading in document order: a medium issue when the level exceeds the
    level of the heading just before by more than one, then a high issue
    when the trimmed text is empty.  [previous] is the level of the
    heading just before, if there is one. *)
Fixpoint perHeadingSpec (previous : option Z) (hs : list Heading)
  : list (IssueText * Severity) :=
  match hs with
  | [] => []
  | h :: rest =>
      (match previous with
       | Some p =>
           if 1 <? levelOf h - p
           then [(Saut_de_niveau_de_titre (Some p) (Some (levelOf h)), moyenne)]
           else []
       | None => []
       end)
      ++ (if isEmpty (trim (heading_textContent h))
          then [(Titre_vide, elevee)] else [])
      ++ perHeadingSpec (Some (levelOf h)) rest
  end.

Definition h1Count (hs : list Heading) : Z := len (filter isH1 hs).

(** The variable [previousLevel] of the loop: 0 before the first
    heading, then the level of the heading just visited. *)
Definition previousLevel (previous : option Z) : option Z :=
  match previous with
  | Some p => Some p
  | None => Some 0
  end.

(** The issue [i] reports a skip from the heading [ph] to the heading
    [h], which follows it immediately. *)
Definition skipBetween (i : Issue) (ph h : Heading) : Prop :=
  1 < levelOf h - levelOf ph
  /\ issue i = Saut_de_niveau_de_titre (Some (levelOf ph)) (Some (levelOf h))
  /\ element i = Bare (tagName (heading_tag h))
  /\ severity i = moyenne.

(** The issue of the language detector. *)
Definition langIssue : Issue :=
  {| element := HTML;
     issue := Attribut_lang_manquant;
     severity := elevee;
     details := NoDetails;
     navId := None;
     htmlSnippet := None |}.

(** The only issue of the headings of a page without heading. *)
Definition noH1Issue : Issue :=
  {| element := Structure;
     issue := Aucun_titre_H1_trouve;
     severity := elevee;
     details := NoDetails;
     navId := None;
     htmlSnippet := None |}.


End Spec.

Import Spec.

(** ** Sample documents *)

Module Samples.

(** A paragraph of 16px regular text with the given computed colours. *)
Definition paragraph (fg bg : string) : TextElement :=
  {| el_tagName := "P";
     el_textContent := "text";
     el_childNodes := [ {| nodeType := 3; child_textContent := "text" |} ];
     display := "block";
     visibility := "visible";
     opacity := "1";
     color := fg;
     backgroundColor := bg;
     fontSize := "16px";
     fontWeight := "400";
     el_snippet := "<p>text</p>" |}.

(** A heading with the given tag and text. *)
Definition heading (t : HeadingTag) (text : string) : Heading :=
  {| heading_tag := t; heading_textContent := text;
     heading_snippet := EmptyString |}.

(** A page made of the given headings, with a [lang], a [main] and a
    [nav], and nothing else. *)
Definition page (hs : list Heading) : Document :=
  {| query_img := []; query_svg := []; query_a := [];
     query_headings := hs; query_inputs := []; query_text := [];
     query_html := Some {| html_lang := Some "fr" |};
     query_main := true; query_nav := true; query_button := [] |}.

(** A page whose root element has the given [lang] attribute. *)
Definition langPage (lang : attribute) : Document :=
  {| query_img := []; query_svg := []; query_a := [];
     query_headings := []; query_inputs := []; query_text := [];
     query_html := Some {| html_lang := lang |};
     query_main := true; query_nav := true; query_button := [] |}.

(** A document in which [document.querySelector("html")] finds nothing. *)
Definition rootless : Document :=
  {| query_img := []; query_svg := []; query_a := [];
     query_headings := []; query_inputs := []; query_text := [];
     query_html := None;
     query_main := true; query_nav := true; query_button := [] |}.

(** The computed style of an element of a page without style sheet:
    black 16px regular text, no background, static position. *)
Definition plainSheet : Live.Computed :=
  {| Live.sheet_display := "block"; Live.sheet_visibility := "visible";
     Live.sheet_opacity := "1"; Live.sheet_color := "rgb(0, 0, 0)";
     Live.sheet_backgroundColor := "rgba(0, 0, 0, 0)";
     Live.sheet_fontSize := "16px"; Live.sheet_fontWeight := "400";
     Live.sheet_position := "static" |}.

(** An HTML element of such a page. *)
Definition tag (u : nat) (name : string) (attrs : list (string * string))
           (children : list Live.Tree) : Live.Tree :=
  Live.El {| Live.uid := u; Live.svgNamespace := false;
             Live.localName := name;
             Live.attributes :=
               map (fun nv => (fst nv, Live.Plain (snd nv))) attrs;
             Live.sheet := plainSheet |} children.

(** The live page whose markup is an [html] element with [lang] fr, an
    empty [head], and a [body] that holds one link, without text, whose
    [href] is a number sign. *)
Definition emptyLinkPage : Live.Page :=
  {| Live.roots :=
       [tag 0 "html" [("lang", "fr")]
            [tag 1 "head" [] [];
             tag 2 "body" [] [tag 3 "a" [("href", "#")] []]]];
     Live.fresh := 4 |}.

(** The live page whose [body] holds one button, and in it one image
    without [alt]. *)
Definition iconButtonPage : Live.Page :=
  {| Live.roots :=
       [tag 0 "html" [("lang", "fr")]
            [tag 1 "head" [] [];
             tag 2 "body" []
                 [tag 3 "button" [] [tag 4 "img" [("src", "i.png")] []]]]];
     Live.fresh := 5 |}.

(** The live page whose [body] holds one [h1], and in it one image
    without [alt] and no text. *)
Definition logoHeadingPage : Live.Page :=
  {| Live.roots :=
       [tag 0 "html" [("lang", "fr")]
            [tag 1 "head" [] [];
             tag 2 "body" []
                 [tag 3 "h1" [] [tag 4 "img" [("src", "logo.png")] []]]]];
     Live.fresh := 5 |}.

(** The markup of that link: in the first report, and with the empty
    [style] attribute that the clearing leaves on it. *)
Definition linkMarkup : string :=
  ("<a href=" ++ Live.quote ++ "#" ++ Live.quote ++ "></a>")%string.

Definition linkMarkupAfterClearing : string :=
  ("<a href=" ++ Live.quote ++ "#" ++ Live.quote
              ++ " style=" ++ Live.quote ++ Live.quote ++ "></a>")%string.

(** The three counts of each category of a report. *)
Definition counts (rep : AuditReport) : list (Z * Z * Z) :=
  map (fun res => (total res, len (issues res), passed res)) (categories rep).

End Samples.

Import Samples.

(** ** More sample documents *)

Module Cases.

(** A link of 16px regular text with the given computed colours. *)
Definition anchor (fg bg : string) : TextElement :=
  {| el_tagName := "A";
     el_textContent := "text";
     el_childNodes := [ {| nodeType := 3; child_textContent := "text" |} ];
     display := "inline";
     visibility := "visible";
     opacity := "1";
     color := fg;
     backgroundColor := bg;
     fontSize := "16px";
     fontWeight := "400";
     el_snippet := "<a>text</a>" |}.

(** A page with a root element, and whose contrast query returns the
    given elements. *)
Definition textPage (els : list TextElement) : Document :=
  {| query_img := []; query_svg := []; query_a := [];
     query_headings := []; query_inputs := []; query_text := els;
     query_html := Some {| html_lang := Some "fr" |};
     query_main := true; query_nav := true; query_button := [] |}.

(** An image with the given [alt]. *)
Definition picture (alt : string) : Img :=
  {| img_alt := alt; img_src := "p.png"; img_snippet := "<img>" |}.

(** An inline graphic with the given [role], [aria-label] and
    [aria-hidden], and no [title]. *)
Definition graphic (role label hidden : attribute) : Svg :=
  {| svg_role := role; svg_aria_label := label; svg_title := false;
     svg_aria_hidden := hidden; svg_snippet := "<svg></svg>" |}.

(** A link with the given [aria-label] and child nodes, outside any
    graphic. *)
Definition hyperlink (label : attribute) (children : list Node) : Link :=
  {| link_aria_label := label; link_classList := [];
     link_closest_svg := false; link_closest_img := false;
     link_childNodes := children; link_image_with_alt := false;
     link_svg := None; link_href := "#"; link_snippet := "<a></a>" |}.

(** A text field with the given [id] and [aria-label], for which the
    document has no [label]. *)
Definition field (id : string) (label : attribute) : Input :=
  {| input_id := id; input_label_for := false; input_closest_label := false;
     input_aria_label := label; input_aria_labelledby := None;
     input_tagName := "INPUT"; input_type := "text";
     input_snippet := "<input>" |}.

(** A button with the given text and [aria-label]. *)
Definition pushButton (text : string) (label : attribute) : Button :=
  {| button_textContent := text; button_aria_label := label;
     button_snippet := "<button></button>" |}.

(** A page with a root element, a [main] and a [nav], and whose queries
    return the given elements. *)
Definition pageOf (imgs : list Img) (svgs : list Svg) (links : list Link)
           (inputs : list Input) (buttons : list Button) : Document :=
  {| query_img := imgs; query_svg := svgs; query_a := links;
     query_headings := []; query_inputs := inputs; query_text := [];
     query_html := Some {| html_lang := Some "fr" |};
     query_main := true; query_nav := true; query_button := buttons |}.

End Cases.

Import Cases.

(** ** Numbering *)

Module Numbering.

(** The identifiers are [j], [j + 1], [j + 2], and so on, in order. *)
Fixpoint numberedFrom (j : Z) (ids : list (option Z)) : Prop :=
  match ids with
  | [] => True
  | id :: rest => id = Some j /\ numberedFrom (j + 1) rest
  end.

End Numbering.

Import Numbering.

(** ** Nodes below a link *)

Module LinkNodes.

(** The link with other child nodes. *)
Definition withChildNodes (link : Link) (children : list Node) : Link :=
  {| link_aria_label := link_aria_label link;
     link_classList := link_classList link;
     link_closest_svg := link_closest_svg link;
     link_closest_img := link_closest_img link;
     link_childNodes := children;
     link_image_with_alt := link_image_with_alt link;
     link_svg := link_svg link;
     link_href := link_href link;
     link_snippet := link_snippet link |}.

Definition isTextNode (n : Node) : bool :=
  match n with TextNode _ => true | ElementNode _ _ _ _ => false end.

(** A badge of one of the three classes that the walker of
    [extractLinkText] names, holding text only, as the audit creates
    it. *)
Definition isKnownBadge (n : Node) : bool :=
  match n with
  | ElementNode _ _ classList childNodes =>
      (contains classList "accessibility-badge"
       || contains classList "accessibility-badge-link"
       || contains classList "accessibility-badge-svg")
      && List.forallb isTextNode childNodes
  | TextNode _ => false
  end.

(** An [svg] or [img] element. *)
Definition isGraphic (n : Node) : bool :=
  match n with
  | ElementNode _ localName _ _ =>
      String.eqb localName "svg" || String.eqb localName "img"
  | TextNode _ => false
  end.

End LinkNodes.

Import LinkNodes.

(** ** Marks of the audit *)

Module Marks.



(** The classes of the badges, and the values of the mark of an issue. *)
Definition badgeClasses : list string :=
  ["accessibility-badge"; "accessibility-badge-link";
   "accessibility-badge-svg"; "accessibility-badge-heading";
   "accessibility-badge-form"; "accessibility-badge-button";
   "accessibility-badge-contrast"].

Definition issueMarks : list string :=
  ["missing-alt"; "missing-text"; "bad-text"; "svg-no-desc"; "heading-skip";
   "heading-empty"; "form-no-label"; "button-no-text"; "low-contrast"].

(** The attributes that the clearing writes or removes. *)
Definition clearedAttributes : list string :=
  ["style"; "data-accessibility-issue"; "data-accessibility-id";
   "data-position-changed"].

(** The element [e'] is the element [e] but for the attributes that the
    clearing handles; its mark of an issue is that of [e], or none. *)
Definition follows (e e' : Live.Element) : Prop :=
  Live.uid e' = Live.uid e
  /\ Live.localName e' = Live.localName e
  /\ Live.svgNamespace e' = Live.svgNamespace e
  /\ Live.sheet e' = Live.sheet e
  /\ (forall name, ~ In name clearedAttributes ->
                   Live.assoc name (Live.attributes e')
                   = Live.assoc name (Live.attributes e))
  /\ (Live.getAttribute e' "data-accessibility-issue"
      = Live.getAttribute e "data-accessibility-issue"
      \/ Live.getAttribute e' "data-accessibility-issue" = None).

(** Every element of [p'] follows an element of [p]. *)
Definition shrinks (p p' : Live.Page) : Prop :=
  Live.fresh p' = Live.fresh p
  /\ forall e' children',
       In (Live.El e' children') (Live.allElements p') ->
       exists e children,
         In (Live.El e children) (Live.allElements p) /\ follows e e'.

(** A call that, when it returns, leaves a document that [shrinks] the
    one it ran on. *)
Definition shrinking {A : Type} (m : Live.M A) : Prop :=
  forall p x p', m p = Normal (x, p') -> shrinks p p'.

(** The element [e'] is the element [e] but for its [style] and the three
    attributes of the audit. *)
Definition kept (e e' : Live.Element) : Prop :=
  Live.uid e' = Live.uid e
  /\ Live.localName e' = Live.localName e
  /\ Live.svgNamespace e' = Live.svgNamespace e
  /\ Live.sheet e' = Live.sheet e
  /\ (forall name, ~ In name clearedAttributes ->
                   Live.assoc name (Live.attributes e')
                   = Live.assoc name (Live.attributes e)).

(** Every element of [p'] is an element of [p], kept, or carries an
    identity that [p] had not given out: it was created since. *)
Definition extends (p p' : Live.Page) : Prop :=
  (Live.fresh p <= Live.fresh p')%nat
  /\ forall e' children',
       In (Live.El e' children') (Live.allElements p') ->
       (Live.fresh p <= Live.uid e')%nat
       \/ exists e children,
            In (Live.El e children) (Live.allElements p) /\ kept e e'.

(** A call that, when it returns, leaves a document that [extends] the
    one it ran on. *)
Definition extending {A : Type} (m : Live.M A) : Prop :=
  forall p x p', m p = Normal (x, p') -> extends p p'.

(** The page that the audit of [emptyLinkPage] leaves, and the page that
    the clearing of that page leaves. *)
Definition auditedLinkPage : Live.Page :=
  Eval vm_compute in
    match Live.auditAccessibility emptyLinkPage with
    | Normal (_, p) => p
    | Throw _ => emptyLinkPage
    end.

(** The report of that audit. *)
Definition auditedLinkReport : AuditReport :=
  Eval vm_compute in
    match Live.auditAccessibility emptyLinkPage with
    | Normal (rep, _) => rep
    | Throw _ =>
        let none := {| total := 0; issues := []; passed := 0 |} in
        {| images := none; svg := none; links := none; headings := none;
           forms := none; contrast := none; colorblind := none;
           lang := none; landmarks := none; buttons := none |}
    end.

Definition clearedLinkPage : Live.Page :=
  Eval vm_compute in
    match Live.clearVisualFeedback auditedLinkPage with
    | Normal (_, p) => p
    | Throw _ => auditedLinkPage
    end.

End Marks.

Import Marks.

(** ** The popup and the report page, which read the report *)

Module Popup.









End Popup.

Module ReportPage.



End ReportPage.

(** ** More vocabulary *)

Module Filtering.



End Filtering.

Import Filtering.

(** ** Notations of a colour *)

Module Notations.

(** The text [#] followed by the given characters. *)
Definition hexText (digits : string) : string := String "#" digits.

(** The functional notation as a computed style gives it, the three
    channels written as the given texts. *)
Definition rgbText (red green blue : string) : string :=
  ("rgb(" ++ red ++ ", " ++ green ++ ", " ++ blue ++ ")")%string.

Definition rgbaText (red green blue alpha : string) : string :=
  ("rgba(" ++ red ++ ", " ++ green ++ ", " ++ blue ++ ", " ++ alpha ++ ")")%string.

(** A non-empty run of decimal digits. *)
Definition isNumeral (d : string) : Prop :=
  isEmpty d = false /\ JsString.forallb isDecimalDigit d = true.

(** The largest binary64 number below 1, which is 1 - 2^-53. *)
Definition largestBelowOne : Q := (2 ^ 53 - 1) # (2 ^ 53).

(** The number is at most the largest binary64 number below 1.  Rounding
    to the nearest binary64 number keeps the order, so that a decimal of
    this kind is read by [parseFloat] as a number below 1. *)
Definition readsBelowOne (x : jsfloat) : bool :=
  float_ge (FFin largestBelowOne) x.

End Notations.

Import Notations.

(** ** Identifiers written into a selector *)

Module Selectors.

(** The characters that do not stand for themselves between the
    quotation marks of a selector: the quotation mark, the backslash, the
    line breaks LF, FF and CR, and NUL. *)
Definition isSpecial (c : ascii) : bool :=
  let n := N_of_ascii c in
  ((n =? 34) || (n =? 92) || (n =? 10) || (n =? 12) || (n =? 13) || (n =? 0))%N.

(** An [id] that [checkForms] can write as it is into the selector of the
    label: none of its characters is special.  The selector is then valid
    and selects the [label] elements whose [for] attribute is the [id]. *)
Definition writtenAsIs (id : string) : bool :=
  JsString.forallb (fun c => negb (isSpecial c)) id.

End Selectors.

Import Selectors.

(** * Properties *)

(** ** Strings and numbers read from text *)

Example parseInt_decimal : parseInt "042" None = Some 42.
Proof. reflexivity. Qed.

Example parseInt_hex : parseInt "fF" (Some 16) = Some 255.
Proof. reflexivity. Qed.

Example parseInt_weight : parseInt " 700" None = Some 700.
Proof. reflexivity. Qed.

Example parseInt_nan : parseInt "bold" None = None.
Proof. reflexivity. Qed.

Example parseFloat_px :
  parseFloat "18.66px" = FFin ((1866 # 1) * / (100 # 1))%Q.
Proof. reflexivity. Qed.

Example parseFloat_dot : parseFloat "." = FNaN.
Proof. reflexivity. Qed.

Example trim_example : trim "  a b  " = "a b".
Proof. reflexivity. Qed.

Section StringLemmas.

Variable p : ascii -> bool.

Lemma takeWhile_forallb (s : string) :
  JsString.forallb p (takeWhile p s) = true.
Proof.
  induction s as [|c t IH]; simpl; [reflexivity|].
  destruct (p c) eqn:E; simpl; [now rewrite E|reflexivity].
Qed.

Lemma takeWhile_all (s : string) :
  JsString.forallb p s = true -> takeWhile p s = s.
Proof.
  induction s as [|c t IH]; simpl; [reflexivity|].
  intros H. apply andb_true_iff in H as [Hc Ht].
  now rewrite Hc, IH.
Qed.

End StringLemmas.

Lemma isRadixDigit_10 (c : ascii) : isRadixDigit 10 c = isDecimalDigit c.
Proof. destruct c as [[] [] [] [] [] [] [] []]; reflexivity. Qed.

Lemma digit_not_space (c : ascii) :
  isDecimalDigit c = true -> isWhiteSpace c = false.
Proof. destruct c as [[] [] [] [] [] [] [] []]; now try discriminate. Qed.

Lemma digitValue_decimal (c : ascii) :
  isDecimalDigit c = true -> exists v, digitValue c = Some v /\ 0 <= v <= 9.
Proof.
  destruct c as [[] [] [] [] [] [] [] []]; try discriminate; intros _;
    eexists; (split; [reflexivity|cbv; split; discriminate]).
Qed.

Lemma digitValue_range (c : ascii) (v : Z) :
  digitValue c = Some v -> 0 <= v <= 35.
Proof.
  destruct c as [[] [] [] [] [] [] [] []]; cbv; intros E;
    try discriminate; injection E as <-; split; discriminate.
Qed.

Lemma digitsValue_nonneg (radix : Z) (s : string) :
  0 <= radix -> forall acc, 0 <= acc -> 0 <= digitsValue radix acc s.
Proof.
  intros Hr. induction s as [|c t IH]; simpl; intros acc Hacc; [assumption|].
  destruct (digitValue c) as [v|] eqn:E; [|assumption].
  apply IH. apply digitValue_range in E. nia.
Qed.

(** [parseInt] on a non-empty run of decimal digits is the value of the
    run. *)
Lemma parseInt_digits (d : string) :
  isEmpty d = false ->
  JsString.forallb isDecimalDigit d = true ->
  parseInt d None = Some (digitsValue 10 0 d).
Proof.
  destruct d as [|c t]; [discriminate|]. intros _ H.
  simpl in H. apply andb_true_iff in H as [Hc Ht].
  assert (Htw : takeWhile (isRadixDigit 10) (String c t) = String c t).
  { apply takeWhile_all. simpl. rewrite !isRadixDigit_10, Hc. simpl.
    clear -Ht. induction t as [|x u IH]; [reflexivity|].
    simpl in *. apply andb_true_iff in Ht as [Hx Hu].
    now rewrite isRadixDigit_10, Hx, IH. }
  unfold parseInt, trimStart.
  cbn [dropWhile]. rewrite (digit_not_space c Hc).
  destruct t as [|x u].
  - destruct c as [[] [] [] [] [] [] [] []]; try discriminate; reflexivity.
  - simpl in Ht. apply andb_true_iff in Ht as [Hx Hu].
    destruct c as [[] [] [] [] [] [] [] []]; try discriminate;
      try (cbn -[takeWhile digitsValue Z.mul]; rewrite Htw;
           cbn -[digitsValue Z.mul];
           now destruct (digitsValue 10 0 _)).
    (* the run starts with the digit 0: the next digit is not an x *)
    destruct x as [[] [] [] [] [] [] [] []]; try discriminate;
      cbn -[takeWhile digitsValue Z.mul]; rewrite Htw;
      cbn -[digitsValue Z.mul];
      now destruct (digitsValue 10 0 _).
Qed.

(** ** The colour parser *)

Example parseColor_short_hex : parseColor "#fff" = mkColor 255 255 255.
Proof. reflexivity. Qed.

Example parseColor_upper_hex : parseColor "#FFFFFF" = mkColor 255 255 255.
Proof. reflexivity. Qed.

Example parseColor_green : parseColor "Green" = mkColor 0 128 0.
Proof. reflexivity. Qed.

Example parseColor_unclamped : parseColor "rgb(300, 0, 0)" = mkColor 300 0 0.
Proof. reflexivity. Qed.

Example parseColor_unanchored :
  parseColor "x rgba( 1 ,2,3 , 0.5 )"
  = Rgba {| r := Some 1; g := Some 2; b := Some 3; a := FFin (5 * / 10)%Q |}.
Proof. reflexivity. Qed.

Example parseColor_dangling_comma : parseColor "rgb(1,2,3,)" = Null.
Proof. reflexivity. Qed.

Example parseColor_alpha_nan :
  parseColor "rgba(1,2,3,.)"
  = Rgba {| r := Some 1; g := Some 2; b := Some 3; a := FNaN |}.
Proof. reflexivity. Qed.

Example parseColor_alpha_unclamped :
  exists q,
    parseColor "rgba(0, 0, 0, 2)"
    = Rgba {| r := Some 0; g := Some 0; b := Some 0; a := FFin q |}
    /\ (q == 2)%Q.
Proof. eexists. split; [reflexivity|vm_compute; reflexivity]. Qed.

Lemma digitRun_spec (s d rest : string) :
  digitRun s = Some (d, rest) ->
  isEmpty d = false /\ JsString.forallb isDecimalDigit d = true.
Proof.
  unfold digitRun. destruct (isEmpty (takeWhile isDecimalDigit s)) eqn:E;
    [discriminate|].
  intros [= <- _]. split; [assumption|apply takeWhile_forallb].
Qed.

Lemma alphaRun_spec (s d rest : string) :
  alphaRun s = Some (d, rest) ->
  isEmpty d = false /\ JsString.forallb isAlphaChar d = true.
Proof.
  unfold alphaRun. destruct (isEmpty (takeWhile isAlphaChar s)) eqn:E;
    [discriminate|].
  intros [= <- _]. split; [assumption|apply takeWhile_forallb].
Qed.

Ltac step_bind H :=
  match type of H with
  | bind ?e _ = Some _ =>
      let E := fresh "E" in
      destruct e as [?|] eqn:E; [cbn [bind] in H|discriminate H]
  | (match ?x with (_, _) => _ end) = Some _ => destruct x as [? ?]
  | (let _ := _ in _) = Some _ => cbv zeta in H
  end.

Lemma matchRgbAt_captures (s : string) (m : rgbMatch) :
  matchRgbAt s = Some m -> capturesOk m.
Proof.
  unfold matchRgbAt. intros H.
  repeat step_bind H.
  repeat match goal with
         | E : digitRun _ = Some _ |- _ => apply digitRun_spec in E
         end.
  assert (G : (group1 m = s4 /\ group2 m = s7 /\ group3 m = s10)
              /\ (group4 m = None
                  \/ exists x c4 rest,
                       alphaRun x = Some (c4, rest) /\ group4 m = Some c4)).
  { destruct (skipSpaces s11) as [|c u].
    - repeat step_bind H. injection H as <-. cbn. tauto.
    - destruct c as [[] [] [] [] [] [] [] []];
        repeat step_bind H; injection H as <-; cbn;
        (split; [tauto|]); (left; reflexivity) || (right; eauto). }
  unfold capturesOk. destruct G as [(-> & -> & ->) G4].
  split; [tauto|split; [tauto|split; [tauto|]]].
  intros t Ht. destruct G4 as [G4|(x & c4 & rest & Ha & G4)];
    rewrite G4 in Ht; [discriminate|].
  injection Ht as <-. apply alphaRun_spec in Ha. exact Ha.
Qed.

Lemma matchRgb_captures (s : string) (m : rgbMatch) :
  matchRgb s = Some m -> capturesOk m.
Proof.
  induction s as [|c t IH]; simpl.
  - discriminate.
  - destruct (matchRgbAt (String c t)) eqn:E.
    + intros [= <-]. eapply matchRgbAt_captures; eassumption.
    + exact IH.
Qed.

Lemma decimalLiteral_nonneg (s : string) : alphaNonNegative (decimalLiteral s).
Proof.
  unfold decimalLiteral.
  destruct (match dropWhile isDecimalDigit s with
            | String "."%char t => _ | _ => _ end) as [fp r2].
  destruct (_ && _); [exact I|].
  cbn [alphaNonNegative].
  apply Qmult_le_0_compat.
  - change 0%Q with (inject_Z 0). rewrite <- Zle_Qle.
    apply digitsValue_nonneg; lia.
  - apply Qpower_0_le. discriminate.
Qed.

Lemma parseFloat_alphaRun (t : string) :
  isEmpty t = false ->
  JsString.forallb isAlphaChar t = true ->
  alphaNonNegative (parseFloat t).
Proof.
  destruct t as [|c u]; [discriminate|]. intros _ H.
  simpl in H. apply andb_true_iff in H as [Hc _].
  assert (E : parseFloat (String c u) = decimalLiteral (String c u)).
  { destruct c as [[] [] [] [] [] [] [] []]; try discriminate Hc;
      reflexivity. }
  rewrite E. apply decimalLiteral_nonneg.
Qed.

Lemma hex_pair (c1 c2 : ascii) :
  isHexDigit c1 = true -> isHexDigit c2 = true ->
  channelInRange (parseInt (String c1 (String c2 EmptyString)) (Some 16)).
Proof.
  intros H1 H2.
  destruct c1 as [[] [] [] [] [] [] [] []]; try discriminate H1; clear H1;
    destruct c2 as [[] [] [] [] [] [] [] []]; try discriminate H2;
    (eexists; split; [reflexivity|cbv; split; discriminate]).
Qed.

Lemma matchHex_spec (s h : string) :
  matchHex s = Some h ->
  JsString.forallb isHexDigit h = true
  /\ (String.length h = 3%nat \/ String.length h = 6%nat).
Proof.
  unfold matchHex. destruct s as [|c t]; [discriminate|].
  destruct (Ascii.eqb c "#") eqn:Ec.
  - apply Ascii.eqb_eq in Ec. subst c.
    destruct (JsString.forallb isHexDigit t) eqn:Eh; [|discriminate].
    destruct (Nat.eqb (String.length t) 3) eqn:E3.
    + intros [= <-]. apply Nat.eqb_eq in E3. auto.
    + destruct (Nat.eqb (String.length t) 6) eqn:E6; [|discriminate].
      intros [= <-]. apply Nat.eqb_eq in E6. auto.
  - destruct c as [[] [] [] [] [] [] [] []]; try discriminate Ec;
      discriminate.
Qed.

Lemma colorMap_spec (key : string) (v : parsed) :
  colorMap key = Some v ->
  (exists x y z, v = mkColor x y z /\ 0 <= x <= 255 /\ 0 <= y <= 255
                 /\ 0 <= z <= 255)
  \/ (exists i, v = Inherited i).
Proof.
  unfold colorMap.
  repeat match goal with
         | |- (if ?c then _ else _) = _ -> _ => destruct c
         end; intros [= <-];
    (left; do 3 eexists; split; [reflexivity|lia]) || (right; eauto).
Qed.

Lemma one_inRange : alphaInRange Color.one.
Proof. exists 1%Q. repeat split; discriminate. Qed.

Lemma channel_digits (d : string) :
  isEmpty d = false /\ JsString.forallb isDecimalDigit d = true ->
  parseInt d None = Some (digitsValue 10 0 d) /\ 0 <= digitsValue 10 0 d.
Proof.
  intros [H1 H2]. split; [now apply parseInt_digits|].
  apply digitsValue_nonneg; lia.
Qed.

(** What [parseColor] returns on each of its three paths. *)
Lemma parseColor_rgb (s : string) (m : rgbMatch) :
  isEmpty s || String.eqb s "transparent" = false ->
  matchRgb s = Some m ->
  parseColor s =
  Rgba {| r := Some (digitsValue 10 0 (group1 m));
          g := Some (digitsValue 10 0 (group2 m));
          b := Some (digitsValue 10 0 (group3 m));
          a := match group4 m with
               | Some t => if isEmpty t then Color.one else parseFloat t
               | None => Color.one
               end |}.
Proof.
  intros Hg Hm. unfold parseColor. rewrite Hg, Hm.
  destruct (matchRgb_captures _ _ Hm) as (C1 & C2 & C3 & _).
  apply channel_digits in C1 as [-> _], C2 as [-> _], C3 as [-> _].
  reflexivity.
Qed.

Lemma parseColor_hex (s h : string) :
  matchRgb s = None -> matchHex s = Some h ->
  exists c, parseColor s = Rgba c /\ inRange c /\ a c = Color.one.
Proof.
  intros Hm Hh. unfold parseColor. rewrite Hm, Hh.
  assert (Hg : isEmpty s || String.eqb s "transparent" = false).
  { destruct s as [|x t]; [discriminate Hh|].
    destruct (String.eqb_spec (String x t) "transparent") as [E|];
      [rewrite E in Hh; discriminate Hh|reflexivity]. }
  rewrite Hg. apply matchHex_spec in Hh as [Hd Hl].
  eexists. split; [reflexivity|]. split; [|reflexivity].
  destruct Hl as [Hl|Hl].
  - destruct h as [|c1 [|c2 [|c3 [|? ?]]]]; try discriminate Hl.
    cbn in Hd. repeat (apply andb_true_iff in Hd as [? Hd]).
    unfold inRange; cbn. auto using hex_pair, one_inRange.
  - destruct h as [|c1 [|c2 [|c3 [|c4 [|c5 [|c6 [|? ?]]]]]]];
      try discriminate Hl.
    cbn in Hd. repeat (apply andb_true_iff in Hd as [? Hd]).
    unfold inRange; cbn. auto using hex_pair, one_inRange.
Qed.

Lemma parseColor_keyword (s : string) :
  isEmpty s || String.eqb s "transparent" = false ->
  matchRgb s = None -> matchHex s = None ->
  parseColor s = match colorMap (toLowerCase s) with
                 | Some v => v
                 | None => Null
                 end.
Proof. intros Hg Hm Hh. unfold parseColor. now rewrite Hg, Hm, Hh. Qed.

Lemma mkColor_inRange (x y z : Z) :
  0 <= x <= 255 -> 0 <= y <= 255 -> 0 <= z <= 255 ->
  forall c, mkColor x y z = Rgba c -> inRange c /\ a c = Color.one.
Proof.
  intros Hx Hy Hz c [= <-]. split; [|reflexivity].
  unfold inRange, channelInRange; cbn. eauto 10 using one_inRange.
Qed.

(** C7 (as amended).  A hexadecimal colour and each of the five names
    parse to a record whose channels are integers of [0, 255] and whose
    alpha is 1.  In functional notation nothing is clamped: a channel
    whose digits denote an integer of at most 2^53 is that integer,
    whatever its size; the alpha is 1 when no fourth component is
    written, and otherwise [NaN], a non-negative number or [+Infinity]. *)
Theorem C7_parseColor_record_ranges (s : string) (c : RGBAColor) :
  parseColor s = Rgba c ->
  (matchRgb s = None -> inRange c /\ a c = Color.one)
  /\ (forall m, matchRgb s = Some m ->
                (exactInteger (group1 m) ->
                 r c = Some (digitsValue 10 0 (group1 m))
                 /\ 0 <= digitsValue 10 0 (group1 m))
                /\ (exactInteger (group2 m) ->
                    g c = Some (digitsValue 10 0 (group2 m))
                    /\ 0 <= digitsValue 10 0 (group2 m))
                /\ (exactInteger (group3 m) ->
                    b c = Some (digitsValue 10 0 (group3 m))
                    /\ 0 <= digitsValue 10 0 (group3 m))
                /\ (group4 m = None -> a c = Color.one)
                /\ alphaNonNegative (a c)).
Proof.
  intros H.
  destruct (isEmpty s || String.eqb s "transparent") eqn:Hg.
  { unfold parseColor in H. rewrite Hg in H. discriminate. }
  destruct (matchRgb s) as [m|] eqn:Hm.
  - rewrite (parseColor_rgb s m Hg Hm) in H. injection H as <-.
    destruct (matchRgb_captures _ _ Hm) as (C1 & C2 & C3 & C4).
    apply channel_digits in C1 as [_ C1], C2 as [_ C2], C3 as [_ C3].
    split; [discriminate|]. intros ? [= <-]. cbn [r g b a].
    repeat split; try assumption.
    + now intros ->.
    + destruct (group4 m) as [t|] eqn:E4; [|cbn; discriminate].
      destruct (C4 t eq_refl) as [Ht1 Ht2]. rewrite Ht1.
      now apply parseFloat_alphaRun.
  - split; [|discriminate]. intros _.
    destruct (matchHex s) as [h|] eqn:Hh.
    + destruct (parseColor_hex s h Hm Hh) as (c' & E & G).
      rewrite E in H. now injection H as <-.
    + rewrite (parseColor_keyword s Hg Hm Hh) in H.
      destruct (colorMap (toLowerCase s)) as [v|] eqn:Ev; [|discriminate].
      apply colorMap_spec in Ev
          as [(x & y & z & -> & Hx & Hy & Hz)|(i & ->)]; [|discriminate].
      now apply (mkColor_inRange x y z).
Qed.

Lemma C7_parseColor_record_ranges_witness :
  parseColor "rgb(300, 0, 0)"
  = Rgba {| r := Some 300; g := Some 0; b := Some 0; a := Color.one |}
  /\ matchRgb "rgb(300, 0, 0)"
     = Some {| group1 := "300"; group2 := "0"; group3 := "0";
               group4 := None |}
  /\ exactInteger "300"
  /\ Some 300 = Some (digitsValue 10 0 "300")
  /\ 0 <= digitsValue 10 0 "300".
Proof.
  split; [reflexivity|]. split; [reflexivity|].
  assert (E : exactInteger "300") by (apply Z.leb_le; reflexivity).
  split; [exact E|].
  exact (proj1 (proj2 (C7_parseColor_record_ranges "rgb(300, 0, 0)"
                         {| r := Some 300; g := Some 0; b := Some 0;
                            a := Color.one |} eq_refl)
                      {| group1 := "300"; group2 := "0"; group3 := "0";
                         group4 := None |} eq_refl) E).
Defined.

(** C7 as the specification states it fails: the channels written in
    functional notation are not clamped. *)
Lemma C7_counterexample :
  ~ (parseColor "rgb(300, 0, 0)" <> Null ->
     validColor (parseColor "rgb(300, 0, 0)")).
Proof.
  intros H. assert (G := H ltac:(discriminate)).
  destruct G as [(z & E & Hz) _]. injection E as <-. lia.
Qed.

(** The three writings of white, and the two texts the specification
    names as unparseable. *)
Lemma parseColor_white_forms :
  parseColor "#fff" = mkColor 255 255 255
  /\ parseColor "#ffffff" = mkColor 255 255 255
  /\ parseColor "white" = mkColor 255 255 255
  /\ parseColor "transparent" = Null
  /\ parseColor "not-a-color" = Null.
Proof. repeat split. Qed.

Lemma colorMap_undefined (key : string) :
  ~ In key ownKeys -> ~ In key inheritedKeys -> colorMap key = None.
Proof.
  intros Ho Hi. unfold colorMap.
  repeat match goal with
         | |- (if String.eqb ?k ?l then _ else _) = _ =>
             destruct (String.eqb_spec k l) as [E|_];
             [exfalso; (apply Ho; rewrite E; cbn; tauto)
                       || (apply Hi; rewrite E; cbn; tauto)|]
         end.
  reflexivity.
Qed.

(** A text that neither pattern matches and whose lower-case form is
    neither a name of the table nor an inherited key parses to [null]. *)
Lemma parseColor_unknown_keyword (s : string) :
  matchRgb s = None -> matchHex s = None ->
  ~ In (toLowerCase s) ownKeys -> ~ In (toLowerCase s) inheritedKeys ->
  parseColor s = Null.
Proof.
  intros Hm Hh Ho Hi. unfold parseColor. rewrite Hm, Hh.
  rewrite (colorMap_undefined _ Ho Hi). now destruct (_ || _).
Qed.

(** C8 (the code at the failing input).  The text [constructor] is
    matched by neither pattern and is not a name of the five-entry table,
    yet [parseColor] does not return [null] for it: the lookup in the
    table finds the property that the object literal inherits from
    [Object.prototype]. *)
Theorem C8_inherited_key_is_not_null :
  matchRgb "constructor" = None
  /\ matchHex "constructor" = None
  /\ ~ In (toLowerCase "constructor") ownKeys
  /\ parseColor "constructor" = Inherited ObjectConstructor
  /\ parseColor "constructor" <> Null.
Proof.
  repeat split; try discriminate.
  cbn. intros H. repeat destruct H as [H|H]; try discriminate H; exact H.
Qed.

(** ** Luminance and contrast *)

Lemma getRGBLuminance_zero : getRGBLuminance (Num 0) = Num 0.
Proof.
  unfold getRGBLuminance, RGB_MAX_VALUE, SRGB_THRESHOLD, SRGB_LINEAR_DIVISOR.
  destruct (Rle_dec _ _) as [_|n]; [f_equal; lra|exfalso; apply n; lra].
Qed.

Lemma Rpower_base_one (y : R) : Rpower 1 y = 1%R.
Proof. unfold Rpower. now rewrite ln_1, Rmult_0_r, exp_0. Qed.

Lemma getRGBLuminance_max : getRGBLuminance (Num 255) = Num 1.
Proof.
  unfold getRGBLuminance, RGB_MAX_VALUE, SRGB_THRESHOLD, SRGB_OFFSET,
    SRGB_GAMMA_DIVISOR.
  destruct (Rle_dec _ _) as [l|_]; [exfalso; lra|].
  f_equal. replace ((255 / 255 + 0.055) / 1.055)%R with 1%R by lra.
  apply Rpower_base_one.
Qed.

Lemma getRelativeLuminance_black :
  getRelativeLuminance (Num 0) (Num 0) (Num 0) = Num 0.
Proof.
  unfold getRelativeLuminance. rewrite getRGBLuminance_zero. cbn.
  f_equal. lra.
Qed.

Lemma getRelativeLuminance_white :
  getRelativeLuminance (Num 255) (Num 255) (Num 255) = Num 1.
Proof.
  unfold getRelativeLuminance. rewrite getRGBLuminance_max. cbn.
  unfold LUMINANCE_RED_COEFFICIENT, LUMINANCE_GREEN_COEFFICIENT,
    LUMINANCE_BLUE_COEFFICIENT. f_equal. lra.
Qed.

(** The luminance of a non-negative channel is a non-negative number. *)
Lemma getRGBLuminance_nonneg (c : R) :
  (0 <= c)%R -> exists l, getRGBLuminance (Num c) = Num l /\ (0 <= l)%R.
Proof.
  intros Hc. unfold getRGBLuminance. eexists. split; [reflexivity|].
  destruct (Rle_dec _ _) as [_|_].
  - unfold RGB_MAX_VALUE, SRGB_LINEAR_DIVISOR.
    apply Rmult_le_pos; [apply Rmult_le_pos; [assumption|]|]; lra.
  - left. apply exp_pos.
Qed.

Lemma getRelativeLuminance_nonneg (x y z : R) :
  (0 <= x)%R -> (0 <= y)%R -> (0 <= z)%R ->
  exists l, getRelativeLuminance (Num x) (Num y) (Num z) = Num l /\ (0 <= l)%R.
Proof.
  intros Hx Hy Hz. unfold getRelativeLuminance.
  destruct (getRGBLuminance_nonneg x Hx) as (lx & -> & Hlx).
  destruct (getRGBLuminance_nonneg y Hy) as (ly & -> & Hly).
  destruct (getRGBLuminance_nonneg z Hz) as (lz & -> & Hlz).
  cbn. eexists. split; [reflexivity|].
  unfold LUMINANCE_RED_COEFFICIENT, LUMINANCE_GREEN_COEFFICIENT,
    LUMINANCE_BLUE_COEFFICIENT. nra.
Qed.

Lemma lift2_comm (f : R -> R -> R) :
  (forall u v, f u v = f v u) -> forall x y, lift2 f x y = lift2 f y x.
Proof. intros Hf [|u] [|v]; cbn; try reflexivity. now rewrite Hf. Qed.

Lemma calculateContrastRatio_sym (x y : string) :
  calculateContrastRatio x y = calculateContrastRatio y x.
Proof.
  unfold calculateContrastRatio.
  rewrite (orb_comm (falsy (parseColor x))).
  unfold Contrast.max, Contrast.min.
  rewrite (lift2_comm Rmax Rmax_comm), (lift2_comm Rmin Rmin_comm).
  reflexivity.
Qed.

(** The luminance of a record with non-negative channels. *)
Lemma luminance_of_record (c : RGBAColor) :
  channelNonNegative (r c) -> channelNonNegative (g c) ->
  channelNonNegative (b c) ->
  exists l,
    getRelativeLuminance (channel r (Rgba c)) (channel g (Rgba c))
                         (channel b (Rgba c)) = Num l
    /\ (0 <= l)%R.
Proof.
  intros (x & Ex & Hx) (y & Ey & Hy) (z & Ez & Hz).
  cbn. rewrite Ex, Ey, Ez. cbn.
  apply getRelativeLuminance_nonneg; now apply IZR_le.
Qed.

Lemma inRange_nonneg (c : RGBAColor) :
  inRange c ->
  channelNonNegative (r c) /\ channelNonNegative (g c)
  /\ channelNonNegative (b c).
Proof.
  intros ((x & Ex & Hx) & (y & Ey & Hy) & (z & Ez & Hz) & _).
  unfold channelNonNegative. repeat split; eexists; (split; [eassumption|lia]).
Qed.

Lemma calculateContrastRatio_self (x : string) :
  validColor (parseColor x) -> calculateContrastRatio x x = Num 1.
Proof.
  unfold validColor, calculateContrastRatio.
  destruct (parseColor x) as [|c|]; try contradiction. intros H.
  apply inRange_nonneg in H as (Hr & Hg & Hb).
  destruct (luminance_of_record c Hr Hg Hb) as (l & -> & Hl).
  cbn. unfold CONTRAST_OFFSET. f_equal.
  rewrite Rmax_left, Rmin_left by lra. field. lra.
Qed.

Lemma calculateContrastRatio_black_white :
  calculateContrastRatio "#000000" "#ffffff" = Num 21.
Proof.
  unfold calculateContrastRatio.
  change (parseColor "#000000") with (mkColor 0 0 0).
  change (parseColor "#ffffff") with (mkColor 255 255 255).
  cbn [falsy mkColor orb channel ofInt r g b].
  rewrite getRelativeLuminance_black, getRelativeLuminance_white.
  cbn. unfold CONTRAST_OFFSET. f_equal.
  rewrite Rmax_right, Rmin_left by lra. lra.
Qed.

(** C9.  The contrast ratio is symmetric in its two arguments; it is 1
    for a colour against itself, for every text that parses to an
    [RGBAColor] of the data model; it is 21 for black on white, the
    relative luminance of black being 0 and that of white 1.  Numbers are
    real numbers here: the equalities are exact. *)
Theorem C9_contrast_ratio_symmetric_and_normalised :
  (forall x y, calculateContrastRatio x y = calculateContrastRatio y x)
  /\ (forall x, validColor (parseColor x) ->
                calculateContrastRatio x x = Num 1)
  /\ calculateContrastRatio "#000000" "#ffffff" = Num 21
  /\ getRelativeLuminance (Num 0) (Num 0) (Num 0) = Num 0
  /\ getRelativeLuminance (Num 255) (Num 255) (Num 255) = Num 1.
Proof.
  split; [exact calculateContrastRatio_sym|].
  split; [exact calculateContrastRatio_self|].
  split; [exact calculateContrastRatio_black_white|].
  split; [exact getRelativeLuminance_black|exact getRelativeLuminance_white].
Qed.

Lemma C9_contrast_ratio_witness :
  validColor (parseColor "rgb(10, 20, 255)")
  /\ calculateContrastRatio "rgb(10, 20, 255)" "rgb(10, 20, 255)" = Num 1.
Proof.
  assert (V : validColor (parseColor "rgb(10, 20, 255)")).
  { change (parseColor "rgb(10, 20, 255)") with (mkColor 10 20 255).
    cbn. unfold inRange, channelInRange; cbn.
    repeat split; try (eexists; split; [reflexivity|lia]).
    apply one_inRange. }
  split; [exact V|].
  exact (proj1 (proj2 C9_contrast_ratio_symmetric_and_normalised) _ V).
Defined.

(** ** The contrast detector *)

Lemma lt_true (x y : number) :
  lt x y = true -> exists u v, x = Num u /\ y = Num v /\ (u < v)%R.
Proof.
  destruct x as [|u], y as [|v]; cbn; try discriminate.
  destruct (Rlt_dec u v); [eauto|discriminate].
Qed.

Lemma belowMinimum_spec (ratio : number) (minimum : R) :
  belowMinimum ratio minimum = true ->
  exists x, ratio = Num x /\ (0 < x < minimum)%R.
Proof.
  unfold belowMinimum. intros H. apply andb_true_iff in H as [H1 H2].
  apply lt_true in H1 as (u & v & [= <-] & -> & H1).
  apply lt_true in H2 as (u' & v' & [= <-] & [= <-] & H2).
  eauto.
Qed.

Lemma calculateContrastRatio_null (fgColor bgColor : string) :
  parseColor fgColor = Null \/ parseColor bgColor = Null ->
  calculateContrastRatio fgColor bgColor = Num 0.
Proof.
  unfold calculateContrastRatio. intros [-> | ->]; cbn; [reflexivity|].
  now rewrite orb_true_r.
Qed.

Lemma lift2_NaN_r (f : R -> R -> R) (x : number) : lift2 f x NaN = NaN.
Proof. now destruct x. Qed.

(** Without two records the ratio is the sentinel 0 or [NaN]. *)
Lemma calculateContrastRatio_not_record (fgColor bgColor : string) :
  ~ isRecord (parseColor fgColor) \/ ~ isRecord (parseColor bgColor) ->
  calculateContrastRatio fgColor bgColor = Num 0
  \/ calculateContrastRatio fgColor bgColor = NaN.
Proof.
  unfold calculateContrastRatio, isRecord.
  destruct (parseColor fgColor) as [|cf|vf], (parseColor bgColor) as [|cb|vb];
    cbn [falsy orb]; intros [H|H]; auto;
    try (exfalso; apply H; eauto; fail); right; cbn;
    unfold Contrast.max, Contrast.min, Contrast.add, Contrast.div;
    now rewrite ?lift2_NaN_r.
Qed.

Lemma processContrastElement_spec (el : TextElement) (issueIndex : Z)
      (i : Issue) :
  processContrastElement el issueIndex = Some i -> ratioBelowMinimum el.
Proof.
  unfold processContrastElement, ratioBelowMinimum.
  destruct (_ || _); [discriminate|].
  destruct (semiTransparent _); [discriminate|].
  destruct (belowMinimum _ _) eqn:E; [|discriminate]. intros _.
  apply belowMinimum_spec in E as (x & E & Hx). eauto.
Qed.

Lemma processContrastElement_not_record (el : TextElement) (issueIndex : Z) :
  ~ isRecord (parseColor (color el))
  \/ ~ isRecord (parseColor (backgroundColor el)) ->
  processContrastElement el issueIndex = None.
Proof.
  intros H.
  destruct (processContrastElement el issueIndex) as [i|] eqn:E;
    [|reflexivity].
  apply processContrastElement_spec in E as (x & E & Hx & _).
  apply calculateContrastRatio_not_record in H as [H|H];
    rewrite H in E; [injection E as <-; lra|discriminate].
Qed.

Lemma checkContrast_forEach_spec (l : list TextElement) :
  forall (issueIndex : Z) (i : Issue),
    In i (checkContrast_forEach l issueIndex) ->
    exists el k, In el l /\ processContrastElement el k = Some i.
Proof.
  induction l as [|el rest IH]; cbn; intros k i H; [contradiction|].
  destruct (processContrastElement el k) as [j|] eqn:E.
  - destruct H as [<-|H]; [eauto|].
    destruct (IH _ _ H) as (el' & k' & ? & ?). eauto.
  - destruct (IH _ _ H) as (el' & k' & ? & ?). eauto.
Qed.

Lemma not_record_null (p : parsed) : p = Null -> ~ isRecord p.
Proof. intros -> [c H]. discriminate. Qed.

Lemma getRGBLuminance_linear (c : R) :
  (c <= 10)%R -> getRGBLuminance (Num c) = Num (c / 255 / 12.92).
Proof.
  intros Hc. unfold getRGBLuminance, RGB_MAX_VALUE, SRGB_THRESHOLD,
    SRGB_LINEAR_DIVISOR.
  destruct (Rle_dec _ _) as [_|n]; [reflexivity|exfalso; apply n; lra].
Qed.

Lemma belowMinimum_intro (x minimum : R) :
  (0 < x < minimum)%R -> belowMinimum (Num x) minimum = true.
Proof.
  intros [H1 H2]. unfold belowMinimum, lt.
  destruct (Rlt_dec 0 x); [|contradiction].
  destruct (Rlt_dec x minimum); [reflexivity|contradiction].
Qed.

Lemma ratio_black_on_dark :
  calculateContrastRatio "rgb(0, 0, 0)" "rgb(10, 10, 10)"
  = Num ((10 / 255 / 12.92 + 0.05) / 0.05).
Proof.
  unfold calculateContrastRatio.
  change (parseColor "rgb(0, 0, 0)") with (mkColor 0 0 0).
  change (parseColor "rgb(10, 10, 10)") with (mkColor 10 10 10).
  cbn [falsy mkColor orb channel ofInt r g b].
  unfold getRelativeLuminance. rewrite !getRGBLuminance_linear by lra.
  cbn. unfold CONTRAST_OFFSET, LUMINANCE_RED_COEFFICIENT,
    LUMINANCE_GREEN_COEFFICIENT, LUMINANCE_BLUE_COEFFICIENT.
  f_equal. rewrite Rmax_right, Rmin_left by lra. lra.
Qed.

(** Black text on a nearly black background is flagged. *)
Example processContrastElement_dark_on_dark :
  exists i,
    processContrastElement (paragraph "rgb(0, 0, 0)" "rgb(10, 10, 10)") 0
    = Some i.
Proof.
  unfold processContrastElement.
  set (el := paragraph "rgb(0, 0, 0)" "rgb(10, 10, 10)").
  change (color el) with "rgb(0, 0, 0)".
  change (backgroundColor el) with "rgb(10, 10, 10)".
  change (isEmpty "rgb(10, 10, 10)"
          || String.eqb "rgb(10, 10, 10)" "transparent"
          || String.eqb "rgb(10, 10, 10)" "rgba(0, 0, 0, 0)") with false.
  change (semiTransparent (parseColor "rgb(10, 10, 10)")) with false.
  change (isLargeText (parseFloat (fontSize el)) (fontWeight el)) with false.
  cbv iota.
  rewrite ratio_black_on_dark. rewrite belowMinimum_intro; [eauto|].
  unfold minimumRatio, CONTRAST_RATIO_NORMAL_TEXT. lra.
Qed.

(** When [parseColor] returns [null] for one of the two texts the ratio
    is the sentinel 0; an element gets a contrast issue only when its
    ratio is strictly above 0 and strictly below the minimum for its text
    size; an element one of whose colours does not parse to a record is
    given no issue, and every issue that [checkContrast] reports comes
    from an evaluated element whose ratio passes that test. *)
Lemma contrast_issues_need_two_records :
  (forall fgColor bgColor,
      parseColor fgColor = Null \/ parseColor bgColor = Null ->
      calculateContrastRatio fgColor bgColor = Num 0)
  /\ (forall el issueIndex i,
         processContrastElement el issueIndex = Some i ->
         ratioBelowMinimum el)
  /\ (forall el issueIndex,
         ~ isRecord (parseColor (color el))
         \/ ~ isRecord (parseColor (backgroundColor el)) ->
         processContrastElement el issueIndex = None)
  /\ (forall document i,
         In i (issues (checkContrast document)) ->
         exists el, In el (textElements document) /\ ratioBelowMinimum el
                    /\ isRecord (parseColor (color el))
                    /\ isRecord (parseColor (backgroundColor el))).
Proof.
  split; [exact calculateContrastRatio_null|].
  split; [exact processContrastElement_spec|].
  split; [exact processContrastElement_not_record|].
  intros document i H. cbn in H.
  apply checkContrast_forEach_spec in H as (el & k & Hin & E).
  exists el. split; [assumption|].
  split; [eapply processContrastElement_spec; eassumption|].
  split.
  - destruct (parseColor (color el)) as [|c|v] eqn:P;
      [| now exists c |];
      rewrite processContrastElement_not_record in E; try discriminate;
      left; rewrite P; intros [c H]; discriminate.
  - destruct (parseColor (backgroundColor el)) as [|c|v] eqn:P;
      [| now exists c |];
      rewrite processContrastElement_not_record in E; try discriminate;
      right; rewrite P; intros [c H]; discriminate.
Qed.


(** ** The heading detector *)

Lemma parseInt_level (t : HeadingTag) :
  parseInt (slice1 (tagName t)) None = Some (level t).
Proof. destruct t; reflexivity. Qed.

Lemma level_positive (t : HeadingTag) : 0 < level t.
Proof. destruct t; reflexivity. Qed.

Lemma checkHeadings_forEach_summary (hs : list Heading) :
  forall (index issueIndex : Z) (previous : option Z),
    (forall p, previous = Some p -> 0 < p) ->
    map summary
        (checkHeadings_forEach hs index (previousLevel previous) issueIndex)
    = perHeadingSpec previous hs.
Proof.
  induction hs as [|h rest IH]; intros index issueIndex previous Hp;
    [reflexivity|].
  cbn [checkHeadings_forEach perHeadingSpec].
  rewrite parseInt_level. rewrite !map_app.
  change (Some (level (heading_tag h)))
    with (previousLevel (Some (levelOf h))).
  rewrite IH by (intros p [= <-]; apply level_positive).
  f_equal; [|f_equal].
  - destruct previous as [p|]; cbn.
    + specialize (Hp p eq_refl). apply Z.ltb_lt in Hp. rewrite Hp. cbn.
      unfold levelOf. now destruct (1 <? _).
    + reflexivity.
  - now destruct (isEmpty _).
Qed.

Lemma structureIssues_summary (n : Z) :
  map summary (structureIssues n) = pageLevelSpec n.
Proof.
  unfold structureIssues, pageLevelSpec.
  destruct (n =? 0); [reflexivity|]. now destruct (1 <? n).
Qed.

Lemma checkHeadings_summary (document : Document) :
  map summary (issues (checkHeadings document))
  = pageLevelSpec (h1Count (query_headings document))
    ++ perHeadingSpec None (query_headings document).
Proof.
  cbn. rewrite map_app, structureIssues_summary.
  now rewrite (checkHeadings_forEach_summary _ 0 0 None) by discriminate.
Qed.

(** On the document as [checkHeadings] reads it, the messages and
    severities of its issues are, in order: the page-level issue (one
    high issue when the page has no [h1], one medium issue when it has
    more than one, none otherwise), then for each heading in document
    order a medium issue when its level exceeds that of the heading just
    before by more than one and a high issue when its trimmed text is
    empty.  So [H1, H3] gives exactly one skip issue, from 1 to 3;
    [H1, H2, H3] gives none; and two [h1] give exactly one page-level
    issue, the one for several [h1]. *)
Lemma checkHeadings_follows_the_rules_on_what_it_reads :
  (forall document,
      map summary (issues (checkHeadings document))
      = pageLevelSpec (h1Count (query_headings document))
        ++ perHeadingSpec None (query_headings document))
  /\ map summary
         (filter isSkipIssue
                 (issues (checkHeadings (page [heading H1 "a"; heading H3 "b"]))))
     = [(Saut_de_niveau_de_titre (Some 1) (Some 3), moyenne)]
  /\ filter isSkipIssue
            (issues (checkHeadings
                       (page [heading H1 "a"; heading H2 "b"; heading H3 "c"])))
     = []
  /\ map summary
         (filter isPageLevel
                 (issues (checkHeadings (page [heading H1 "a"; heading H1 "b"]))))
     = [(Plusieurs_titres_H1 2, moyenne)]
  /\ map summary (issues (checkHeadings (page [heading H1 "a"; heading H1 "b"])))
     = [(Plusieurs_titres_H1 2, moyenne)].
Proof.
  split; [exact checkHeadings_summary|].
  repeat split.
Qed.

(** C4 (the code at the failing input).  The page holds one heading, an
    [h1] with an image without [alt] in it and no text.  The trimmed text
    of the heading is empty, so that the rules give one issue, the high
    issue of an empty heading.  The audit reports no issue of headings:
    [checkImages], which runs before [checkHeadings], appends its badge
    to the parent of the image, which is the heading, and
    [checkHeadings] reads the text of the badge as text of the heading. *)
Theorem C4_badge_text_hides_an_empty_heading :
  map heading_textContent (query_headings (Live.snapshot logoHeadingPage))
  = [EmptyString]
  /\ pageLevelSpec (h1Count (query_headings (Live.snapshot logoHeadingPage)))
     ++ perHeadingSpec None (query_headings (Live.snapshot logoHeadingPage))
     = [(Titre_vide, elevee)]
  /\ exists rep p,
       Live.auditAccessibility logoHeadingPage = Normal (rep, p)
       /\ total (headings rep) = 1
       /\ issues (headings rep) = []
       /\ len (issues (images rep)) = 1
       /\ map heading_textContent (query_headings (Live.snapshot p))
          = ["?? ALT MANQUANT"].
Proof.
  split; [reflexivity|]. split; [reflexivity|].
  eexists _, _. split; [vm_compute; reflexivity|].
  repeat split.
Qed.

Lemma isSkip_spec (p l : Z) :
  isSkip (Some p) (Some l) = true <-> 0 < p /\ 1 < l - p.
Proof.
  unfold isSkip. rewrite andb_true_iff, !Z.ltb_lt. reflexivity.
Qed.

(** Where a skip issue of the loop comes from: the first heading of the
    list when the loop starts with the level of a heading before it, or
    two neighbours of the list. *)
Lemma checkHeadings_forEach_skip (hs : list Heading) :
  forall (index issueIndex : Z) (previous : option Z) (i : Issue),
    In i (checkHeadings_forEach hs index previous issueIndex) ->
    isSkipIssue i = true ->
    (exists h post p,
        hs = h :: post /\ previous = Some p /\ 0 < p
        /\ 1 < levelOf h - p
        /\ issue i = Saut_de_niveau_de_titre (Some p) (Some (levelOf h))
        /\ element i = Bare (tagName (heading_tag h))
        /\ severity i = moyenne)
    \/ (exists pre ph h post,
           hs = pre ++ ph :: h :: post /\ skipBetween i ph h).
Proof.
  induction hs as [|h rest IH]; intros index issueIndex previous i Hin Hs;
    [contradiction|].
  cbn [checkHeadings_forEach] in Hin. rewrite parseInt_level in Hin.
  apply in_app_or in Hin as [Hin|Hin]; [|apply in_app_or in Hin as [Hin|Hin]].
  - left. destruct (isSkip previous (Some (level (heading_tag h)))) eqn:E;
      [|contradiction].
    destruct Hin as [<-|[]].
    destruct previous as [p|]; [|discriminate E].
    apply isSkip_spec in E as [Hp Hl].
    exists h, rest, p. cbn. auto 10.
  - destruct (isEmpty _); [|contradiction].
    destruct Hin as [<-|[]]. discriminate Hs.
  - right. destruct (IH _ _ _ _ Hin Hs)
      as [(h' & post & p & -> & [= <-] & Hp & Hl & G)
         |(pre & ph & h' & post & -> & G)].
    + exists [], h, h', post. split; [reflexivity|].
      unfold skipBetween, levelOf. tauto.
    + exists (h :: pre), ph, h', post. split; [reflexivity|assumption].
Qed.

Lemma structureIssues_not_skip (n : Z) (i : Issue) :
  In i (structureIssues n) -> isSkipIssue i = false.
Proof.
  unfold structureIssues.
  destruct (n =? 0); [intros [<-|[]]; reflexivity|].
  destruct (1 <? n); [intros [<-|[]]; reflexivity|contradiction].
Qed.

(** C10.  A skip issue of [checkHeadings] always concerns two
    neighbouring headings of the page, the second more than one level
    above the first: the first heading of the page has no such issue
    whatever its level (the test needs a previous level above 0, and the
    loop starts at 0), and a heading whose level is equal to or lower
    than that of the heading before has none either. *)
Theorem C10_skip_needs_an_upward_jump :
  (forall document i,
      In i (issues (checkHeadings document)) ->
      isSkipIssue i = true ->
      exists pre ph h post,
        query_headings document = pre ++ ph :: h :: post
        /\ skipBetween i ph h)
  /\ (forall first, isSkip (Some 0) first = false)
  /\ (forall p l, l <= p -> isSkip (Some p) (Some l) = false)
  /\ (forall t text,
         filter isSkipIssue
                (issues (checkHeadings (page [heading t text]))) = [])
  /\ filter isSkipIssue
            (issues (checkHeadings (page [heading H4 "a"; heading H2 "b"])))
     = [].
Proof.
  split; [|split; [|split; [|split]]].
  - intros document i Hin Hs. cbn in Hin.
    apply in_app_or in Hin as [Hin|Hin].
    + apply structureIssues_not_skip in Hin. congruence.
    + apply (checkHeadings_forEach_skip _ _ _ _ _ Hin) in Hs
        as [(h & post & p & _ & [= <-] & Hp & _)|G]; [lia|exact G].
  - now intros [l|].
  - intros p l H. unfold isSkip.
    destruct (1 <? l - p) eqn:E; [apply Z.ltb_lt in E; lia|].
    now rewrite andb_false_r.
  - intros t text. cbn. destruct t; cbn; now destruct (isEmpty _).
  - reflexivity.
Qed.

Lemma C10_skip_needs_an_upward_jump_witness :
  exists pre ph h post,
    [heading H1 "a"; heading H3 "b"] = pre ++ ph :: h :: post
    /\ skipBetween (skipIssue (heading H3 "b") (Some 1) (Some 3) 0) ph h.
Proof.
  apply (proj1 C10_skip_needs_an_upward_jump
               (page [heading H1 "a"; heading H3 "b"])).
  - cbn. left. reflexivity.
  - reflexivity.
Defined.

(** ** The language detector *)

Lemma checkLanguage_without_root (document : Document) :
  query_html document = None -> checkLanguage document = Throw TypeError.
Proof. unfold checkLanguage. now intros ->. Qed.

Lemma checkLanguage_with_root (document : Document) (htmlElement : Html) :
  query_html document = Some htmlElement ->
  exists res, checkLanguage document = Normal res.
Proof. unfold checkLanguage. intros ->. eauto. Qed.

(** C5 (the code at the failing input).  On a document without an
    [html] element [checkLanguage] does not return a category result: the
    call of [hasAttribute] on [null] throws, and the exception leaves
    [auditAccessibility] too. *)
Theorem C5_checkLanguage_throws_without_root :
  query_html rootless = None
  /\ checkLanguage rootless = Throw TypeError
  /\ auditAccessibility rootless = Throw TypeError.
Proof. repeat split. Qed.

(** C6 (as amended).  On a document with an [html] element the language
    detector reports one high issue exactly when the element has no
    [lang] attribute; a [lang] attribute that is present gives no issue,
    whatever its value, the empty string included; the total is 1. *)
Theorem C6_lang_is_flagged_only_when_absent
        (document : Document) (htmlElement : Html) :
  query_html document = Some htmlElement ->
  (html_lang htmlElement = None ->
   checkLanguage document = Normal (result 1 [langIssue]))
  /\ (forall value, html_lang htmlElement = Some value ->
                    checkLanguage document = Normal (result 1 []))
  /\ (exists res, checkLanguage document = Normal res /\ total res = 1).
Proof.
  unfold checkLanguage. intros ->. repeat split.
  - now intros ->.
  - now intros value ->.
  - eexists. split; reflexivity.
Qed.

Lemma C6_lang_is_flagged_only_when_absent_witness :
  query_html (langPage (Some EmptyString))
  = Some {| html_lang := Some EmptyString |}
  /\ checkLanguage (langPage (Some EmptyString)) = Normal (result 1 []).
Proof.
  split; [reflexivity|].
  apply (proj1 (proj2 (C6_lang_is_flagged_only_when_absent
                         (langPage (Some EmptyString))
                         {| html_lang := Some EmptyString |} eq_refl))
               EmptyString).
  reflexivity.
Defined.

(** C6 as the specification states it fails: an empty [lang] attribute
    is not reported, while an absent one is. *)
Lemma C6_counterexample :
  checkLanguage (langPage None) = Normal (result 1 [langIssue])
  /\ ~ (exists i, checkLanguage (langPage (Some EmptyString))
                  = Normal (result 1 [i])
                  /\ severity i = elevee).
Proof.
  split; [reflexivity|]. intros (i & H & _). discriminate H.
Qed.

(** ** The counts of the category results *)

Lemma len_nil {A : Type} : len (@nil A) = 0.
Proof. reflexivity. Qed.

Lemma len_cons {A : Type} (x : A) (l : list A) : len (x :: l) = len l + 1.
Proof. unfold len. cbn [List.length]. lia. Qed.

Lemma len_app {A : Type} (l l' : list A) : len (l ++ l') = len l + len l'.
Proof. unfold len. rewrite length_app. lia. Qed.


Lemma result_countsAgree (n : Z) (l : list Issue) : countsAgree (result n l).
Proof. reflexivity. Qed.






Lemma checkContrast_forEach_length (l : list TextElement) :
  forall issueIndex, len (checkContrast_forEach l issueIndex) <= len l.
Proof.
  induction l as [|x t IH]; intros issueIndex; cbn [checkContrast_forEach];
    [reflexivity|].
  destruct (processContrastElement _ _); rewrite ?len_cons;
    [specialize (IH (issueIndex + 1))|specialize (IH issueIndex)]; lia.
Qed.












(** C1 (the code at the failing input).  On a page without any heading
    the audit returns normally and its headings result has a total of 0,
    one issue (the page has no [h1]) and [passed = -1]: the issues exceed
    the total. *)
Theorem C1_headings_issues_exceed_total :
  (exists rep, auditAccessibility (page []) = Normal rep
               /\ headings rep = checkHeadings (page []))
  /\ checkHeadings (page [])
     = {| total := 0; issues := [noH1Issue]; passed := -1 |}
  /\ ~ withinTotal (checkHeadings (page [])).
Proof.
  split; [eexists; split; reflexivity|].
  split; [reflexivity|]. unfold withinTotal, len. cbn. lia.
Qed.

(** One heading can also bring two issues. *)
Example headings_two_issues_for_one_heading :
  let res := checkHeadings (page [heading H1 "a"; heading H3 " "]) in
  total res = 2 /\ len (issues res) = 2 /\ passed res = 0.
Proof. repeat split. Qed.

(** ** The live audit *)

(** On the page with one empty link the first report of the live audit is
    the report of the detectors on the views of the page as it is before
    the run. *)
Example live_audit_agrees_with_detectors :
  exists rep p,
    Live.auditAccessibility emptyLinkPage = Normal (rep, p)
    /\ Detectors.auditAccessibility (Live.snapshot emptyLinkPage) = Normal rep.
Proof. eexists _, _. split; vm_compute; reflexivity. Qed.

(** The views are those of the document as it is when a detector reads
    it, marks of the detectors before it included: the badge that
    [checkImages] puts next to an image without [alt] is text of the
    button that holds the image, so that [checkButtons], which runs last,
    finds the button named; on the page as it was before the run the
    button has no text. *)
Example badge_text_is_read_by_later_detectors :
  (exists rep p,
      Live.auditAccessibility iconButtonPage = Normal (rep, p)
      /\ len (issues (buttons rep)) = 0)
  /\ len (issues (Detectors.checkButtons (Live.snapshot iconButtonPage))) = 1.
Proof.
  split; [eexists _, _; split; vm_compute; reflexivity|reflexivity].
Qed.

(** ** Running the audit twice *)

Lemma assoc_assign {A : Type} (name : string) (v : A) (l : list (string * A)) :
  Live.assoc name (Live.assign name v l) = Some v.
Proof.
  induction l as [|[n w] rest IH]; cbn.
  - now rewrite String.eqb_refl.
  - destruct (String.eqb n name) eqn:E; cbn; now rewrite E.
Qed.

(** The cause: on an element without inline style, setting a property
    and then setting it to the empty string leaves a [style] attribute
    that holds no declaration. *)
Lemma clearing_leaves_an_empty_style_attribute
      (e : Live.Element) (property value : string) :
  Live.inlineStyle e = None ->
  isEmpty value = false ->
  Live.inlineStyle
    (Live.setStyleOf property EmptyString (Live.setStyleOf property value e))
  = Some [].
Proof.
  intros Hnone Hv.
  assert (E1 : Live.inlineStyle (Live.setStyleOf property value e)
               = Some [(property, value)]).
  { unfold Live.setStyleOf. rewrite Hnone, Hv.
    unfold Live.inlineStyle. cbn. now rewrite assoc_assign. }
  unfold Live.setStyleOf at 1. rewrite E1. cbn.
  rewrite String.eqb_refl. cbn.
  unfold Live.inlineStyle. cbn. now rewrite assoc_assign.
Qed.

(** C2 (the code at the failing input).  On the page that holds one
    empty link the audit runs twice without exception and the two reports
    have the same counts in every category, but not the same content: the
    snippet of the link issue is the markup of the link in the first
    report and carries an empty [style] attribute in the second.  The
    snippet of a link is taken before the link is outlined; the clearing
    at the start of the second run empties the outline and leaves the
    attribute behind. *)
Theorem C2_second_report_differs_in_snippet :
  exists r1 p1 r2 p2,
    Live.auditAccessibility emptyLinkPage = Normal (r1, p1)
    /\ Live.auditAccessibility p1 = Normal (r2, p2)
    /\ counts r1 = counts r2
    /\ map htmlSnippet (issues (links r1)) = [Some linkMarkup]
    /\ map htmlSnippet (issues (links r2)) = [Some linkMarkupAfterClearing]
    /\ r1 <> r2.
Proof.
  eexists _, _, _, _.
  split; [vm_compute; reflexivity|].
  split; [vm_compute; reflexivity|].
  split; [vm_compute; reflexivity|].
  split; [vm_compute; reflexivity|].
  split; [vm_compute; reflexivity|].
  intros H. apply (f_equal (fun r => map htmlSnippet (issues (links r)))) in H.
  vm_compute in H. discriminate H.
Qed.

(** * More properties of the code *)

(** ** The range of luminances and contrast ratios *)

Lemma Rpower_le_one (x y : R) :
  (0 < x <= 1)%R -> (0 <= y)%R -> (Rpower x y <= 1)%R.
Proof.
  intros [Hx Hx1] Hy. unfold Rpower. rewrite <- exp_0.
  assert (Hl : (ln x <= 0)%R).
  { destruct Hx1 as [Hlt| ->]; [|rewrite ln_1; lra].
    rewrite <- ln_1. left. apply ln_increasing; lra. }
  assert (Hm : (y * ln x <= 0)%R) by nra.
  destruct Hm as [Hm|Hm]; [left; now apply exp_increasing|rewrite Hm; lra].
Qed.

Lemma getRGBLuminance_unit (c : R) :
  (0 <= c <= 255)%R ->
  exists l, getRGBLuminance (Num c) = Num l /\ (0 <= l <= 1)%R.
Proof.
  intros Hc. unfold getRGBLuminance. eexists. split; [reflexivity|].
  unfold RGB_MAX_VALUE, SRGB_THRESHOLD, SRGB_LINEAR_DIVISOR, SRGB_OFFSET,
    SRGB_GAMMA_DIVISOR, SRGB_GAMMA_EXPONENT.
  destruct (Rle_dec _ _) as [Hle|Hgt].
  - lra.
  - split; [left; apply exp_pos|].
    apply Rpower_le_one; lra.
Qed.

Lemma getRelativeLuminance_unit (x y z : R) :
  (0 <= x <= 255)%R -> (0 <= y <= 255)%R -> (0 <= z <= 255)%R ->
  exists l, getRelativeLuminance (Num x) (Num y) (Num z) = Num l
            /\ (0 <= l <= 1)%R.
Proof.
  intros Hx Hy Hz. unfold getRelativeLuminance.
  destruct (getRGBLuminance_unit x Hx) as (lx & -> & Hlx).
  destruct (getRGBLuminance_unit y Hy) as (ly & -> & Hly).
  destruct (getRGBLuminance_unit z Hz) as (lz & -> & Hlz).
  cbn. eexists. split; [reflexivity|].
  unfold LUMINANCE_RED_COEFFICIENT, LUMINANCE_GREEN_COEFFICIENT,
    LUMINANCE_BLUE_COEFFICIENT. lra.
Qed.

Lemma luminance_of_valid (c : RGBAColor) :
  inRange c ->
  exists l,
    getRelativeLuminance (channel r (Rgba c)) (channel g (Rgba c))
                         (channel b (Rgba c)) = Num l
    /\ (0 <= l <= 1)%R.
Proof.
  intros ((x & Ex & Hx) & (y & Ey & Hy) & (z & Ez & Hz) & _).
  cbn. rewrite Ex, Ey, Ez. cbn.
  apply getRelativeLuminance_unit; split;
    (apply (IZR_le 0) || apply (fun v => IZR_le v 255)); lia.
Qed.

Lemma ratio_bounds (u v : R) :
  (0 <= u <= 1)%R -> (0 <= v <= 1)%R ->
  (1 <= (Rmax u v + 0.05) / (Rmin u v + 0.05) <= 21)%R.
Proof.
  intros Hu Hv.
  assert (Hmin : (0 <= Rmin u v)%R) by (apply Rmin_glb; lra).
  assert (Hmax : (Rmax u v <= 1)%R) by (apply Rmax_lub; lra).
  assert (Hle : (Rmin u v <= Rmax u v)%R).
  { apply Rle_trans with u; [apply Rmin_l|apply Rmax_l]. }
  assert (Hpos : (0 < Rmin u v + 0.05)%R) by lra.
  split.
  - apply Rmult_le_reg_r with (Rmin u v + 0.05)%R; [assumption|].
    unfold Rdiv. rewrite Rmult_assoc, Rinv_l by lra. lra.
  - apply Rmult_le_reg_r with (Rmin u v + 0.05)%R; [assumption|].
    unfold Rdiv. rewrite Rmult_assoc, Rinv_l by lra. lra.
Qed.

(** X1.  The luminance of a channel between 0 and 255 is a number between
    0 and 1, and so is the relative luminance of three such channels. *)
Theorem luminance_is_between_0_and_1 (x y z : R) :
  (0 <= x <= 255)%R -> (0 <= y <= 255)%R -> (0 <= z <= 255)%R ->
  (exists l, getRGBLuminance (Num x) = Num l /\ (0 <= l <= 1)%R)
  /\ (exists l, getRelativeLuminance (Num x) (Num y) (Num z) = Num l
                /\ (0 <= l <= 1)%R).
Proof.
  intros Hx Hy Hz. split.
  - now apply getRGBLuminance_unit.
  - now apply getRelativeLuminance_unit.
Qed.

Lemma luminance_is_between_0_and_1_witness :
  (exists l, getRGBLuminance (Num 128) = Num l /\ (0 <= l <= 1)%R)
  /\ (exists l, getRelativeLuminance (Num 128) (Num 0) (Num 255) = Num l
                /\ (0 <= l <= 1)%R).
Proof. apply luminance_is_between_0_and_1; lra. Defined.

(** X2.  For two texts that parse to colours of the data model, the
    contrast ratio is a number between 1 and 21. *)
Theorem contrast_ratio_is_between_1_and_21 (fgColor bgColor : string) :
  validColor (parseColor fgColor) -> validColor (parseColor bgColor) ->
  exists ratio,
    calculateContrastRatio fgColor bgColor = Num ratio
    /\ (1 <= ratio <= 21)%R.
Proof.
  unfold validColor, calculateContrastRatio.
  destruct (parseColor fgColor) as [|cf|]; try contradiction.
  destruct (parseColor bgColor) as [|cb|]; try contradiction.
  intros Hf Hb.
  destruct (luminance_of_valid cf Hf) as (lf & -> & Hlf).
  destruct (luminance_of_valid cb Hb) as (lb & -> & Hlb).
  cbn. unfold CONTRAST_OFFSET. eexists. split; [reflexivity|].
  now apply ratio_bounds.
Qed.

Lemma valid_rgb_sample : validColor (parseColor "rgb(10, 20, 255)").
Proof.
  change (parseColor "rgb(10, 20, 255)") with (mkColor 10 20 255).
  cbn. unfold inRange, channelInRange; cbn.
  repeat split; try (eexists; split; [reflexivity|lia]).
  apply one_inRange.
Defined.

Lemma valid_hex_sample : validColor (parseColor "#fa0").
Proof.
  change (parseColor "#fa0") with (mkColor 255 170 0).
  cbn. unfold inRange, channelInRange; cbn.
  repeat split; try (eexists; split; [reflexivity|lia]).
  apply one_inRange.
Defined.

Lemma contrast_ratio_is_between_1_and_21_witness :
  exists ratio,
    calculateContrastRatio "rgb(10, 20, 255)" "#fa0" = Num ratio
    /\ (1 <= ratio <= 21)%R.
Proof.
  apply contrast_ratio_is_between_1_and_21;
    [exact valid_rgb_sample|exact valid_hex_sample].
Defined.

(** ** Text size and the required ratio *)

Lemma float_ge_fin (p r : Q) :
  float_ge (FFin p) (FFin r) = true <-> (r <= p)%Q.
Proof.
  cbn. rewrite Qle_alt, <- (Qcompare_antisym p r).
  destruct (Qcompare p r); cbn; split; intros H; try reflexivity;
    try discriminate; try (intros H'; discriminate); try now exfalso; apply H.
Qed.

Lemma float_ge_trans (x y : jsfloat) (q : Q) :
  float_ge x y = true -> float_ge y (FFin q) = true ->
  float_ge x (FFin q) = true.
Proof.
  destruct x as [|[]|p], y as [|[]|r];
    try (cbn; discriminate); try (cbn; reflexivity).
  rewrite !float_ge_fin. intros H1 H2. now apply Qle_trans with r.
Qed.

Lemma minimumRatio_values (l : bool) :
  (minimumRatio l = 3 \/ minimumRatio l = 4.5)%R.
Proof.
  destruct l; cbn; unfold CONTRAST_RATIO_LARGE_TEXT, CONTRAST_RATIO_NORMAL_TEXT;
    [left|right]; reflexivity.
Qed.

(** X3.  A text at least as big as a large text of the same weight is a
    large text, so that the ratio required of it is not higher; a size
    that is not a number is never that of a large text, whatever the
    weight. *)
Theorem larger_text_never_needs_more_contrast :
  (forall (s s' : jsfloat) (w : string),
      float_ge s' s = true ->
      (isLargeText s w = true -> isLargeText s' w = true)
      /\ (minimumRatio (isLargeText s' w)
          <= minimumRatio (isLargeText s w))%R)
  /\ (forall w, isLargeText FNaN w = false
                /\ minimumRatio (isLargeText FNaN w) = 4.5%R).
Proof.
  split.
  - intros s s' w Hge.
    assert (M : isLargeText s w = true -> isLargeText s' w = true).
    { unfold isLargeText, LARGE_TEXT_MIN_SIZE, LARGE_TEXT_MIN_SIZE_BOLD.
      intros H. apply orb_true_iff in H as [H|H].
      - apply orb_true_iff. left. now apply float_ge_trans with s.
      - apply andb_true_iff in H as [H B].
        apply orb_true_iff. right. rewrite B, andb_true_r.
        now apply float_ge_trans with s. }
    split; [exact M|].
    destruct (isLargeText s w) eqn:E.
    + rewrite (M eq_refl). apply Rle_refl.
    + destruct (isLargeText s' w); cbn;
        unfold CONTRAST_RATIO_LARGE_TEXT, CONTRAST_RATIO_NORMAL_TEXT; lra.
  - intros w. split; reflexivity.
Qed.

Lemma larger_text_never_needs_more_contrast_witness :
  float_ge (FFin (30 # 1)) (FFin (20 # 1)) = true
  /\ isLargeText (FFin (20 # 1)) "700" = true
  /\ isLargeText (FFin (30 # 1)) "700" = true.
Proof.
  assert (G : float_ge (FFin (30 # 1)) (FFin (20 # 1)) = true) by reflexivity.
  split; [exact G|]. split; [reflexivity|].
  exact (proj1 (proj1 larger_text_never_needs_more_contrast
                      (FFin (20 # 1)) (FFin (30 # 1)) "700" G) eq_refl).
Defined.

(** ** Text in the colour of its background *)

Lemma parseColor_empty : parseColor EmptyString = Null.
Proof. reflexivity. Qed.

Lemma parseColor_transparent : parseColor "transparent" = Null.
Proof. reflexivity. Qed.

Lemma parseColor_clear :
  parseColor "rgba(0, 0, 0, 0)"
  = Rgba {| r := Some 0; g := Some 0; b := Some 0; a := FFin 0 |}.
Proof. vm_compute. reflexivity. Qed.

(** X4.  An element whose text has the colour of its background, a colour
    of the data model that is not semi-transparent, is reported, with high
    severity and a ratio of 1. *)
Theorem text_in_the_colour_of_its_background_is_reported
        (el : TextElement) (issueIndex : Z) :
  color el = backgroundColor el ->
  validColor (parseColor (backgroundColor el)) ->
  semiTransparent (parseColor (backgroundColor el)) = false ->
  exists i,
    processContrastElement el issueIndex = Some i
    /\ severity i = elevee
    /\ navId i = Some issueIndex
    /\ exists required,
         issue i = Contraste_insuffisant (Num 1) required.
Proof.
  intros Hsame Hvalid Hopaque.
  unfold processContrastElement.
  destruct (isEmpty (backgroundColor el)
            || String.eqb (backgroundColor el) "transparent"
            || String.eqb (backgroundColor el) "rgba(0, 0, 0, 0)") eqn:E.
  { exfalso. apply orb_true_iff in E as [E|E];
      [apply orb_true_iff in E as [E|E]|].
    - destruct (backgroundColor el); [|discriminate E].
      rewrite parseColor_empty in Hvalid. exact Hvalid.
    - apply String.eqb_eq in E. rewrite E, parseColor_transparent in Hvalid.
      exact Hvalid.
    - apply String.eqb_eq in E. rewrite E, parseColor_clear in Hopaque.
      discriminate Hopaque. }
  rewrite Hopaque, Hsame, (calculateContrastRatio_self _ Hvalid).
  assert (B : forall l, belowMinimum (Num 1) (minimumRatio l) = true).
  { intros l. apply belowMinimum_intro.
    destruct (minimumRatio_values l) as [-> | ->]; lra. }
  rewrite B. eexists. split; [reflexivity|]. cbn.
  split; [reflexivity|]. split; [reflexivity|]. eexists. reflexivity.
Qed.

Lemma text_in_the_colour_of_its_background_witness :
  exists i,
    processContrastElement (paragraph "rgb(10, 20, 255)" "rgb(10, 20, 255)") 0
    = Some i
    /\ severity i = elevee
    /\ navId i = Some 0
    /\ exists required,
         issue i = Contraste_insuffisant (Num 1) required.
Proof.
  apply text_in_the_colour_of_its_background_is_reported.
  - reflexivity.
  - change (parseColor (backgroundColor
                          (paragraph "rgb(10, 20, 255)" "rgb(10, 20, 255)")))
      with (mkColor 10 20 255).
    cbn. unfold inRange, channelInRange; cbn.
    repeat split; try (eexists; split; [reflexivity|lia]).
    apply one_inRange.
  - reflexivity.
Defined.

(** ** The elements whose contrast is evaluated *)

Lemma In_firstn {A : Type} (n : nat) (l : list A) (x : A) :
  In x (firstn n l) -> In x l.
Proof.
  revert l. induction n as [|n IH]; intros [|y l]; cbn; try tauto.
  intros [H|H]; [now left|right; now apply IH].
Qed.

Lemma firstn_app_reaches {A : Type} (n : nat) (l1 l2 : list A) (x : A) :
  In x (firstn n (l1 ++ l2)) -> ~ In x l1 ->
  forall y, In y l1 -> In y (firstn n (l1 ++ l2)).
Proof.
  intros Hx Hn y Hy. rewrite firstn_app in *.
  apply in_app_or in Hx as [Hx|Hx].
  - exfalso. apply Hn. eapply In_firstn; exact Hx.
  - apply in_or_app. left.
    destruct (Nat.le_gt_cases n (List.length l1)) as [Hle|Hgt].
    + replace (n - List.length l1)%nat with 0%nat in Hx by lia.
      destruct Hx.
    + rewrite firstn_all2 by lia. exact Hy.
Qed.

Lemma partition_length {A : Type} (f : A -> bool) (l : list A) :
  List.length (filter f l ++ filter (fun x => negb (f x)) l) = List.length l.
Proof.
  rewrite length_app.
  induction l as [|x l IH]; cbn; [reflexivity|].
  destruct (f x); cbn; lia.
Qed.

Lemma partition_In {A : Type} (f : A -> bool) (l : list A) (x : A) :
  In x (filter f l ++ filter (fun x => negb (f x)) l) <-> In x l.
Proof.
  rewrite in_app_iff, !filter_In. split.
  - intros [[H _]|[H _]]; exact H.
  - intros H. destruct (f x); [left|right]; now split.
Qed.

(** X5.  The contrast detector evaluates at most 500 elements, all of
    them visible elements of the query that hold text; the interactive
    ones come first, so that as soon as one element that is not
    interactive is evaluated, every interactive candidate is; and when
    the candidates are 500 at most they are all evaluated. *)
Theorem checkContrast_evaluates_interactive_elements_first
        (document : Document) :
  let candidates := filter isCandidate (query_text document) in
  let evaluated := textElements document in
  (total (checkContrast document) = len evaluated
   /\ 0 <= passed (checkContrast document)
   /\ total (checkContrast document) <= 500)
  /\ (forall el, In el evaluated ->
                 In el (query_text document) /\ isCandidate el = true)
  /\ ((exists el, In el evaluated /\ isInteractive el = false) ->
      forall el, In el candidates -> isInteractive el = true ->
                 In el evaluated)
  /\ (len candidates <= 500 ->
      forall el, In el evaluated <-> In el candidates).
Proof.
  intros candidates evaluated.
  assert (Hin : forall el, In el evaluated -> In el candidates).
  { intros el H. unfold evaluated, textElements in H.
    apply In_firstn in H.
    now apply partition_In in H. }
  split; [|split; [|split]].
  - split; [reflexivity|]. split.
    + pose proof (checkContrast_forEach_length (textElements document) 0).
      change (passed (checkContrast document))
        with (len (textElements document)
              - len (checkContrast_forEach (textElements document) 0)).
      lia.
    + change (total (checkContrast document))
        with (len (textElements document)).
      unfold textElements, len.
      pose proof (firstn_le_length MAX_CONTRAST_ELEMENTS
                    (filter isInteractive (filter isCandidate (query_text document))
                     ++ filter (fun el => negb (isInteractive el))
                               (filter isCandidate (query_text document)))) as H.
      unfold MAX_CONTRAST_ELEMENTS in *. lia.
  - intros el H. apply Hin in H. unfold candidates in H.
    now apply filter_In in H.
  - intros (el & Hel & Hni) el' Hc Hi.
    unfold evaluated, textElements in *. fold candidates in Hel |- *.
    apply (firstn_app_reaches _ _ _ el Hel).
    + rewrite filter_In. intros [_ H]. congruence.
    + now apply filter_In.
  - intros Hlen el. split; [apply Hin|].
    intros H. unfold evaluated, textElements. fold candidates.
    rewrite firstn_all2; [now apply partition_In|].
    rewrite partition_length. unfold len, MAX_CONTRAST_ELEMENTS in *. lia.
Qed.

Lemma checkContrast_evaluates_interactive_elements_first_witness :
  In (anchor "rgb(0, 0, 0)" "rgb(255, 255, 255)")
     (textElements
        (textPage [paragraph "rgb(0, 0, 0)" "rgb(255, 255, 255)";
                   anchor "rgb(0, 0, 0)" "rgb(255, 255, 255)"])).
Proof.
  apply (proj1 (proj2 (proj2
           (checkContrast_evaluates_interactive_elements_first
              (textPage [paragraph "rgb(0, 0, 0)" "rgb(255, 255, 255)";
                         anchor "rgb(0, 0, 0)" "rgb(255, 255, 255)"]))))).
  - exists (paragraph "rgb(0, 0, 0)" "rgb(255, 255, 255)").
    split; [right; left; reflexivity|reflexivity].
  - right; left; reflexivity.
  - reflexivity.
Defined.

(** ** The elements a detector reports *)

Lemma len_partition {A : Type} (f : A -> bool) (l : list A) :
  len l - len (filter f l) = len (filter (fun x => negb (f x)) l).
Proof.
  unfold len. pose proof (filter_length f l). lia.
Qed.

Lemma trim_empty : trim EmptyString = EmptyString.
Proof. reflexivity. Qed.

Lemma missingAlt_blank (img : Img) :
  missingAlt img = isEmpty (trim (img_alt img)).
Proof.
  unfold missingAlt. destruct (img_alt img); [reflexivity|].
  reflexivity.
Qed.

Lemma checkImages_forEach_In (l : list Img) :
  forall (index : Z) (i : Issue),
    In i (checkImages_forEach l index) <->
    exists k img, nth_error l k = Some img /\ missingAlt img = true
                  /\ i = imageIssue img (index + Z.of_nat k).
Proof.
  induction l as [|x l IH]; intros index i; cbn [checkImages_forEach].
  - split; [intros []|]. intros ([|k] & img & H & _); discriminate H.
  - rewrite in_app_iff, IH. split.
    + intros [H|(k & img & Hk & Hm & ->)].
      * destruct (missingAlt x) eqn:E; [|destruct H].
        destruct H as [<-|[]]. exists 0%nat, x. cbn.
        rewrite Z.add_0_r. now repeat split.
      * exists (S k), img. cbn. repeat split; try assumption.
        f_equal. lia.
    + intros ([|k] & img & Hk & Hm & ->).
      * injection Hk as ->. left. rewrite Hm. left. cbn.
        now rewrite Z.add_0_r.
      * right. exists k, img. cbn in Hk. repeat split; try assumption.
        f_equal. lia.
Qed.

Lemma checkImages_forEach_count (l : list Img) :
  forall index, len (checkImages_forEach l index) = len (filter missingAlt l).
Proof.
  induction l as [|x l IH]; intros index;
    cbn [checkImages_forEach filter]; [reflexivity|].
  rewrite len_app, IH.
  destruct (missingAlt x); rewrite ?len_cons, ?len_nil; lia.
Qed.

(** X6.  The image detector reports exactly the images whose [alt],
    trimmed, is empty: the issue of the image at position [k] of the
    query carries the label and the identifier of that position, and the
    images that pass are those with a text in [alt]. *)
Theorem checkImages_reports_the_images_without_alt (document : Document) :
  let images := query_img document in
  let res := checkImages document in
  (forall i, In i (issues res) <->
     exists k img,
       nth_error images k = Some img
       /\ isEmpty (trim (img_alt img)) = true
       /\ i = imageIssue img (Z.of_nat k))
  /\ total res = len images
  /\ passed res
     = len (filter (fun img => negb (isEmpty (trim (img_alt img)))) images).
Proof.
  cbn zeta. split; [|split; [reflexivity|]].
  - intros i. unfold checkImages, result; cbn [issues].
    rewrite checkImages_forEach_In. split.
    + intros (k & img & Hk & Hm & ->). exists k, img.
      rewrite <- missingAlt_blank. now repeat split.
    + intros (k & img & Hk & Hm & ->). exists k, img.
      rewrite missingAlt_blank. now repeat split.
  - unfold checkImages, result; cbn [passed].
    rewrite checkImages_forEach_count, len_partition.
    f_equal. apply filter_ext. intros img. now rewrite missingAlt_blank.
Qed.

Lemma checkImages_reports_the_images_without_alt_witness :
  In (imageIssue (picture " ") 1)
     (issues (checkImages (pageOf [picture "a cat"; picture " "] [] [] [] []))).
Proof.
  apply (proj1 (checkImages_reports_the_images_without_alt
                  (pageOf [picture "a cat"; picture " "] [] [] [] []))).
  exists 1%nat, (picture " "). repeat split.
Defined.

Lemma checkSVG_forEach_In (l : list Svg) :
  forall (index : Z) (i : Issue),
    In i (checkSVG_forEach l index) <->
    exists k svg, nth_error l k = Some svg /\ isSVGAccessible svg = false
                  /\ i = createSVGIssue svg (index + Z.of_nat k).
Proof.
  induction l as [|x l IH]; intros index i; cbn [checkSVG_forEach].
  - split; [intros []|]. intros ([|k] & svg & H & _); discriminate H.
  - rewrite in_app_iff, IH. split.
    + intros [H|(k & svg & Hk & Hm & ->)].
      * destruct (isSVGAccessible x) eqn:E; [destruct H|].
        destruct H as [<-|[]]. exists 0%nat, x. cbn.
        rewrite Z.add_0_r. now repeat split.
      * exists (S k), svg. cbn. repeat split; try assumption.
        f_equal. lia.
    + intros ([|k] & svg & Hk & Hm & ->).
      * injection Hk as ->. left. rewrite Hm. left. cbn.
        now rewrite Z.add_0_r.
      * right. exists k, svg. cbn in Hk. repeat split; try assumption.
        f_equal. lia.
Qed.

Lemma checkSVG_forEach_count (l : list Svg) :
  forall index,
    len (checkSVG_forEach l index)
    = len (filter (fun svg => negb (isSVGAccessible svg)) l).
Proof.
  induction l as [|x l IH]; intros index;
    cbn [checkSVG_forEach filter]; [reflexivity|].
  rewrite len_app, IH.
  destruct (isSVGAccessible x); cbn [negb]; rewrite ?len_cons, ?len_nil; lia.
Qed.

(** X7.  The detector of inline graphics reports exactly the [svg]
    elements that have none of: the role img, an [aria-label] that is not
    blank, a [title] element, [aria-hidden] set to true.  The issue of
    the graphic at position [k] carries that position, and the graphics
    that pass are the others. *)
Theorem checkSVG_reports_the_graphics_without_description
        (document : Document) :
  let svgs := query_svg document in
  let res := checkSVG document in
  (forall i, In i (issues res) <->
     exists k svg,
       nth_error svgs k = Some svg
       /\ attributeIs (svg_role svg) "img" = false
       /\ nonBlank (svg_aria_label svg) = false
       /\ svg_title svg = false
       /\ attributeIs (svg_aria_hidden svg) "true" = false
       /\ i = createSVGIssue svg (Z.of_nat k))
  /\ total res = len svgs
  /\ passed res = len (filter isSVGAccessible svgs).
Proof.
  cbn zeta. split; [|split; [reflexivity|]].
  - intros i. unfold checkSVG, result; cbn [issues].
    rewrite checkSVG_forEach_In. split.
    + intros (k & svg & Hk & Hm & ->). exists k, svg.
      unfold isSVGAccessible in Hm.
      apply orb_false_iff in Hm as [Hm H4].
      apply orb_false_iff in Hm as [Hm H3].
      apply orb_false_iff in Hm as [H1 H2].
      now repeat split.
    + intros (k & svg & Hk & H1 & H2 & H3 & H4 & ->). exists k, svg.
      unfold isSVGAccessible. rewrite H1, H2, H3, H4. now repeat split.
  - unfold checkSVG, result; cbn [passed].
    rewrite checkSVG_forEach_count, len_partition.
    f_equal. apply filter_ext. intros svg. apply negb_involutive.
Qed.

Lemma checkSVG_reports_the_graphics_without_description_witness :
  In (createSVGIssue (graphic None (Some " ") (Some "false")) 1)
     (issues (checkSVG (pageOf [] [graphic (Some "img") None None;
                                   graphic None (Some " ") (Some "false")]
                               [] [] []))).
Proof.
  apply (proj1 (checkSVG_reports_the_graphics_without_description
                  (pageOf [] [graphic (Some "img") None None;
                              graphic None (Some " ") (Some "false")]
                          [] [] []))).
  exists 1%nat, (graphic None (Some " ") (Some "false")). repeat split.
Defined.

Lemma checkLinks_forEach_In (l : list Link) :
  forall (index : Z) (i : Issue),
    In i (checkLinks_forEach l index) <->
    exists k link, nth_error l k = Some link
                   /\ analyzeLinkAccessibility link (index + Z.of_nat k) = Some i.
Proof.
  induction l as [|x l IH]; intros index i; cbn [checkLinks_forEach].
  - split; [intros []|]. intros ([|k] & link & H & _); discriminate H.
  - rewrite in_app_iff, IH. split.
    + intros [H|(k & link & Hk & Hm)].
      * destruct (analyzeLinkAccessibility x index) as [j|] eqn:E;
          [|destruct H].
        destruct H as [<-|[]]. exists 0%nat, x. cbn.
        rewrite Z.add_0_r. now split.
      * exists (S k), link. cbn. split; [assumption|].
        rewrite <- Hm. f_equal. lia.
    + intros ([|k] & link & Hk & Hm).
      * injection Hk as ->. left. cbn in Hm. rewrite Z.add_0_r in Hm.
        rewrite Hm. now left.
      * right. exists k, link. cbn in Hk. split; [assumption|].
        rewrite <- Hm. f_equal. lia.
Qed.

Lemma createLinkIssue_navId link index issue severity details :
  navId (createLinkIssue link index issue severity details) = Some index.
Proof. reflexivity. Qed.

Lemma analyzeLinkAccessibility_navId (link : Link) (index : Z) (i : Issue) :
  analyzeLinkAccessibility link index = Some i -> navId i = Some index.
Proof.
  unfold analyzeLinkAccessibility.
  destruct (negb _); [intros [= <-]; reflexivity|].
  destruct (_ && _); [intros [= <-]; reflexivity|discriminate].
Qed.

(** X8.  The link detector reports the link at position [k] of the query
    with high severity when it has no text of its own, no [aria-label],
    no image with an [alt] and no described graphic; with medium severity
    when it has one of these but its text is one of the four vague
    phrases and it has no [aria-label]; and not at all otherwise.  A link
    with a non-empty [aria-label] is never reported. *)
Theorem checkLinks_reports_undescribed_and_vague_links (document : Document) :
  let links := query_a document in
  let res := checkLinks document in
  (forall i, In i (issues res) <->
     exists k link,
       nth_error links k = Some link
       /\ ((isEmpty (extractLinkText link) = true
            /\ truthy (link_aria_label link) = false
            /\ link_image_with_alt link = false
            /\ checkLinkHasAccessibleSVG link = false
            /\ i = createLinkIssue link (Z.of_nat k)
                                   Lien_sans_texte_descriptif elevee
                                   (Href (link_href link)))
           \/ (isNonDescriptiveText (extractLinkText link) = true
               /\ truthy (link_aria_label link) = false
               /\ i = createLinkIssue link (Z.of_nat k)
                                      Texte_de_lien_non_descriptif moyenne
                                      (Text (extractLinkText link)))))
  /\ (forall k link i,
         nth_error links k = Some link ->
         truthy (link_aria_label link) = true ->
         In i (issues res) -> navId i <> Some (Z.of_nat k)).
Proof.
  cbn zeta.
  assert (A : forall link index i,
             analyzeLinkAccessibility link index = Some i <->
             (isEmpty (extractLinkText link) = true
              /\ truthy (link_aria_label link) = false
              /\ link_image_with_alt link = false
              /\ checkLinkHasAccessibleSVG link = false
              /\ i = createLinkIssue link index
                                     Lien_sans_texte_descriptif elevee
                                     (Href (link_href link)))
             \/ (isNonDescriptiveText (extractLinkText link) = true
                 /\ truthy (link_aria_label link) = false
                 /\ i = createLinkIssue link index
                                        Texte_de_lien_non_descriptif moyenne
                                        (Text (extractLinkText link)))).
  { intros link index i.
    unfold analyzeLinkAccessibility, checkLinkHasAccessibleDescription.
    destruct (isEmpty (extractLinkText link)) eqn:E1;
      destruct (truthy (link_aria_label link)) eqn:E2;
      destruct (link_image_with_alt link) eqn:E3;
      destruct (checkLinkHasAccessibleSVG link) eqn:E4;
      destruct (isNonDescriptiveText (extractLinkText link)) eqn:E5;
      cbn; split;
      try (intros [= <-]); try discriminate;
      try (left; now repeat split); try (right; now repeat split);
      try (intros [(? & ? & ? & ? & ?)|(? & ? & ?)]; subst;
           try discriminate; try reflexivity).
    all: exfalso.
    all: destruct (extractLinkText link); try discriminate E1;
      discriminate E5. }
  split.
  - intros i. unfold checkLinks, result; cbn [issues].
    rewrite checkLinks_forEach_In. split.
    + intros (k & link & Hk & H). exists k, link. split; [assumption|].
      now apply A.
    + intros (k & link & Hk & H). exists k, link. split; [assumption|].
      now apply A.
  - intros k link i Hk Hl Hi Hn.
    unfold checkLinks, result in Hi; cbn [issues] in Hi.
    apply checkLinks_forEach_In in Hi as (k' & link' & Hk' & H).
    pose proof (analyzeLinkAccessibility_navId _ _ _ H) as Hn'.
    rewrite Hn in Hn'. injection Hn' as Hn'.
    assert (k = k') by lia. subst k'.
    rewrite Hk in Hk'. injection Hk' as <-.
    apply A in H as [(_ & H & _)|(_ & H & _)]; congruence.
Qed.

Lemma checkLinks_reports_undescribed_and_vague_links_witness :
  In (createLinkIssue (hyperlink None [TextNode " Voir "]) 1
                      Texte_de_lien_non_descriptif moyenne (Text "Voir"))
     (issues (checkLinks
                (pageOf [] [] [hyperlink (Some "Home") [];
                               hyperlink None [TextNode " Voir "]] [] []))).
Proof.
  apply (proj1 (checkLinks_reports_undescribed_and_vague_links
                  (pageOf [] [] [hyperlink (Some "Home") [];
                                 hyperlink None [TextNode " Voir "]] [] []))).
  exists 1%nat, (hyperlink None [TextNode " Voir "]).
  split; [reflexivity|]. right. repeat split.
Defined.

(** ** Detectors that number their issues *)

Lemma len_firstn_S {A : Type} (f : A -> bool) (x : A) (l : list A) (k : nat) :
  len (filter f (firstn (S k) (x :: l)))
  = (if f x then 1 else 0) + len (filter f (firstn k l)).
Proof.
  cbn [firstn filter]. destruct (f x); [rewrite len_cons|]; lia.
Qed.

Lemma checkForms_forEach_In (l : list Input) :
  forall (index issueIndex : Z) (i : Issue),
    In i (checkForms_forEach l index issueIndex) <->
    exists k input,
      nth_error l k = Some input /\ missingLabel input = true
      /\ i = formIssue input (index + Z.of_nat k)
                       (issueIndex + len (filter missingLabel (firstn k l))).
Proof.
  induction l as [|x l IH]; intros index issueIndex i;
    cbn [checkForms_forEach].
  - split; [intros []|]. intros ([|k] & input & H & _); discriminate H.
  - destruct (missingLabel x) eqn:E.
    + cbn [In]. rewrite IH. split.
      * intros [<-|(k & input & Hk & Hm & ->)].
        -- exists 0%nat, x. cbn [firstn filter nth_error].
           rewrite (@len_nil Input), !Z.add_0_r. now repeat split.
        -- exists (S k), input. rewrite len_firstn_S, E. cbn [nth_error].
           repeat split; try assumption. f_equal; lia.
      * intros ([|k] & input & Hk & Hm & ->).
        -- injection Hk as ->. left. cbn [firstn filter].
           now rewrite (@len_nil Input), !Z.add_0_r.
        -- right. exists k, input. rewrite len_firstn_S, E.
           cbn [nth_error] in Hk. repeat split; try assumption. f_equal; lia.
    + rewrite IH. split.
      * intros (k & input & Hk & Hm & ->).
        exists (S k), input. rewrite len_firstn_S, E. cbn [nth_error].
        repeat split; try assumption. f_equal; lia.
      * intros ([|k] & input & Hk & Hm & ->).
        -- injection Hk as ->. congruence.
        -- exists k, input. rewrite len_firstn_S, E.
           cbn [nth_error] in Hk. repeat split; try assumption. f_equal; lia.
Qed.

Lemma checkForms_forEach_count (l : list Input) :
  forall index issueIndex,
    len (checkForms_forEach l index issueIndex) = len (filter missingLabel l).
Proof.
  induction l as [|x l IH]; intros index issueIndex;
    cbn [checkForms_forEach filter]; [reflexivity|].
  destruct (missingLabel x); rewrite ?len_cons, IH; lia.
Qed.

Lemma missingLabel_spec (input : Input) :
  missingLabel input = true <->
  (if isEmpty (input_id input) then input_closest_label input
   else input_label_for input) = false
  /\ truthy (input_aria_label input) = false
  /\ truthy (input_aria_labelledby input) = false.
Proof.
  unfold missingLabel.
  destruct (isEmpty (input_id input)); cbn [negb];
    rewrite !andb_true_iff, !negb_true_iff; tauto.
Qed.

(** X9.  On a page where the [id] of every form control can be written
    as it is into a selector (no quotation mark, backslash or line break
    in it), the form detector reports exactly the controls that have no
    [aria-label], no [aria-labelledby] and no label, where the label of a
    control with an [id] is what the selector of the label finds, a
    [label] whose [for] is that [id], and the label of a control without
    [id] is a [label] around it.  The issue of the control at position
    [k] carries that position in its element label and, as identifier,
    the number of controls reported before it. *)
Theorem checkForms_reports_the_controls_without_label (document : Document) :
  let inputs := query_inputs document in
  let res := checkForms document in
  (forall input, In input inputs -> writtenAsIs (input_id input) = true) ->
  (forall i, In i (issues res) <->
     exists k input,
       nth_error inputs k = Some input
       /\ (if isEmpty (input_id input) then input_closest_label input
           else input_label_for input) = false
       /\ truthy (input_aria_label input) = false
       /\ truthy (input_aria_labelledby input) = false
       /\ i = formIssue input (Z.of_nat k)
                        (len (filter missingLabel (firstn k inputs))))
  /\ total res = len inputs
  /\ passed res = len (filter (fun input => negb (missingLabel input)) inputs).
Proof.
  cbn zeta. intros _. split; [|split; [reflexivity|]].
  - intros i. unfold checkForms, result; cbn [issues].
    rewrite checkForms_forEach_In. split.
    + intros (k & input & Hk & Hm & ->). exists k, input.
      apply missingLabel_spec in Hm as (H1 & H2 & H3).
      now repeat split.
    + intros (k & input & Hk & H1 & H2 & H3 & ->). exists k, input.
      split; [assumption|]. split; [|reflexivity].
      apply missingLabel_spec. now repeat split.
  - unfold checkForms, result; cbn [passed].
    now rewrite checkForms_forEach_count, len_partition.
Qed.

Lemma checkForms_reports_the_controls_without_label_witness :
  In (formIssue (field "email" None) 2 1)
     (issues (checkForms
                (pageOf [] [] []
                        [field EmptyString None; field "name" (Some "Name");
                         field "email" None] []))).
Proof.
  assert (S : forall input,
             In input
                (query_inputs
                   (pageOf [] [] []
                           [field EmptyString None; field "name" (Some "Name");
                            field "email" None] [])) ->
             writtenAsIs (input_id input) = true).
  { intros input [<-|[<-|[<-|[]]]]; reflexivity. }
  apply (proj1 (checkForms_reports_the_controls_without_label _ S)).
  exists 2%nat, (field "email" None). repeat split.
Defined.

Lemma checkButtons_forEach_In (l : list Button) :
  forall (index issueIndex : Z) (i : Issue),
    In i (checkButtons_forEach l index issueIndex) <->
    exists k button,
      nth_error l k = Some button /\ missingText button = true
      /\ i = buttonIssue button (index + Z.of_nat k)
                         (issueIndex + len (filter missingText (firstn k l))).
Proof.
  induction l as [|x l IH]; intros index issueIndex i;
    cbn [checkButtons_forEach].
  - split; [intros []|]. intros ([|k] & button & H & _); discriminate H.
  - destruct (missingText x) eqn:E.
    + cbn [In]. rewrite IH. split.
      * intros [<-|(k & button & Hk & Hm & ->)].
        -- exists 0%nat, x. cbn [firstn filter nth_error].
           rewrite (@len_nil Button), !Z.add_0_r. now repeat split.
        -- exists (S k), button. rewrite len_firstn_S, E. cbn [nth_error].
           repeat split; try assumption. f_equal; lia.
      * intros ([|k] & button & Hk & Hm & ->).
        -- injection Hk as ->. left. cbn [firstn filter].
           now rewrite (@len_nil Button), !Z.add_0_r.
        -- right. exists k, button. rewrite len_firstn_S, E.
           cbn [nth_error] in Hk. repeat split; try assumption. f_equal; lia.
    + rewrite IH. split.
      * intros (k & button & Hk & Hm & ->).
        exists (S k), button. rewrite len_firstn_S, E. cbn [nth_error].
        repeat split; try assumption. f_equal; lia.
      * intros ([|k] & button & Hk & Hm & ->).
        -- injection Hk as ->. congruence.
        -- exists k, button. rewrite len_firstn_S, E.
           cbn [nth_error] in Hk. repeat split; try assumption. f_equal; lia.
Qed.

Lemma checkButtons_forEach_count (l : list Button) :
  forall index issueIndex,
    len (checkButtons_forEach l index issueIndex) = len (filter missingText l).
Proof.
  induction l as [|x l IH]; intros index issueIndex;
    cbn [checkButtons_forEach filter]; [reflexivity|].
  destruct (missingText x); rewrite ?len_cons, IH; lia.
Qed.

(** X10.  The button detector reports exactly the buttons that have no
    [aria-label] and whose text content, as it is when the detector
    visits them, is empty once trimmed; the issue of the button at
    position [k] carries that position in its element label and, as
    identifier, the number of buttons reported before it.  The text
    content is that of the document at that time, and so includes the
    text of the badges that the audit has appended inside the button by
    then: on the page whose only button holds an image without [alt] and
    no text, [checkImages] appends its badge to the button, the text of
    the button is from then on the text of the badge, and the audit,
    which runs [checkButtons] last, does not report the button. *)
Theorem checkButtons_reports_the_buttons_without_text (document : Document) :
  let buttons := query_button document in
  let res := checkButtons document in
  (forall i, In i (issues res) <->
     exists k button,
       nth_error buttons k = Some button
       /\ isEmpty (trim (button_textContent button)) = true
       /\ truthy (button_aria_label button) = false
       /\ i = buttonIssue button (Z.of_nat k)
                          (len (filter missingText (firstn k buttons))))
  /\ total res = len buttons
  /\ passed res = len (filter (fun button => negb (missingText button)) buttons)
  /\ map button_textContent (query_button (Live.snapshot iconButtonPage))
     = [EmptyString]
  /\ exists rep p,
       Live.auditAccessibility iconButtonPage = Normal (rep, p)
       /\ map button_textContent (query_button (Live.snapshot p))
          = ["?? ALT MANQUANT"]
       /\ total (Report.buttons rep) = 1
       /\ issues (Report.buttons rep) = [].
Proof.
  cbn zeta. split; [|split; [reflexivity|split; [|split; [reflexivity|]]]].
  - intros i. unfold checkButtons, result; cbn [issues].
    rewrite checkButtons_forEach_In. split.
    + intros (k & button & Hk & Hm & ->). exists k, button.
      unfold missingText in Hm. apply andb_true_iff in Hm as [H1 H2].
      apply negb_true_iff in H2. now repeat split.
    + intros (k & button & Hk & H1 & H2 & ->). exists k, button.
      split; [assumption|]. split; [|reflexivity].
      unfold missingText. now rewrite H1, H2.
  - unfold checkButtons, result; cbn [passed].
    now rewrite checkButtons_forEach_count, len_partition.
  - eexists _, _. split; [vm_compute; reflexivity|]. repeat split.
Qed.

Lemma checkButtons_reports_the_buttons_without_text_witness :
  In (buttonIssue (pushButton "  " (Some EmptyString)) 1 0)
     (issues (checkButtons
                (pageOf [] [] [] []
                        [pushButton "OK" None; pushButton "  " (Some EmptyString)]))).
Proof.
  apply (proj1 (checkButtons_reports_the_buttons_without_text
                  (pageOf [] [] [] []
                          [pushButton "OK" None; pushButton "  " (Some EmptyString)]))).
  exists 1%nat, (pushButton "  " (Some EmptyString)). repeat split.
Defined.

(** ** The identifiers of the issues *)

Lemma checkForms_forEach_numbered (l : list Input) :
  forall index issueIndex,
    numberedFrom issueIndex (map navId (checkForms_forEach l index issueIndex)).
Proof.
  induction l as [|x l IH]; intros index issueIndex;
    cbn [checkForms_forEach]; [exact I|].
  destruct (missingLabel x); [|apply IH].
  cbn [map numberedFrom]. split; [reflexivity|apply IH].
Qed.

Lemma checkButtons_forEach_numbered (l : list Button) :
  forall index issueIndex,
    numberedFrom issueIndex
                 (map navId (checkButtons_forEach l index issueIndex)).
Proof.
  induction l as [|x l IH]; intros index issueIndex;
    cbn [checkButtons_forEach]; [exact I|].
  destruct (missingText x); [|apply IH].
  cbn [map numberedFrom]. split; [reflexivity|apply IH].
Qed.

Lemma processContrastElement_navId (el : TextElement) (k : Z) (i : Issue) :
  processContrastElement el k = Some i -> navId i = Some k.
Proof.
  unfold processContrastElement.
  destruct (_ || _); [discriminate|].
  destruct (semiTransparent _); [discriminate|].
  destruct (belowMinimum _ _); [|discriminate].
  intros [= <-]. reflexivity.
Qed.

Lemma checkContrast_forEach_numbered (l : list TextElement) :
  forall issueIndex,
    numberedFrom issueIndex (map navId (checkContrast_forEach l issueIndex)).
Proof.
  induction l as [|x l IH]; intros issueIndex;
    cbn [checkContrast_forEach]; [exact I|].
  destruct (processContrastElement x issueIndex) as [i|] eqn:E; [|apply IH].
  cbn [map numberedFrom]. split; [|apply IH].
  now apply processContrastElement_navId with x.
Qed.

Lemma checkHeadings_forEach_numbered (l : list Heading) :
  forall index previous issueIndex,
    numberedFrom issueIndex
      (map navId (checkHeadings_forEach l index previous issueIndex)).
Proof.
  induction l as [|x l IH]; intros index previous issueIndex;
    cbn [checkHeadings_forEach]; [exact I|].
  cbv zeta.
  destruct (isSkip previous _); destruct (isEmpty (trim _));
    cbn [app map numberedFrom]; repeat (split; [reflexivity|]); apply IH.
Qed.

Lemma structureIssues_navId (n : Z) (i : Issue) :
  In i (structureIssues n) -> navId i = None /\ htmlSnippet i = None.
Proof.
  unfold structureIssues.
  destruct (n =? 0); [intros [<-|[]]; now split|].
  destruct (1 <? n); [intros [<-|[]]; now split|intros []].
Qed.

Lemma structureIssues_pageLevel (n : Z) :
  filter (fun i => negb (isPageLevel i)) (structureIssues n) = [].
Proof.
  unfold structureIssues. destruct (n =? 0); [reflexivity|].
  destruct (1 <? n); reflexivity.
Qed.

Lemma checkHeadings_forEach_perHeading (l : list Heading) :
  forall index previous issueIndex,
    filter (fun i => negb (isPageLevel i))
           (checkHeadings_forEach l index previous issueIndex)
    = checkHeadings_forEach l index previous issueIndex.
Proof.
  induction l as [|x l IH]; intros index previous issueIndex;
    cbn [checkHeadings_forEach]; [reflexivity|].
  cbv zeta. rewrite !filter_app, IH.
  destruct (isSkip previous _); destruct (isEmpty (trim _)); reflexivity.
Qed.

Lemma checkHeadings_forEach_not_pageLevel (l : list Heading) :
  forall index previous issueIndex i,
    In i (checkHeadings_forEach l index previous issueIndex) ->
    isPageLevel i = false.
Proof.
  intros index previous issueIndex i H.
  rewrite <- checkHeadings_forEach_perHeading in H.
  apply filter_In in H as [_ H]. now apply negb_true_iff in H.
Qed.

(** X11.  In the results of the form, button and contrast detectors the
    identifiers of the issues are 0, 1, 2, ... in the order of the list.
    So are those of the issues of the heading detector that are about a
    heading; its page-level issues have neither identifier nor snippet. *)
Theorem issue_identifiers_count_from_zero (document : Document) :
  numberedFrom 0 (map navId (issues (checkForms document)))
  /\ numberedFrom 0 (map navId (issues (checkButtons document)))
  /\ numberedFrom 0 (map navId (issues (checkContrast document)))
  /\ numberedFrom 0
       (map navId (filter (fun i => negb (isPageLevel i))
                          (issues (checkHeadings document))))
  /\ (forall i, In i (issues (checkHeadings document)) ->
                isPageLevel i = true ->
                navId i = None /\ htmlSnippet i = None).
Proof.
  split; [apply checkForms_forEach_numbered|].
  split; [apply checkButtons_forEach_numbered|].
  split; [apply checkContrast_forEach_numbered|].
  unfold checkHeadings, result; cbn [issues]. split.
  - rewrite filter_app, structureIssues_pageLevel,
      checkHeadings_forEach_perHeading.
    apply checkHeadings_forEach_numbered.
  - intros i H P. apply in_app_or in H as [H|H].
    + now apply structureIssues_navId in H.
    + apply checkHeadings_forEach_not_pageLevel in H. congruence.
Qed.

Lemma issue_identifiers_count_from_zero_witness :
  navId noH1Issue = None /\ htmlSnippet noH1Issue = None.
Proof.
  apply (proj2 (proj2 (proj2 (proj2
           (issue_identifiers_count_from_zero (page [heading H2 "a"])))))).
  - left. reflexivity.
  - reflexivity.
Defined.

(** ** The text of a link *)

Lemma Node_induction (P : Node -> Prop) :
  (forall t, P (TextNode t)) ->
  (forall tag ln cls ch, Forall P ch -> P (ElementNode tag ln cls ch)) ->
  forall n, P n.
Proof.
  intros HT HE. fix IH 1. intros [t|tag ln cls ch]; [apply HT|].
  apply HE. induction ch as [|c ch IHch]; constructor; [apply IH|exact IHch].
Qed.

Lemma concat_empty_cons (x : string) (l : list string) :
  String.concat EmptyString (x :: l)
  = (x ++ String.concat EmptyString l)%string.
Proof.
  destruct l as [|y l]; cbn [String.concat]; [|reflexivity].
  induction x as [|c x IH]; cbn; [reflexivity|now rewrite <- IH].
Qed.

Lemma string_app_assoc (x y z : string) :
  ((x ++ y) ++ z = x ++ (y ++ z))%string.
Proof. induction x as [|c x IH]; cbn; [reflexivity|now rewrite IH]. Qed.

Lemma concat_empty_app (l1 l2 : list string) :
  String.concat EmptyString (l1 ++ l2)
  = (String.concat EmptyString l1 ++ String.concat EmptyString l2)%string.
Proof.
  induction l1 as [|x l1 IH]; [reflexivity|].
  cbn [app]. now rewrite !concat_empty_cons, IH, string_app_assoc.
Qed.

Lemma concat_all_empty (l : list string) :
  Forall (fun s => s = EmptyString) l -> String.concat EmptyString l = EmptyString.
Proof.
  induction 1 as [|x l Hx _ IH]; [reflexivity|].
  now rewrite concat_empty_cons, Hx, IH.
Qed.

Lemma rejectsText_closest tagName classList :
  rejectsText tagName true classList = true.
Proof.
  unfold rejectsText.
  destruct (String.eqb tagName "SVG"), (String.eqb tagName "IMG"); reflexivity.
Qed.

Lemma acceptedText_inside_graphic (n : Node) :
  forall reject, acceptedText true reject n = if isTextNode n
                                              then (if reject then EmptyString
                                                    else acceptedText true false n)
                                              else EmptyString.
Proof.
  induction n as [t|tag ln cls ch IH] using Node_induction; intros reject.
  - cbn. now destruct reject.
  - cbn [acceptedText isTextNode orb]. rewrite rejectsText_closest.
    apply concat_all_empty. apply Forall_map.
    induction IH as [|c ch Hc _ IHch]; constructor; [|exact IHch].
    rewrite Hc. now destruct (isTextNode c).
Qed.

Lemma acceptedText_ignored (closest reject : bool) (n : Node) :
  isKnownBadge n || isGraphic n = true ->
  acceptedText closest reject n = EmptyString.
Proof.
  destruct n as [t|tag ln cls ch]; [discriminate|].
  intros H. cbn [acceptedText]. apply concat_all_empty, Forall_map.
  apply orb_true_iff in H as [H|H].
  - cbn [isKnownBadge] in H. apply andb_true_iff in H as [Hc Ht].
    assert (R : forall c, rejectsText tag c cls = true).
    { intros c. unfold rejectsText.
      destruct (contains cls "accessibility-badge"),
        (contains cls "accessibility-badge-link"),
        (contains cls "accessibility-badge-svg"); try discriminate Hc;
        destruct (String.eqb tag "SVG"), (String.eqb tag "IMG"), c;
        reflexivity. }
    rewrite R. rewrite List.forallb_forall in Ht.
    apply Forall_forall. intros c Hin. apply Ht in Hin.
    destruct c; [reflexivity|discriminate Hin].
  - cbn [isGraphic] in H.
    replace (closest || String.eqb ln "svg" || String.eqb ln "img")
      with true.
    2:{ rewrite <- orb_assoc, H. now destruct closest. }
    rewrite rejectsText_closest.
    apply Forall_forall. intros c _.
    rewrite acceptedText_inside_graphic. now destruct (isTextNode c).
Qed.

(** X12.  The text of a link does not change when a badge of one of the
    three classes that the walker names, or an [svg] or [img] element
    with whatever it holds, is put among the child nodes of the link. *)
Theorem extractLinkText_ignores_badges_and_graphics
        (link : Link) (before after : list Node) (n : Node) :
  isKnownBadge n || isGraphic n = true ->
  extractLinkText (withChildNodes link (before ++ n :: after))
  = extractLinkText (withChildNodes link (before ++ after)).
Proof.
  intros H. unfold extractLinkText. cbn [withChildNodes link_childNodes
    link_closest_svg link_closest_img link_classList].
  rewrite !map_app, !concat_empty_app. cbn [map].
  now rewrite concat_empty_cons, (acceptedText_ignored _ _ n H).
Qed.

Lemma extractLinkText_ignores_badges_and_graphics_witness :
  extractLinkText
    (withChildNodes (hyperlink None [])
       ([TextNode "Home"]
          ++ ElementNode "DIV" "div" ["accessibility-badge"]
                         [TextNode "ALT MANQUANT"] :: []))
  = extractLinkText (withChildNodes (hyperlink None []) ([TextNode "Home"] ++ [])).
Proof.
  apply extractLinkText_ignores_badges_and_graphics. reflexivity.
Defined.

(** ** The snippet of an element *)

Lemma length_append (s t : string) :
  String.length (s ++ t) = (String.length s + String.length t)%nat.
Proof. induction s as [|c s IH]; cbn; [reflexivity|now rewrite IH]. Qed.

Lemma length_substring_0 (n : nat) (s : string) :
  (String.length (substring 0 n s) <= n)%nat.
Proof.
  revert s. induction n as [|n IH]; intros [|c s]; cbn; try lia.
  specialize (IH s). lia.
Qed.

(** X13.  A snippet is at most 503 characters long: the markup when it
    is at most 500 characters long, otherwise its first 500 characters
    followed by three dots. *)
Theorem generateHTMLSnippet_is_at_most_503_characters (element : Live.Tree) :
  (String.length (Live.generateHTMLSnippet element) <= 503)%nat.
Proof.
  destruct element as [data|e children]; cbn [Live.generateHTMLSnippet];
    [cbn; lia|].
  cbv zeta. unfold Live.MAX_HTML_SNIPPET_LENGTH.
  set (html := Live.outerHTML false _).
  destruct (Nat.ltb 500 (String.length html)) eqn:E.
  - rewrite length_append. pose proof (length_substring_0 500 html) as H.
    change (String.length "...") with 3%nat. lia.
  - apply Nat.ltb_ge in E. lia.
Qed.



Lemma assoc_unassign_other {A : Type} (name other : string)
      (l : list (string * A)) :
  String.eqb name other = false ->
  Live.assoc name (Live.unassign other l) = Live.assoc name l.
Proof.
  intros Hne. induction l as [|[n w] l IH]; cbn; [reflexivity|].
  destruct (String.eqb n other) eqn:E; cbn.
  - apply String.eqb_eq in E. subst n.
    rewrite String.eqb_sym, Hne. exact IH.
  - destruct (String.eqb n name); [reflexivity|exact IH].
Qed.

Lemma assoc_assign_other {A : Type} (name other : string) (v : A)
      (l : list (string * A)) :
  String.eqb name other = false ->
  Live.assoc name (Live.assign other v l) = Live.assoc name l.
Proof.
  intros Hne. induction l as [|[n w] l IH]; cbn.
  - now rewrite String.eqb_sym, Hne.
  - destruct (String.eqb n other) eqn:E; cbn.
    + apply String.eqb_eq in E. subst n. now rewrite String.eqb_sym, Hne.
    + destruct (String.eqb n name); [reflexivity|exact IH].
Qed.




(** ** Clearing the marks *)

Lemma Tree_induction (P : Live.Tree -> Prop) :
  (forall data, P (Live.Txt data)) ->
  (forall e children, Forall P children -> P (Live.El e children)) ->
  forall t, P t.
Proof.
  intros HT HE. fix IH 1. intros [data|e children]; [apply HT|].
  apply HE. induction children as [|c children IHc]; constructor;
    [apply IH|exact IHc].
Qed.

Lemma assoc_unassign_same {A : Type} (name : string) (l : list (string * A)) :
  Live.assoc name (Live.unassign name l) = None.
Proof.
  unfold Live.unassign. induction l as [|[n w] l IH]; cbn; [reflexivity|].
  destruct (String.eqb n name) eqn:E; cbn; [exact IH|now rewrite E].
Qed.

Lemma follows_refl (e : Live.Element) : follows e e.
Proof. unfold follows. repeat split; auto. Qed.

Lemma follows_trans (e1 e2 e3 : Live.Element) :
  follows e1 e2 -> follows e2 e3 -> follows e1 e3.
Proof.
  intros (U1 & L1 & N1 & S1 & A1 & M1) (U2 & L2 & N2 & S2 & A2 & M2).
  unfold follows. repeat split; try congruence.
  - intros name H. now rewrite A2, A1.
  - destruct M2 as [M2|M2]; [|now right].
    destruct M1 as [M1|M1]; [left|right]; congruence.
Qed.

Lemma shrinks_refl (p : Live.Page) : shrinks p p.
Proof.
  split; [reflexivity|]. intros e cs H. exists e, cs.
  split; [exact H|apply follows_refl].
Qed.

Lemma shrinks_trans (p1 p2 p3 : Live.Page) :
  shrinks p1 p2 -> shrinks p2 p3 -> shrinks p1 p3.
Proof.
  intros [F1 H1] [F2 H2]. split; [congruence|].
  intros e3 cs3 H3.
  destruct (H2 _ _ H3) as (e2 & cs2 & I2 & R2).
  destruct (H1 _ _ I2) as (e1 & cs1 & I1 & R1).
  exists e1, cs1. split; [exact I1|now apply follows_trans with e2].
Qed.

Lemma not_cleared (name other : string) :
  ~ In name clearedAttributes -> In other clearedAttributes ->
  String.eqb name other = false.
Proof.
  intros Hn Ho. apply String.eqb_neq. intros ->. now apply Hn.
Qed.

Lemma follows_setStyleOf (property value : string) (e : Live.Element) :
  follows e (Live.setStyleOf property value e).
Proof.
  assert (W : forall x,
             follows e (Live.withAttributes e
                          (Live.assign "style" x (Live.attributes e)))).
  { intros x. unfold follows, Live.getAttribute; cbn.
    repeat split; try reflexivity.
    - intros name H. apply assoc_assign_other.
      apply not_cleared; [exact H|cbn; tauto].
    - left. now rewrite assoc_assign_other. }
  unfold Live.setStyleOf.
  destruct (Live.inlineStyle e) as [d|]; destruct (isEmpty value);
    try destruct (Live.assoc property d);
    first [apply W|apply follows_refl].
Qed.

Lemma follows_removeAttributeOf (name : string) (e : Live.Element) :
  In name clearedAttributes -> follows e (Live.removeAttributeOf name e).
Proof.
  intros Hn. unfold follows, Live.getAttribute; cbn.
  repeat split; try reflexivity.
  - intros other H. apply assoc_unassign_other. now apply not_cleared.
  - destruct (String.eqb "data-accessibility-issue" name) eqn:E.
    + right. apply String.eqb_eq in E. subst name.
      now rewrite assoc_unassign_same.
    + left. now rewrite assoc_unassign_other.
Qed.

Lemma elements_mapElement (u : nat) (f : Live.Element -> Live.Element)
      (t : Live.Tree) :
  forall e' cs',
    In (Live.El e' cs') (Live.elements (Live.mapElement u f t)) ->
    exists e cs,
      In (Live.El e cs) (Live.elements t)
      /\ e' = if Nat.eqb (Live.uid e) u then f e else e.
Proof.
  induction t as [data|e children IH] using Tree_induction; intros e' cs' H.
  - destruct H.
  - cbn [Live.mapElement Live.elements] in H. destruct H as [H|H].
    + injection H as <- _. exists e, children. split; [now left|reflexivity].
    + apply in_flat_map in H as (t' & Ht' & Hin).
      apply in_map_iff in Ht' as (t0 & <- & Ht0).
      rewrite Forall_forall in IH.
      destruct (IH t0 Ht0 _ _ Hin) as (e0 & cs0 & Hin0 & ->).
      exists e0, cs0. split; [|reflexivity].
      right. apply in_flat_map. now exists t0.
Qed.

Lemma allElements_update (u : nat) (f : Live.Element -> Live.Element)
      (p p' : Live.Page) (x : unit) :
  Live.update u f p = Normal (x, p') ->
  Live.fresh p' = Live.fresh p
  /\ forall e' cs',
      In (Live.El e' cs') (Live.allElements p') ->
      exists e cs,
        In (Live.El e cs) (Live.allElements p)
        /\ e' = if Nat.eqb (Live.uid e) u then f e else e.
Proof.
  unfold Live.update. intros [= _ <-]. split; [reflexivity|].
  intros e' cs' H. unfold Live.allElements in *; cbn [Live.roots] in H.
  apply in_flat_map in H as (t' & Ht' & Hin).
  apply in_map_iff in Ht' as (t0 & <- & Ht0).
  destruct (elements_mapElement u f t0 _ _ Hin) as (e0 & cs0 & Hin0 & ->).
  exists e0, cs0. split; [|reflexivity].
  apply in_flat_map. now exists t0.
Qed.

Lemma shrinking_update (u : nat) (f : Live.Element -> Live.Element) :
  (forall e, follows e (f e)) -> shrinking (Live.update u f).
Proof.
  intros Hf p x p' H. apply allElements_update in H as [F H].
  split; [exact F|]. intros e' cs' Hin.
  destruct (H _ _ Hin) as (e & cs & I & ->). exists e, cs.
  split; [exact I|]. destruct (Nat.eqb (Live.uid e) u);
    [apply Hf|apply follows_refl].
Qed.

Lemma elements_detach (u : nat) (t : Live.Tree) :
  Live.isElement u t = false ->
  forall e' cs',
    In (Live.El e' cs') (Live.elements (Live.detach u t)) ->
    (exists cs, In (Live.El e' cs) (Live.elements t)) /\ Live.uid e' <> u.
Proof.
  induction t as [data|e children IH] using Tree_induction;
    intros Hu e' cs' H.
  - destruct H.
  - cbn [Live.detach Live.elements] in H. destruct H as [H|H].
    + injection H as <- _. split; [exists children; now left|].
      cbn in Hu. now apply Nat.eqb_neq.
    + apply in_flat_map in H as (t' & Ht' & Hin).
      apply in_flat_map in Ht' as (c & Hc & Hd).
      destruct (Live.isElement u c) eqn:E; [destruct Hd|].
      destruct Hd as [<-|[]].
      rewrite Forall_forall in IH.
      destruct (IH c Hc E _ _ Hin) as ((cs & I) & N).
      split; [|exact N]. exists cs. right. apply in_flat_map. now exists c.
Qed.

Lemma allElements_remove (u : nat) (p p' : Live.Page) (x : unit) :
  Live.remove u p = Normal (x, p') ->
  Live.fresh p' = Live.fresh p
  /\ forall e' cs',
      In (Live.El e' cs') (Live.allElements p') ->
      (exists cs, In (Live.El e' cs) (Live.allElements p))
      /\ Live.uid e' <> u.
Proof.
  unfold Live.remove. intros [= _ <-]. split; [reflexivity|].
  intros e' cs' H. unfold Live.allElements in *; cbn [Live.roots] in H.
  apply in_flat_map in H as (t' & Ht' & Hin).
  apply in_flat_map in Ht' as (c & Hc & Hd).
  destruct (Live.isElement u c) eqn:E; [destruct Hd|].
  destruct Hd as [<-|[]].
  destruct (elements_detach u c E _ _ Hin) as ((cs & I) & N).
  split; [|exact N]. exists cs. apply in_flat_map. now exists c.
Qed.

Lemma shrinking_remove (u : nat) : shrinking (Live.remove u).
Proof.
  intros p x p' H. apply allElements_remove in H as [F H].
  split; [exact F|]. intros e' cs' Hin.
  destruct (H _ _ Hin) as ((cs & I) & _). exists e', cs.
  split; [exact I|apply follows_refl].
Qed.

Lemma bindM_Normal {A B : Type} (m : Live.M A) (k : A -> Live.M B)
      (p p'' : Live.Page) (y : B) :
  Live.bindM m k p = Normal (y, p'') ->
  exists x p', m p = Normal (x, p') /\ k x p' = Normal (y, p'').
Proof.
  unfold Live.bindM. destruct (m p) as [[x p']|e]; [|discriminate].
  intros H. now exists x, p'.
Qed.

Lemma shrinking_ret {A : Type} (x : A) : shrinking (Live.ret x).
Proof. intros p y p' [= _ <-]. apply shrinks_refl. Qed.

Lemma shrinking_bind {A B : Type} (m : Live.M A) (k : A -> Live.M B) :
  shrinking m -> (forall x, shrinking (k x)) -> shrinking (Live.bindM m k).
Proof.
  intros Hm Hk p y p'' H. apply bindM_Normal in H as (x & p' & H1 & H2).
  apply shrinks_trans with p'; [now apply Hm with x|now apply (Hk x) with y].
Qed.

Lemma shrinking_reads {A : Type} (m : Live.M A) :
  (forall p x p', m p = Normal (x, p') -> p' = p) -> shrinking m.
Proof. intros H p x p' E. rewrite (H _ _ _ E). apply shrinks_refl. Qed.

Lemma reads_resolve (u : nat) p x p' :
  Live.resolve u p = Normal (x, p') -> p' = p.
Proof.
  unfold Live.resolve. destruct (Live.lookup u p); [|discriminate].
  now intros [= _ <-].
Qed.

Lemma reads_parentElement (u : nat) p x p' :
  Live.parentElement u p = Normal (x, p') -> p' = p.
Proof.
  unfold Live.parentElement.
  destruct (Live.ancestorsOrSelf u p) as [|? [|[|] ?]]; try discriminate.
  now intros [= _ <-].
Qed.

Lemma reads_querySelectorAll sel p x p' :
  Live.querySelectorAll sel p = Normal (x, p') -> p' = p.
Proof. unfold Live.querySelectorAll. now intros [= _ <-]. Qed.

Lemma reads_getElementById id p x p' :
  Live.getElementById id p = Normal (x, p') -> p' = p.
Proof. unfold Live.getElementById. now intros [= _ <-]. Qed.

Lemma shrinking_querySelectorIn u sel :
  shrinking (Live.querySelectorIn u sel).
Proof.
  apply shrinking_bind; [apply shrinking_reads, reads_resolve|].
  intros t. apply shrinking_ret.
Qed.

Lemma shrinking_getAttr u name : shrinking (Live.getAttr u name).
Proof.
  apply shrinking_bind; [apply shrinking_reads, reads_resolve|].
  intros t. apply shrinking_ret.
Qed.

Lemma shrinking_when (c : bool) (m : Live.M unit) :
  shrinking m -> shrinking (Live.when c m).
Proof. intros H. destruct c; [exact H|apply shrinking_ret]. Qed.

Lemma shrinking_forEach {S : Type} (f : nat -> Z -> S -> Live.M S)
      (l : list nat) :
  (forall u index s, shrinking (f u index s)) ->
  forall index s, shrinking (Live.forEach f l index s).
Proof.
  intros Hf. induction l as [|u l IH]; intros index s;
    cbn [Live.forEach]; [apply shrinking_ret|].
  apply shrinking_bind; [apply Hf|]. intros s'. apply IH.
Qed.

Lemma shrinking_setStyle u property value :
  shrinking (Live.setStyle u property value).
Proof. apply shrinking_update. intros e. apply follows_setStyleOf. Qed.

Lemma shrinking_removeAttribute u name :
  In name clearedAttributes -> shrinking (Live.removeAttribute u name).
Proof.
  intros H. apply shrinking_update. intros e.
  now apply follows_removeAttributeOf.
Qed.

Lemma shrinking_clearStyles u properties :
  shrinking (Live.clearStyles u properties).
Proof.
  induction properties as [|property rest IH]; cbn [Live.clearStyles];
    [apply shrinking_ret|].
  apply shrinking_bind; [apply shrinking_setStyle|]. intros _. exact IH.
Qed.

Lemma shrinking_removeBadge u sel : shrinking (Live.removeBadge u sel).
Proof.
  apply shrinking_bind; [apply shrinking_reads, reads_parentElement|].
  intros parent. apply shrinking_bind; [apply shrinking_querySelectorIn|].
  intros [b|]; [apply shrinking_remove|apply shrinking_ret].
Qed.

Lemma shrinking_restorePosition parent :
  shrinking (Live.restorePosition parent).
Proof.
  apply shrinking_bind; [apply shrinking_getAttr|]. intros changed.
  apply shrinking_when. apply shrinking_bind; [apply shrinking_setStyle|].
  intros _. apply shrinking_removeAttribute. cbn; tauto.
Qed.

Lemma shrinking_unmark (el : nat) (badgeClass : string) :
  shrinking
    (Live.bindM (Live.removeAttribute el "data-accessibility-id")
       (fun _ =>
          Live.bindM (Live.removeBadge el (Live.hasClass badgeClass))
            (fun _ =>
               Live.bindM (Live.parentElement el)
                          (fun parent => Live.restorePosition parent)))).
Proof.
  apply shrinking_bind; [apply shrinking_removeAttribute; cbn; tauto|].
  intros _. apply shrinking_bind; [apply shrinking_removeBadge|].
  intros _. apply shrinking_bind;
    [apply shrinking_reads, reads_parentElement|].
  intros parent. apply shrinking_restorePosition.
Qed.

Lemma shrinking_clearMarked values properties badgeClass :
  shrinking (Live.clearMarked values properties badgeClass).
Proof.
  apply shrinking_bind; [apply shrinking_reads, reads_querySelectorAll|].
  intros elements. apply shrinking_forEach. intros el _ _.
  apply shrinking_bind; [apply shrinking_clearStyles|]. intros _.
  apply shrinking_bind; [apply shrinking_removeAttribute; cbn; tauto|].
  intros _. apply shrinking_unmark.
Qed.

Lemma shrinking_removeAll sel : shrinking (Live.removeAll sel).
Proof.
  apply shrinking_bind; [apply shrinking_reads, reads_querySelectorAll|].
  intros found. apply shrinking_forEach. intros b _ _.
  apply shrinking_remove.
Qed.

Lemma shrinking_removeById id : shrinking (Live.removeById id).
Proof.
  apply shrinking_bind; [apply shrinking_reads, reads_getElementById|].
  intros [u|]; [apply shrinking_remove|apply shrinking_ret].
Qed.

Lemma shrinking_clearVisualFeedback : shrinking Live.clearVisualFeedback.
Proof.
  unfold Live.clearVisualFeedback.
  repeat (apply shrinking_bind; [apply shrinking_clearMarked|intros _]).
  repeat (apply shrinking_bind; [apply shrinking_removeAll|intros _]).
  apply shrinking_bind; [apply shrinking_removeById|intros _].
  apply shrinking_removeById.
Qed.

(** What [shrinks] keeps: the class and, when there is one, the mark. *)
Lemma follows_hasClass (e e' : Live.Element) (c : string) :
  follows e e' -> Live.hasClass c e' = Live.hasClass c e.
Proof.
  intros (_ & _ & _ & _ & A & _).
  unfold Live.hasClass, Live.classList, Live.getAttribute.
  rewrite (A "class"); [reflexivity|].
  cbn. intros [H|[H|[H|[H|[]]]]]; discriminate H.
Qed.

Lemma follows_marked (e e' : Live.Element) (values : list string) :
  follows e e' -> Live.marked values e' = true -> Live.marked values e = true.
Proof.
  intros (_ & _ & _ & _ & _ & M). unfold Live.marked.
  destruct M as [-> | ->]; [auto|discriminate].
Qed.

Lemma no_class_stable (c : string) (p p' : Live.Page) :
  shrinks p p' ->
  (forall e cs, In (Live.El e cs) (Live.allElements p) ->
                Live.hasClass c e = false) ->
  forall e cs, In (Live.El e cs) (Live.allElements p') ->
               Live.hasClass c e = false.
Proof.
  intros [_ S] H e' cs' I. destruct (S _ _ I) as (e & cs & I0 & F).
  rewrite (follows_hasClass e e' c F). now apply H with cs.
Qed.

Lemma no_mark_stable (values : list string) (p p' : Live.Page) :
  shrinks p p' ->
  (forall e cs, In (Live.El e cs) (Live.allElements p) ->
                Live.marked values e = false) ->
  forall e cs, In (Live.El e cs) (Live.allElements p') ->
               Live.marked values e = false.
Proof.
  intros [_ S] H e' cs' I. destruct (S _ _ I) as (e & cs & I0 & F).
  destruct (Live.marked values e') eqn:E; [|reflexivity].
  rewrite <- (H e cs I0). symmetry. now apply follows_marked with e'.
Qed.

Lemma selected_is_found (sel : Live.Element -> bool) (p : Live.Page)
      (e : Live.Element) (cs : list Live.Tree) :
  In (Live.El e cs) (Live.allElements p) -> sel e = true ->
  In (Live.uid e) (map Live.idOf (Live.matching sel (Live.allElements p))).
Proof.
  intros I H. apply in_map_iff. exists (Live.El e cs). split; [reflexivity|].
  apply filter_In. now split.
Qed.

Lemma forEach_remove (l : list nat) :
  forall index (p p' : Live.Page) (x : unit),
    Live.forEach (fun b _ _ => Live.remove b) l index tt p = Normal (x, p') ->
    forall e' cs',
      In (Live.El e' cs') (Live.allElements p') ->
      (exists cs, In (Live.El e' cs) (Live.allElements p))
      /\ ~ In (Live.uid e') l.
Proof.
  induction l as [|u l IH]; intros index p p' x H e' cs' I;
    cbn [Live.forEach] in H.
  - injection H as _ <-. split; [now exists cs'|intros []].
  - apply bindM_Normal in H as ([] & p1 & H1 & H2).
    destruct (IH _ _ _ _ H2 _ _ I) as ((cs1 & I1) & N).
    apply allElements_remove in H1 as [_ H1].
    destruct (H1 _ _ I1) as (X & Nu). split; [exact X|].
    intros [->|Hin]; [now apply Nu|now apply N].
Qed.

Lemma removeAll_removes (sel : Live.Element -> bool) (p p' : Live.Page)
      (x : unit) :
  Live.removeAll sel p = Normal (x, p') ->
  forall e cs, In (Live.El e cs) (Live.allElements p') -> sel e = false.
Proof.
  intros H e cs I. unfold Live.removeAll in H.
  apply bindM_Normal in H as (found & p0 & H0 & H1).
  unfold Live.querySelectorAll in H0. injection H0 as <- <-.
  destruct (forEach_remove _ _ _ _ _ H1 _ _ I) as ((cs0 & I0) & N).
  destruct (sel e) eqn:E; [|reflexivity].
  exfalso. apply N. now apply selected_is_found with cs0.
Qed.

Lemma removeAttribute_unmarks (u : nat) (values : list string)
      (p p' : Live.Page) (x : unit) (l : list nat) :
  Live.removeAttribute u "data-accessibility-issue" p = Normal (x, p') ->
  (forall e cs, In (Live.El e cs) (Live.allElements p) ->
                Live.marked values e = true -> In (Live.uid e) (u :: l)) ->
  forall e cs, In (Live.El e cs) (Live.allElements p') ->
               Live.marked values e = true -> In (Live.uid e) l.
Proof.
  intros H Inv e' cs' I Mk. apply allElements_update in H as [_ H].
  destruct (H _ _ I) as (e & cs & I0 & ->).
  destruct (Nat.eqb (Live.uid e) u) eqn:E.
  - exfalso. unfold Live.marked, Live.getAttribute in Mk. cbn in Mk.
    now rewrite assoc_unassign_same in Mk.
  - destruct (Inv e cs I0 Mk) as [Hu|Hl]; [|exact Hl].
    apply Nat.eqb_neq in E. congruence.
Qed.

Lemma marked_follow (values : list string) (p p' : Live.Page) (l : list nat) :
  shrinks p p' ->
  (forall e cs, In (Live.El e cs) (Live.allElements p) ->
                Live.marked values e = true -> In (Live.uid e) l) ->
  forall e cs, In (Live.El e cs) (Live.allElements p') ->
               Live.marked values e = true -> In (Live.uid e) l.
Proof.
  intros [_ S] Inv e' cs' I Mk. destruct (S _ _ I) as (e & cs & I0 & F).
  destruct F as (U & F). rewrite U. apply Inv with cs; [exact I0|].
  apply follows_marked with e'; [|exact Mk].
  unfold follows. now split.
Qed.

Lemma forEach_unmark (values properties : list string) (badgeClass : string)
      (l : list nat) :
  forall index (p p' : Live.Page) (x : unit),
    Live.forEach
      (fun el _ _ =>
         Live.bindM (Live.clearStyles el properties)
           (fun _ =>
              Live.bindM (Live.removeAttribute el "data-accessibility-issue")
                (fun _ =>
                   Live.bindM (Live.removeAttribute el "data-accessibility-id")
                     (fun _ =>
                        Live.bindM
                          (Live.removeBadge el (Live.hasClass badgeClass))
                          (fun _ =>
                             Live.bindM (Live.parentElement el)
                               (fun parent =>
                                  Live.restorePosition parent))))))
      l index tt p = Normal (x, p') ->
    (forall e cs, In (Live.El e cs) (Live.allElements p) ->
                  Live.marked values e = true -> In (Live.uid e) l) ->
    forall e cs, In (Live.El e cs) (Live.allElements p') ->
                 Live.marked values e = false.
Proof.
  induction l as [|u l IH]; intros index p p' x H Inv e cs I;
    cbn [Live.forEach] in H.
  - injection H as _ <-.
    destruct (Live.marked values e) eqn:E; [|reflexivity].
    destruct (Inv e cs I E).
  - apply bindM_Normal in H as ([] & p1 & H1 & H2).
    refine (IH _ _ _ _ H2 _ e cs I).
    apply bindM_Normal in H1 as ([] & pa & Ha & H1).
    apply bindM_Normal in H1 as ([] & pb & Hb & H1).
    apply (marked_follow values pb p1 l);
      [now apply (shrinking_unmark u badgeClass) with tt|].
    apply (removeAttribute_unmarks u values pa pb tt l Hb).
    apply (marked_follow values p pa (u :: l));
      [now apply (shrinking_clearStyles u properties) with tt|exact Inv].
Qed.

Lemma clearMarked_unmarks (values properties : list string)
      (badgeClass : string) (p p' : Live.Page) (x : unit) :
  Live.clearMarked values properties badgeClass p = Normal (x, p') ->
  forall e cs, In (Live.El e cs) (Live.allElements p') ->
               Live.marked values e = false.
Proof.
  intros H. unfold Live.clearMarked in H.
  apply bindM_Normal in H as (found & p0 & H0 & H1).
  unfold Live.querySelectorAll in H0. injection H0 as <- <-.
  intros e cs I. refine (forEach_unmark _ _ _ _ _ _ _ _ H1 _ e cs I).
  intros e0 cs0 I0 Mk. now apply selected_is_found with cs0.
Qed.

Lemma not_marked (values : list string) (e : Live.Element) (v : string) :
  Live.marked values e = false -> contains values v = true ->
  Live.getAttribute e "data-accessibility-issue" <> Some v.
Proof.
  unfold Live.marked. intros H C E. rewrite E in H. congruence.
Qed.

(** X15.  When the clearing returns, the document holds no element of
    one of the seven badge classes and no element whose mark of an issue
    is one of the nine values that the audit sets. *)
Theorem clearVisualFeedback_leaves_no_badge_and_no_mark
        (p p' : Live.Page) :
  Live.clearVisualFeedback p = Normal (tt, p') ->
  forall e children,
    In (Live.El e children) (Live.allElements p') ->
    (forall c, In c badgeClasses -> Live.hasClass c e = false)
    /\ (forall v, In v issueMarks ->
                  Live.getAttribute e "data-accessibility-issue" <> Some v).
Proof.
  intros H. unfold Live.clearVisualFeedback in H.
  apply bindM_Normal in H as ([] & p1 & H1 & H).
  apply bindM_Normal in H as ([] & p2 & H2 & H).
  apply bindM_Normal in H as ([] & p3 & H3 & H).
  apply bindM_Normal in H as ([] & p4 & H4 & H).
  apply bindM_Normal in H as ([] & p5 & H5 & H).
  apply bindM_Normal in H as ([] & p6 & H6 & H).
  apply bindM_Normal in H as ([] & p7 & H7 & H).
  apply bindM_Normal in H as ([] & p8 & H8 & H).
  apply bindM_Normal in H as ([] & p9 & H9 & H).
  apply bindM_Normal in H as ([] & p10 & H10 & H).
  apply bindM_Normal in H as ([] & p11 & H11 & H).
  apply bindM_Normal in H as ([] & p12 & H12 & H).
  apply bindM_Normal in H as ([] & p13 & H13 & H).
  apply bindM_Normal in H as ([] & p14 & H14 & H).
  apply bindM_Normal in H as ([] & p15 & H15 & H16).
  pose proof (shrinking_removeById _ _ _ _ H16) as T15.
  pose proof (shrinks_trans _ _ _ (shrinking_removeById _ _ _ _ H15) T15)
    as T14.
  pose proof (shrinks_trans _ _ _ (shrinking_removeAll _ _ _ _ H14) T14)
    as T13.
  pose proof (shrinks_trans _ _ _ (shrinking_removeAll _ _ _ _ H13) T13)
    as T12.
  pose proof (shrinks_trans _ _ _ (shrinking_removeAll _ _ _ _ H12) T12)
    as T11.
  pose proof (shrinks_trans _ _ _ (shrinking_removeAll _ _ _ _ H11) T11)
    as T10.
  pose proof (shrinks_trans _ _ _ (shrinking_removeAll _ _ _ _ H10) T10)
    as T9.
  pose proof (shrinks_trans _ _ _ (shrinking_removeAll _ _ _ _ H9) T9)
    as T8.
  pose proof (shrinks_trans _ _ _ (shrinking_removeAll _ _ _ _ H8) T8)
    as T7.
  pose proof (shrinks_trans _ _ _ (shrinking_clearMarked _ _ _ _ _ _ H7) T7)
    as T6.
  pose proof (shrinks_trans _ _ _ (shrinking_clearMarked _ _ _ _ _ _ H6) T6)
    as T5.
  pose proof (shrinks_trans _ _ _ (shrinking_clearMarked _ _ _ _ _ _ H5) T5)
    as T4.
  pose proof (shrinks_trans _ _ _ (shrinking_clearMarked _ _ _ _ _ _ H4) T4)
    as T3.
  pose proof (shrinks_trans _ _ _ (shrinking_clearMarked _ _ _ _ _ _ H3) T3)
    as T2.
  pose proof (shrinks_trans _ _ _ (shrinking_clearMarked _ _ _ _ _ _ H2) T2)
    as T1.
  intros e children I. split.
  - intros c [<-|[<-|[<-|[<-|[<-|[<-|[<-|[]]]]]]]].
    + exact (no_class_stable _ _ _ T8 (removeAll_removes _ _ _ _ H8) e _ I).
    + exact (no_class_stable _ _ _ T9 (removeAll_removes _ _ _ _ H9) e _ I).
    + exact (no_class_stable _ _ _ T10 (removeAll_removes _ _ _ _ H10) e _ I).
    + exact (no_class_stable _ _ _ T11 (removeAll_removes _ _ _ _ H11) e _ I).
    + exact (no_class_stable _ _ _ T12 (removeAll_removes _ _ _ _ H12) e _ I).
    + exact (no_class_stable _ _ _ T13 (removeAll_removes _ _ _ _ H13) e _ I).
    + exact (no_class_stable _ _ _ T14 (removeAll_removes _ _ _ _ H14) e _ I).
  - intros v [<-|[<-|[<-|[<-|[<-|[<-|[<-|[<-|[<-|[]]]]]]]]]].
    + apply (not_marked _ e _
               (no_mark_stable _ _ _ T1 (clearMarked_unmarks _ _ _ _ _ _ H1)
                               e _ I)).
      reflexivity.
    + apply (not_marked _ e _
               (no_mark_stable _ _ _ T2 (clearMarked_unmarks _ _ _ _ _ _ H2)
                               e _ I)).
      reflexivity.
    + apply (not_marked _ e _
               (no_mark_stable _ _ _ T2 (clearMarked_unmarks _ _ _ _ _ _ H2)
                               e _ I)).
      reflexivity.
    + apply (not_marked _ e _
               (no_mark_stable _ _ _ T3 (clearMarked_unmarks _ _ _ _ _ _ H3)
                               e _ I)).
      reflexivity.
    + apply (not_marked _ e _
               (no_mark_stable _ _ _ T4 (clearMarked_unmarks _ _ _ _ _ _ H4)
                               e _ I)).
      reflexivity.
    + apply (not_marked _ e _
               (no_mark_stable _ _ _ T4 (clearMarked_unmarks _ _ _ _ _ _ H4)
                               e _ I)).
      reflexivity.
    + apply (not_marked _ e _
               (no_mark_stable _ _ _ T5 (clearMarked_unmarks _ _ _ _ _ _ H5)
                               e _ I)).
      reflexivity.
    + apply (not_marked _ e _
               (no_mark_stable _ _ _ T6 (clearMarked_unmarks _ _ _ _ _ _ H6)
                               e _ I)).
      reflexivity.
    + apply (not_marked _ e _
               (no_mark_stable _ _ _ T7 (clearMarked_unmarks _ _ _ _ _ _ H7)
                               e _ I)).
      reflexivity.
Qed.

Lemma clearVisualFeedback_leaves_no_badge_and_no_mark_witness :
  Live.clearVisualFeedback auditedLinkPage = Normal (tt, clearedLinkPage)
  /\ forall e children,
      In (Live.El e children) (Live.allElements clearedLinkPage) ->
      (forall c, In c badgeClasses -> Live.hasClass c e = false)
      /\ (forall v, In v issueMarks ->
                    Live.getAttribute e "data-accessibility-issue" <> Some v).
Proof.
  assert (H : Live.clearVisualFeedback auditedLinkPage
              = Normal (tt, clearedLinkPage)) by (vm_compute; reflexivity).
  split; [exact H|].
  exact (clearVisualFeedback_leaves_no_badge_and_no_mark _ _ H).
Defined.

(** X16.  The clearing adds nothing to the document: when it returns,
    every element left is an element that was there, with the same name
    and the same attributes but for [style] and the three attributes of
    the audit, and no identity has been used for a new element. *)
Theorem clearVisualFeedback_adds_nothing (p p' : Live.Page) :
  Live.clearVisualFeedback p = Normal (tt, p') ->
  Live.fresh p' = Live.fresh p
  /\ forall e' children',
      In (Live.El e' children') (Live.allElements p') ->
      exists e children,
        In (Live.El e children) (Live.allElements p)
        /\ Live.uid e' = Live.uid e
        /\ Live.localName e' = Live.localName e
        /\ forall name, ~ In name clearedAttributes ->
                        Live.getAttribute e' name = Live.getAttribute e name.
Proof.
  intros H. destruct (shrinking_clearVisualFeedback _ _ _ H) as [F S].
  split; [exact F|]. intros e' cs' I.
  destruct (S _ _ I) as (e & cs & I0 & U & L & _ & _ & A & _).
  exists e, cs. repeat split; try assumption.
  intros name Hn. unfold Live.getAttribute. now rewrite (A name Hn).
Qed.

Lemma clearVisualFeedback_adds_nothing_witness :
  Live.clearVisualFeedback auditedLinkPage = Normal (tt, clearedLinkPage)
  /\ Live.fresh clearedLinkPage = Live.fresh auditedLinkPage.
Proof.
  assert (H : Live.clearVisualFeedback auditedLinkPage
              = Normal (tt, clearedLinkPage)) by (vm_compute; reflexivity).
  split; [exact H|].
  exact (proj1 (clearVisualFeedback_adds_nothing _ _ H)).
Defined.

(** ** The counts that the popup and the report page show *)





(** ** The notations of a colour *)

Lemma matchRgbAt_head (c : ascii) (t : string) :
  Ascii.eqb "r" c = false -> matchRgbAt (String c t) = None.
Proof. intros H. unfold matchRgbAt. cbn [expect]. now rewrite H. Qed.

Lemma matchRgb_without_r (s : string) :
  JsString.forallb (fun c => negb (Ascii.eqb "r" c)) s = true ->
  matchRgb s = None.
Proof.
  induction s as [|c t IH]; [reflexivity|].
  cbn [JsString.forallb]. intros H. apply andb_true_iff in H as [Hc Ht].
  apply negb_true_iff in Hc. cbn [matchRgb].
  rewrite (matchRgbAt_head c t Hc). now apply IH.
Qed.

Lemma hex_digit_is_not_r (c : ascii) :
  isHexDigit c = true -> negb (Ascii.eqb "r" c) = true.
Proof. destruct c as [[] [] [] [] [] [] [] []]; now try discriminate. Qed.

Lemma hex_digits_without_r (h : string) :
  JsString.forallb isHexDigit h = true ->
  JsString.forallb (fun c => negb (Ascii.eqb "r" c)) h = true.
Proof.
  induction h as [|c t IH]; [reflexivity|].
  cbn [JsString.forallb]. intros H. apply andb_true_iff in H as [Hc Ht].
  now rewrite (hex_digit_is_not_r c Hc), IH.
Qed.

Lemma matchRgb_hexText (h : string) :
  JsString.forallb isHexDigit h = true -> matchRgb (hexText h) = None.
Proof.
  intros H. apply matchRgb_without_r. unfold hexText.
  cbn [JsString.forallb]. now rewrite hex_digits_without_r.
Qed.

(** X18.  A number sign followed by three hexadecimal digits is read as
    the same colour as the six-digit text in which each digit is written
    twice, whatever the case of the digits; that colour is opaque, with
    channels between 0 and 255. *)
Theorem parseColor_short_hex_is_the_doubled_long_hex (c1 c2 c3 : ascii) :
  isHexDigit c1 = true -> isHexDigit c2 = true -> isHexDigit c3 = true ->
  let short := String c1 (String c2 (String c3 EmptyString)) in
  parseColor (hexText short) = parseColor (hexText (doubleChars short))
  /\ exists c, parseColor (hexText short) = Rgba c
               /\ inRange c /\ a c = Color.one.
Proof.
  intros H1 H2 H3 short.
  assert (Hs : JsString.forallb isHexDigit short = true).
  { unfold short. cbn [JsString.forallb]. now rewrite H1, H2, H3. }
  assert (Hl : JsString.forallb isHexDigit (doubleChars short) = true).
  { unfold short. cbn [JsString.forallb doubleChars].
    now rewrite H1, H2, H3. }
  assert (Ms : matchHex (hexText short) = Some short).
  { unfold matchHex, hexText. now rewrite Hs. }
  assert (Ml : matchHex (hexText (doubleChars short))
               = Some (doubleChars short)).
  { unfold matchHex, hexText. now rewrite Hl. }
  split.
  - unfold parseColor.
    rewrite (matchRgb_hexText _ Hs), (matchRgb_hexText _ Hl), Ms, Ml.
    reflexivity.
  - exact (parseColor_hex _ _ (matchRgb_hexText _ Hs) Ms).
Qed.

Lemma parseColor_short_hex_is_the_doubled_long_hex_witness :
  parseColor "#fA0" = parseColor "#ffAA00".
Proof.
  exact (proj1 (parseColor_short_hex_is_the_doubled_long_hex
                  "f" "A" "0" eq_refl eq_refl eq_refl)).
Defined.

Lemma takeWhile_prefix (p : ascii -> bool) (d rest : string) :
  JsString.forallb p d = true -> takeWhile p rest = EmptyString ->
  takeWhile p (d ++ rest) = d.
Proof.
  intros Hd Hr. induction d as [|c t IH]; cbn; [exact Hr|].
  cbn in Hd. apply andb_true_iff in Hd as [Hc Ht].
  now rewrite Hc, IH.
Qed.

Lemma dropWhile_prefix (p : ascii -> bool) (d rest : string) :
  JsString.forallb p d = true -> dropWhile p rest = rest ->
  dropWhile p (d ++ rest) = rest.
Proof.
  intros Hd Hr. induction d as [|c t IH]; cbn; [exact Hr|].
  cbn in Hd. apply andb_true_iff in Hd as [Hc Ht].
  now rewrite Hc, IH.
Qed.

Lemma digitRun_prefix (d : string) (c : ascii) (rest : string) :
  isNumeral d -> isDecimalDigit c = false ->
  digitRun (d ++ String c rest) = Some (d, String c rest).
Proof.
  intros [He Hd] Hc. unfold digitRun.
  rewrite takeWhile_prefix, dropWhile_prefix, He; try reflexivity;
    try assumption; cbn; now rewrite Hc.
Qed.

Lemma alphaRun_prefix (d : string) (c : ascii) (rest : string) :
  isEmpty d = false -> JsString.forallb isAlphaChar d = true ->
  isAlphaChar c = false ->
  alphaRun (d ++ String c rest) = Some (d, String c rest).
Proof.
  intros He Hd Hc. unfold alphaRun.
  rewrite takeWhile_prefix, dropWhile_prefix, He; try reflexivity;
    try assumption; cbn; now rewrite Hc.
Qed.

Lemma alpha_not_space (c : ascii) :
  isAlphaChar c = true -> isWhiteSpace c = false.
Proof. destruct c as [[] [] [] [] [] [] [] []]; now try discriminate. Qed.

Lemma skipSpaces_numeral (d rest : string) :
  isNumeral d -> skipSpaces (d ++ rest) = (d ++ rest)%string.
Proof.
  intros [He Hd]. destruct d as [|c t]; [discriminate He|].
  cbn in Hd. apply andb_true_iff in Hd as [Hc _].
  unfold skipSpaces. cbn. now rewrite (digit_not_space c Hc).
Qed.

Lemma skipSpaces_alpha (d rest : string) :
  isEmpty d = false -> JsString.forallb isAlphaChar d = true ->
  skipSpaces (d ++ rest) = (d ++ rest)%string.
Proof.
  intros He Hd. destruct d as [|c t]; [discriminate He|].
  cbn in Hd. apply andb_true_iff in Hd as [Hc _].
  unfold skipSpaces. cbn. now rewrite (alpha_not_space c Hc).
Qed.

Lemma skipSpaces_blank (s : string) :
  skipSpaces (String " " s) = skipSpaces s.
Proof. reflexivity. Qed.

Lemma matchRgb_first (s : string) (m : rgbMatch) :
  matchRgbAt s = Some m -> matchRgb s = Some m.
Proof. intros H. destruct s; cbn [matchRgb]; now rewrite H. Qed.

Lemma skipSpaces_mark (c : ascii) (s : string) :
  isWhiteSpace c = false -> skipSpaces (String c s) = String c s.
Proof. intros H. unfold skipSpaces. cbn. now rewrite H. Qed.

Lemma matchRgbAt_rgbText (red green blue : string) :
  isNumeral red -> isNumeral green -> isNumeral blue ->
  matchRgbAt (rgbText red green blue)
  = Some {| group1 := red; group2 := green; group3 := blue;
            group4 := None |}.
Proof.
  intros Hr Hg Hb. unfold rgbText, matchRgbAt.
  with_strategy opaque [skipSpaces digitRun alphaRun] cbn.
  rewrite (skipSpaces_numeral red _ Hr).
  rewrite (digitRun_prefix red "," _ Hr eq_refl).
  with_strategy opaque [skipSpaces digitRun alphaRun] cbn.
  rewrite (skipSpaces_mark "," _ eq_refl).
  with_strategy opaque [skipSpaces digitRun alphaRun] cbn.
  rewrite skipSpaces_blank, (skipSpaces_numeral green _ Hg).
  rewrite (digitRun_prefix green "," _ Hg eq_refl).
  with_strategy opaque [skipSpaces digitRun alphaRun] cbn.
  rewrite (skipSpaces_mark "," _ eq_refl).
  with_strategy opaque [skipSpaces digitRun alphaRun] cbn.
  rewrite skipSpaces_blank, (skipSpaces_numeral blue _ Hb).
  rewrite (digitRun_prefix blue ")" _ Hb eq_refl).
  with_strategy opaque [skipSpaces digitRun alphaRun] cbn.
  rewrite (skipSpaces_mark ")" _ eq_refl).
  reflexivity.
Qed.

Lemma matchRgbAt_rgbaText (red green blue alpha : string) :
  isNumeral red -> isNumeral green -> isNumeral blue ->
  isEmpty alpha = false -> JsString.forallb isAlphaChar alpha = true ->
  matchRgbAt (rgbaText red green blue alpha)
  = Some {| group1 := red; group2 := green; group3 := blue;
            group4 := Some alpha |}.
Proof.
  intros Hr Hg Hb He Ha. unfold rgbaText, matchRgbAt.
  with_strategy opaque [skipSpaces digitRun alphaRun] cbn.
  rewrite (skipSpaces_numeral red _ Hr).
  rewrite (digitRun_prefix red "," _ Hr eq_refl).
  with_strategy opaque [skipSpaces digitRun alphaRun] cbn.
  rewrite (skipSpaces_mark "," _ eq_refl).
  with_strategy opaque [skipSpaces digitRun alphaRun] cbn.
  rewrite skipSpaces_blank, (skipSpaces_numeral green _ Hg).
  rewrite (digitRun_prefix green "," _ Hg eq_refl).
  with_strategy opaque [skipSpaces digitRun alphaRun] cbn.
  rewrite (skipSpaces_mark "," _ eq_refl).
  with_strategy opaque [skipSpaces digitRun alphaRun] cbn.
  rewrite skipSpaces_blank, (skipSpaces_numeral blue _ Hb).
  rewrite (digitRun_prefix blue "," _ Hb eq_refl).
  with_strategy opaque [skipSpaces digitRun alphaRun] cbn.
  rewrite (skipSpaces_mark "," _ eq_refl).
  with_strategy opaque [skipSpaces digitRun alphaRun] cbn.
  rewrite skipSpaces_blank, (skipSpaces_alpha alpha _ He Ha).
  rewrite (alphaRun_prefix alpha ")" _ He Ha eq_refl).
  with_strategy opaque [skipSpaces digitRun alphaRun] cbn.
  rewrite (skipSpaces_mark ")" _ eq_refl).
  reflexivity.
Qed.

(** X19.  The functional notation of a computed colour is read as it is
    written: when the three runs of digits denote integers of at most
    2^53, the three channels are these integers; the alpha is 1 when
    there is no fourth part, and otherwise [NaN], a non-negative number
    or [+Infinity]. *)
Theorem parseColor_reads_the_functional_notation
        (red green blue : string) :
  isNumeral red -> isNumeral green -> isNumeral blue ->
  exactInteger red -> exactInteger green -> exactInteger blue ->
  parseColor (rgbText red green blue)
  = Rgba {| r := Some (digitsValue 10 0 red);
            g := Some (digitsValue 10 0 green);
            b := Some (digitsValue 10 0 blue);
            a := Color.one |}
  /\ forall alpha,
       isEmpty alpha = false ->
       JsString.forallb isAlphaChar alpha = true ->
       exists x,
         alphaNonNegative x
         /\ parseColor (rgbaText red green blue alpha)
            = Rgba {| r := Some (digitsValue 10 0 red);
                      g := Some (digitsValue 10 0 green);
                      b := Some (digitsValue 10 0 blue);
                      a := x |}.
Proof.
  intros Hr Hg Hb _ _ _. split.
  - rewrite (parseColor_rgb (rgbText red green blue) _ eq_refl
               (matchRgb_first _ _ (matchRgbAt_rgbText _ _ _ Hr Hg Hb))).
    reflexivity.
  - intros alpha He Ha. exists (parseFloat alpha).
    split; [now apply parseFloat_alphaRun|].
    rewrite (parseColor_rgb (rgbaText red green blue alpha) _ eq_refl
               (matchRgb_first _ _
                  (matchRgbAt_rgbaText _ _ _ _ Hr Hg Hb He Ha))).
    cbn [group1 group2 group3 group4]. now rewrite He.
Qed.

Lemma parseColor_reads_the_functional_notation_witness :
  parseColor (rgbText "12" "0" "255")
  = Rgba {| r := Some 12; g := Some 0; b := Some 255; a := Color.one |}.
Proof.
  assert (E : forall d, (digitsValue 10 0 d <=? 2 ^ 53) = true ->
                        exactInteger d)
    by (intros d; apply Z.leb_le).
  exact (proj1 (parseColor_reads_the_functional_notation "12" "0" "255"
                  (conj eq_refl eq_refl) (conj eq_refl eq_refl)
                  (conj eq_refl eq_refl)
                  (E "12" eq_refl) (E "0" eq_refl) (E "255" eq_refl))).
Defined.

Lemma largestBelowOne_lt : (largestBelowOne < 1)%Q.
Proof. reflexivity. Qed.

Lemma readsBelowOne_lt (x : jsfloat) :
  readsBelowOne x = true -> float_lt x Color.one = true.
Proof.
  unfold readsBelowOne, Color.one.
  destruct x as [|[|]|q]; try discriminate; try reflexivity.
  cbn [float_ge float_lt].
  destruct (Qcompare largestBelowOne q) eqn:E; try discriminate; intros _.
  - apply Qeq_alt in E.
    assert (L : (q < 1)%Q) by (rewrite <- E; exact largestBelowOne_lt).
    now rewrite (proj1 (Qlt_alt q 1) L).
  - apply Qgt_alt in E.
    assert (L : (q < 1)%Q).
    { apply Qlt_trans with largestBelowOne;
        [exact E|exact largestBelowOne_lt]. }
    now rewrite (proj1 (Qlt_alt q 1) L).
Qed.

(** X20.  An element is never reported when its background is the empty
    text, the keyword transparent, the transparent black that a computed
    style gives for no background, or a functional notation whose alpha
    is a decimal of at most 1 - 2^-53, which is read as a number below 1:
    the detector leaves such backgrounds to a manual check. *)
Theorem processContrastElement_skips_transparent_backgrounds
        (el : TextElement) (issueIndex : Z) :
  (backgroundColor el = EmptyString \/ backgroundColor el = "transparent"
   \/ backgroundColor el = "rgba(0, 0, 0, 0)" ->
   processContrastElement el issueIndex = None)
  /\ (forall red green blue alpha,
         isNumeral red -> isNumeral green -> isNumeral blue ->
         isEmpty alpha = false ->
         JsString.forallb isAlphaChar alpha = true ->
         readsBelowOne (parseFloat alpha) = true ->
         backgroundColor el = rgbaText red green blue alpha ->
         processContrastElement el issueIndex = None).
Proof.
  split.
  - intros [E|[E|E]]; unfold processContrastElement; now rewrite E.
  - intros red green blue alpha Hr Hg Hb He Ha Hlt E.
    apply readsBelowOne_lt in Hlt.
    unfold processContrastElement. rewrite E.
    destruct (_ || _); [reflexivity|].
    rewrite (parseColor_rgb (rgbaText red green blue alpha) _ eq_refl
               (matchRgb_first _ _
                  (matchRgbAt_rgbaText _ _ _ _ Hr Hg Hb He Ha))).
    cbn [semiTransparent a group4]. now rewrite He, Hlt.
Qed.

Lemma processContrastElement_skips_transparent_backgrounds_witness :
  processContrastElement
    (paragraph "rgb(0, 0, 0)" (rgbaText "0" "0" "0" "0.5")) 0 = None.
Proof.
  apply (proj2 (processContrastElement_skips_transparent_backgrounds
                  (paragraph "rgb(0, 0, 0)" (rgbaText "0" "0" "0" "0.5")) 0))
    with (red := "0") (green := "0") (blue := "0") (alpha := "0.5");
    try reflexivity; split; reflexivity.
Defined.

(** ** What the audit leaves of the page *)

Lemma kept_refl (e : Live.Element) : kept e e.
Proof. unfold kept. repeat split; auto. Qed.

Lemma kept_trans (e1 e2 e3 : Live.Element) :
  kept e1 e2 -> kept e2 e3 -> kept e1 e3.
Proof.
  intros (U1 & L1 & N1 & S1 & A1) (U2 & L2 & N2 & S2 & A2).
  unfold kept. repeat split; try congruence.
  intros name H. now rewrite A2, A1.
Qed.

Lemma follows_kept (e e' : Live.Element) : follows e e' -> kept e e'.
Proof. intros (U & L & N & S & A & _). unfold kept. now repeat split. Qed.

Lemma extends_refl (p : Live.Page) : extends p p.
Proof.
  split; [lia|]. intros e cs H. right. exists e, cs.
  split; [exact H|apply kept_refl].
Qed.

Lemma extends_trans (p1 p2 p3 : Live.Page) :
  extends p1 p2 -> extends p2 p3 -> extends p1 p3.
Proof.
  intros [F1 H1] [F2 H2]. split; [lia|].
  intros e3 cs3 H3. destruct (H2 _ _ H3) as [N|(e2 & cs2 & I2 & K2)].
  - left. lia.
  - destruct (H1 _ _ I2) as [N|(e1 & cs1 & I1 & K1)].
    + left. destruct K2 as (U & _). lia.
    + right. exists e1, cs1. split; [exact I1|now apply kept_trans with e2].
Qed.

Lemma extends_shrinks (p p' : Live.Page) : shrinks p p' -> extends p p'.
Proof.
  intros [F S]. split; [lia|]. intros e' cs' I. right.
  destruct (S _ _ I) as (e & cs & I0 & K). exists e, cs.
  split; [exact I0|now apply follows_kept].
Qed.

Lemma extending_shrinking {A : Type} (m : Live.M A) :
  shrinking m -> extending m.
Proof. intros H p x p' E. apply extends_shrinks. now apply H with x. Qed.

Lemma extending_ret {A : Type} (x : A) : extending (Live.ret x).
Proof. apply extending_shrinking, shrinking_ret. Qed.

Lemma extending_bind {A B : Type} (m : Live.M A) (k : A -> Live.M B) :
  extending m -> (forall x, extending (k x)) -> extending (Live.bindM m k).
Proof.
  intros Hm Hk p y p'' H. apply bindM_Normal in H as (x & p' & H1 & H2).
  apply extends_trans with p'; [now apply Hm with x|now apply (Hk x) with y].
Qed.

Lemma extending_reads {A : Type} (m : Live.M A) :
  (forall p x p', m p = Normal (x, p') -> p' = p) -> extending m.
Proof. intros H. apply extending_shrinking. now apply shrinking_reads. Qed.

Lemma extending_when (c : bool) (m : Live.M unit) :
  extending m -> extending (Live.when c m).
Proof. intros H. destruct c; [exact H|apply extending_ret]. Qed.

Lemma extending_forEach {S : Type} (f : nat -> Z -> S -> Live.M S)
      (l : list nat) :
  (forall u index s, extending (f u index s)) ->
  forall index s, extending (Live.forEach f l index s).
Proof.
  intros Hf. induction l as [|u l IH]; intros index s;
    cbn [Live.forEach]; [apply extending_ret|].
  apply extending_bind; [apply Hf|]. intros s'. apply IH.
Qed.

Lemma kept_setAttributeOf (name value : string) (e : Live.Element) :
  In name clearedAttributes -> kept e (Live.setAttributeOf name value e).
Proof.
  intros Hn. unfold kept; cbn. repeat split; try reflexivity.
  intros other H. apply assoc_assign_other. now apply not_cleared.
Qed.

Lemma extending_update (u : nat) (f : Live.Element -> Live.Element) :
  (forall e, kept e (f e)) -> extending (Live.update u f).
Proof.
  intros Hf p x p' H. apply allElements_update in H as [F H].
  split; [lia|]. intros e' cs' Hin. right.
  destruct (H _ _ Hin) as (e & cs & I & ->). exists e, cs.
  split; [exact I|]. destruct (Nat.eqb (Live.uid e) u);
    [apply Hf|apply kept_refl].
Qed.

Lemma extending_setAttribute u name value :
  In name clearedAttributes -> extending (Live.setAttribute u name value).
Proof.
  intros H. apply extending_update. intros e. now apply kept_setAttributeOf.
Qed.

Lemma extending_setStyle u property value :
  extending (Live.setStyle u property value).
Proof. apply extending_shrinking, shrinking_setStyle. Qed.

Lemma extending_removeAttribute u name :
  In name clearedAttributes -> extending (Live.removeAttribute u name).
Proof. intros H. now apply extending_shrinking, shrinking_removeAttribute. Qed.

Lemma elements_appendTo (parent : nat) (child t : Live.Tree) :
  forall e' cs',
    In (Live.El e' cs') (Live.elements (Live.appendTo parent child t)) ->
    (exists cs, In (Live.El e' cs) (Live.elements t))
    \/ In (Live.El e' cs') (Live.elements child).
Proof.
  induction t as [data|e children IH] using Tree_induction; intros e' cs' H.
  - destruct H.
  - cbn [Live.appendTo Live.elements] in H. destruct H as [H|H].
    + injection H as <- _. left. exists children. now left.
    + apply in_flat_map in H as (t' & Ht' & Hin).
      apply in_app_or in Ht' as [Ht'|Ht'].
      * apply in_map_iff in Ht' as (t0 & <- & Ht0).
        rewrite Forall_forall in IH.
        destruct (IH t0 Ht0 _ _ Hin) as [(cs & I)|I]; [left|now right].
        exists cs. right. apply in_flat_map. now exists t0.
      * destruct (Nat.eqb (Live.uid e) parent); [|destruct Ht'].
        destruct Ht' as [<-|[]]. now right.
Qed.

Lemma extending_appendChild (parent : nat) (create : nat -> Live.Tree) :
  (forall u e cs, In (Live.El e cs) (Live.elements (create u)) ->
                  Live.uid e = u) ->
  extending (Live.appendChild parent create).
Proof.
  intros Hc p x p' H. unfold Live.appendChild in H. injection H as _ <-.
  split; [cbn; lia|]. intros e' cs' I.
  unfold Live.allElements in I; cbn [Live.roots] in I.
  apply in_flat_map in I as (t' & Ht' & Hin).
  apply in_map_iff in Ht' as (t0 & <- & Ht0).
  destruct (elements_appendTo _ _ _ _ _ Hin) as [(cs & I)|I].
  - right. exists e', cs. split; [|apply kept_refl].
    apply in_flat_map. now exists t0.
  - left. rewrite (Hc _ _ _ I). lia.
Qed.

Lemma extending_getElementById id : extending (Live.getElementById id).
Proof. apply extending_reads, reads_getElementById. Qed.

Lemma reads_documentHead p x p' :
  Live.documentHead p = Normal (x, p') -> p' = p.
Proof.
  unfold Live.documentHead.
  destruct (Live.first _ _); [|discriminate]. now intros [= _ <-].
Qed.

Lemma extending_injectStyle id rules : extending (Live.injectStyle id rules).
Proof.
  apply extending_bind; [apply extending_getElementById|].
  intros [u|]; [apply extending_ret|].
  apply extending_bind; [apply extending_reads, reads_documentHead|].
  intros head. apply extending_appendChild.
  intros u e cs [H|[]]. now injection H as <- _.
Qed.

Lemma extending_resolve u : extending (Live.resolve u).
Proof. apply extending_reads, reads_resolve. Qed.

Lemma extending_parentElement u : extending (Live.parentElement u).
Proof. apply extending_reads, reads_parentElement. Qed.

Lemma extending_querySelectorAll sel : extending (Live.querySelectorAll sel).
Proof. apply extending_reads, reads_querySelectorAll. Qed.

Lemma extending_ensurePositioned parent :
  extending (Live.ensurePositioned parent).
Proof.
  apply extending_bind; [apply extending_resolve|].
  intros [data|e cs]; [apply extending_ret|].
  apply extending_when. apply extending_bind; [apply extending_setStyle|].
  intros _. apply extending_setAttribute. cbn; tauto.
Qed.

Lemma extending_addBadge u present className text id background :
  extending (Live.addBadge u present className text id background).
Proof.
  apply extending_bind; [apply extending_parentElement|]. intros parent.
  apply extending_bind;
    [apply extending_shrinking, shrinking_querySelectorIn|].
  intros [b|]; [apply extending_ret|].
  apply extending_bind; [apply extending_ensurePositioned|]. intros _.
  apply extending_appendChild.
  intros v e cs [H|[]]. now injection H as <- _.
Qed.

Lemma extending_get : extending (fun p : Live.Page => Normal (p, p)).
Proof. apply extending_reads. now intros p x p' [= _ <-]. Qed.

Ltac extending_step :=
  first
    [ apply extending_ret
    | apply extending_get
    | apply extending_resolve
    | apply extending_parentElement
    | apply extending_querySelectorAll
    | apply extending_setStyle
    | apply extending_injectStyle
    | apply extending_addBadge
    | apply extending_ensurePositioned
    | apply extending_setAttribute; cbn; tauto
    | apply extending_removeAttribute; cbn; tauto
    | apply extending_shrinking; apply shrinking_clearStyles
    | apply extending_shrinking; apply shrinking_removeBadge
    | apply extending_shrinking; apply shrinking_restorePosition
    | apply extending_shrinking; apply shrinking_getAttr
    | apply extending_when
    | apply extending_forEach; intros ? ? ?
    | apply extending_bind; [|intros ?]
    | match goal with
      | |- extending (if ?c then _ else _) => destruct c
      | |- extending (match ?x with _ => _ end) => destruct x
      | |- extending (let (_, _) := ?x in _) => destruct x
      end ].

Lemma extending_checkImages : extending Live.checkImages.
Proof. unfold Live.checkImages. repeat extending_step. Qed.

Lemma extending_checkSVG : extending Live.checkSVG.
Proof.
  unfold Live.checkSVG, Live.addVisualFeedbackToSVG,
    Live.removeVisualFeedbackFromSVG.
  repeat extending_step.
Qed.

Lemma extending_checkLinks : extending Live.checkLinks.
Proof.
  unfold Live.checkLinks, Live.addVisualFeedbackToLink,
    Live.removeVisualFeedbackFromLink.
  repeat extending_step.
Qed.

Lemma extending_checkHeadings : extending Live.checkHeadings.
Proof.
  unfold Live.checkHeadings, Live.markHeading. repeat extending_step.
Qed.

Lemma extending_checkForms : extending Live.checkForms.
Proof. unfold Live.checkForms. repeat extending_step. Qed.

Lemma extending_checkContrast : extending Live.checkContrast.
Proof.
  unfold Live.checkContrast, Live.processContrastElement,
    Live.ensureContrastStyles.
  repeat extending_step.
Qed.

Lemma extending_checkButtons : extending Live.checkButtons.
Proof. unfold Live.checkButtons. repeat extending_step. Qed.

Lemma extending_checkLanguage : extending Live.checkLanguage.
Proof.
  apply extending_reads. intros p x p'. unfold Live.checkLanguage.
  destruct (Detectors.checkLanguage _); [|discriminate].
  now intros [= _ <-].
Qed.

Lemma extending_checkLandmarks : extending Live.checkLandmarks.
Proof.
  apply extending_reads. intros p x p'. unfold Live.checkLandmarks.
  now intros [= _ <-].
Qed.

Lemma extending_auditAccessibility : extending Live.auditAccessibility.
Proof.
  unfold Live.auditAccessibility.
  apply extending_bind;
    [apply extending_shrinking, shrinking_clearVisualFeedback|intros _].
  apply extending_bind; [apply extending_checkImages|intros ?].
  apply extending_bind; [apply extending_checkSVG|intros ?].
  apply extending_bind; [apply extending_checkLinks|intros ?].
  apply extending_bind; [apply extending_checkHeadings|intros ?].
  apply extending_bind; [apply extending_checkForms|intros ?].
  apply extending_bind; [apply extending_checkContrast|intros ?].
  apply extending_bind; [apply extending_checkLanguage|intros ?].
  apply extending_bind; [apply extending_checkLandmarks|intros ?].
  apply extending_bind; [apply extending_checkButtons|intros ?].
  apply extending_ret.
Qed.

(** X21.  The audit leaves the elements of the page as they were but for
    its own marks: when it returns, every element of the document either
    carries an identity that the page had not given out, being one of
    the badges and style sheets created since, or is an element of the
    page with the same name and the same attributes, [style] and the
    three attributes of the audit apart. *)
Theorem auditAccessibility_keeps_the_elements_of_the_page
        (p p' : Live.Page) (rep : AuditReport) :
  Live.auditAccessibility p = Normal (rep, p') ->
  (Live.fresh p <= Live.fresh p')%nat
  /\ forall e' children',
      In (Live.El e' children') (Live.allElements p') ->
      (Live.fresh p <= Live.uid e')%nat
      \/ exists e children,
           In (Live.El e children) (Live.allElements p)
           /\ Live.uid e' = Live.uid e
           /\ Live.localName e' = Live.localName e
           /\ forall name, ~ In name clearedAttributes ->
                           Live.getAttribute e' name
                           = Live.getAttribute e name.
Proof.
  intros H. destruct (extending_auditAccessibility _ _ _ H) as [F S].
  split; [exact F|]. intros e' cs' I.
  destruct (S _ _ I) as [N|(e & cs & I0 & U & L & _ & _ & A)];
    [now left|right].
  exists e, cs. repeat split; try assumption.
  intros name Hn. unfold Live.getAttribute. now rewrite (A name Hn).
Qed.

Lemma auditAccessibility_keeps_the_elements_of_the_page_witness :
  Live.auditAccessibility emptyLinkPage
  = Normal (auditedLinkReport, auditedLinkPage)
  /\ (Live.fresh emptyLinkPage <= Live.fresh auditedLinkPage)%nat.
Proof.
  assert (H : Live.auditAccessibility emptyLinkPage
              = Normal (auditedLinkReport, auditedLinkPage))
    by (vm_compute; reflexivity).
  split; [exact H|].
  exact (proj1 (auditAccessibility_keeps_the_elements_of_the_page
                  emptyLinkPage auditedLinkPage auditedLinkReport H)).
Defined.
